(** * NewsLetterManager: the bulk email dispatch engine

    A shallow embedding of [EmailService] (server/email-service.ts) and of
    the three storage operations it relies on ([getSmtpConfigs], [logEmail]
    and [getSmtpDailyCount] of server/storage.ts), followed by the
    properties of the server pool rotator and of the dispatch loop.  The
    other operations of server/storage.ts on the SMTP configs and on the
    email log, and the two copies of the handler of the send route, are
    embedded as well, with the properties that tie them to the dispatcher.

    Conventions of the embedding.
    - A mongoose [ObjectId] is its hexadecimal text, so [toString] is the
      identity; a [Date] is a number of milliseconds.
    - An [async] method is a function from the state before the call to an
      outcome and the state after it; a rejected promise is [Throws].
      State changes made before a throw stay, as in JavaScript.
    - The state has three parts: the fields of the [EmailService] object
      (with the number of transporters created so far, which gives each
      transporter its identity), the [World] of its collaborators (the two
      MongoDB collections, the clock, the numbers of calls made so far),
      and the [trace] of the calls made to collaborators, oldest first.
    - What the collaborators answer is fixed by an [Env]: whether the k-th
      [sendMail] and the k-th [logEmail] call reject, and which documents
      other senders insert into the log while the k-th [sendMail] call is
      in flight.  Reads from storage always succeed and storage calls take
      no time; the clock moves only in [delay], by the requested amount.
    - The clock counts milliseconds of UTC.  The process runs in a time
      zone whose local time is [zoneOffset] milliseconds ahead of UTC,
      the same throughout a run; a day is a day of that zone.
    - A count of messages is an integer.  [dailyLimit] is a JavaScript
      number that no schema requires to be whole: a rational. *)

From Stdlib Require Import ZArith QArith String Ascii List Lia Lqa.
From stdpp Require Import gmap strings list.

Open Scope string_scope.

(** ** Data model *)

(** An [ObjectId], as its hexadecimal text. *)
Abbreviation ObjectId := string (only parsing).

(** [ISmtpConfig] of server/models.ts ([createdAt] is never read). *)
Record ISmtpConfig := {
  _id : ObjectId;
  name : string;
  host : string;
  port : Z;
  username : string;
  password : string;
  fromEmail : string;
  fromName : string;
  isDefault : bool;
  dailyLimit : Q
}.

(** The argument of [storage.logEmail]: an [IEmailLog] without [sentAt]. *)
Record InsertLog := {
  smtpConfigId : ObjectId;
  campaignId : ObjectId;
  logSubscriberId : ObjectId;
  status : string;
  error : option string
}.

(** A stored [IEmailLog] document. *)
Record IEmailLog := {
  entry : InsertLog;
  sentAt : Z
}.

(** One element of the [emails] array given to [sendBulkEmails]. *)
Record Email := {
  subscriberId : ObjectId;
  to : string;
  subject : string;
  html : string
}.

(** The options given to [nodemailer.createTransport]. *)
Record TransportOptions := {
  optHost : string;
  optPort : Z;
  secure : bool;
  authUser : string;
  authPass : string
}.

(** A transporter object; [handleId] is its identity (the rank of the
    [createTransport] call that made it). *)
Record Transporter := {
  handleId : nat;
  options : TransportOptions
}.

(** The argument of [transport.sendMail]. *)
Record MailOptions := {
  mailFrom : string;
  mailTo : string;
  mailSubject : string;
  mailHtml : string
}.

(** A thrown value: an [Error] object with its [message], or anything
    else with its [String(...)] rendering. *)
Inductive Exn :=
| ErrorObj (message : string)
| Thrown (rendering : string).

(** [error instanceof Error ? error.message : String(error)] *)
Definition errorText (e : Exn) : string :=
  match e with
  | ErrorObj m => m
  | Thrown s => s
  end.

Definition NoServersConfigured : Exn :=
  ErrorObj "No SMTP configurations available".

Definition AllQuotasExhausted : Exn :=
  ErrorObj "Daily sending limit reached for all SMTP configurations".

(** What reading [_id] of [undefined] throws. *)
Definition UndefinedConfig : Exn :=
  ErrorObj "Cannot read properties of undefined (reading '_id')".

Definition batchFatal (e : Exn) : Prop :=
  e = NoServersConfigured \/ e = AllQuotasExhausted.

(** [const RATE_LIMIT_DELAY = 2000] *)
Definition RATE_LIMIT_DELAY : Z := 2000.

(** ** Collaborators *)

Inductive Event :=
| EvGetSmtpConfigs
| EvGetSmtpDailyCount (id : ObjectId)
| EvCreateTransport (o : TransportOptions)
| EvSendMail (t : Transporter) (m : MailOptions)
| EvLogEmail (l : InsertLog)
| EvDelay (ms : Z).

Record World := {
  smtpConfigs : list ISmtpConfig;
  emailLogs : list IEmailLog;
  clock : Z;
  zoneOffset : Z;
  sendMailCalls : nat;
  logEmailCalls : nat
}.

Record Env := {
  sendMailOutcome : nat -> option Exn;
  sendMailMeanwhile : nat -> list IEmailLog;
  logEmailOutcome : nat -> option Exn
}.

(** The environment in which nothing fails and nobody else sends. *)
Definition quietEnv : Env := {|
  sendMailOutcome := fun _ => None;
  sendMailMeanwhile := fun _ => [];
  logEmailOutcome := fun _ => None
|}.

(** ** The state and the monad of asynchronous methods *)

Record State := {
  transports : gmap string Transporter;
  transportsCreated : nat;
  currentSmtpIndex : nat;
  smtpQueue : list ISmtpConfig;
  world : World;
  trace : list Event
}.

(** [new EmailService()] in a given world. *)
Definition newEmailService (w : World) : State := {|
  transports := ∅;
  transportsCreated := 0;
  currentSmtpIndex := 0;
  smtpQueue := [];
  world := w;
  trace := []
|}.

Inductive Outcome (A : Type) :=
| Returns (a : A)
| Throws (e : Exn)
| OutOfFuel.

Arguments Returns {A} a.
Arguments Throws {A} e.
Arguments OutOfFuel {A}.

Definition M (A : Type) : Type := State -> Outcome A * State.

Definition ret {A} (a : A) : M A := fun st => (Returns a, st).

Definition throw {A} (e : Exn) : M A := fun st => (Throws e, st).

Definition bind {A B} (m : M A) (k : A -> M B) : M B :=
  fun st =>
    match m st with
    | (Returns a, st') => k a st'
    | (Throws e, st') => (Throws e, st')
    | (OutOfFuel, st') => (OutOfFuel, st')
    end.

(** [try { body } catch (error) { handler }] *)
Definition tryCatch {A} (body : M A) (handler : Exn -> M A) : M A :=
  fun st =>
    match body st with
    | (Throws e, st') => handler e st'
    | r => r
    end.

Notation "'let*' x ':=' m 'in' k" := (bind m (fun x => k))
  (at level 10, x name, m at level 100, k at level 200).
Notation "m ';;' k" := (bind m (fun _ => k))
  (at level 100, k at level 200, right associativity).

Definition setQueue (q : list ISmtpConfig) (st : State) : State := {|
  transports := transports st;
  transportsCreated := transportsCreated st;
  currentSmtpIndex := currentSmtpIndex st;
  smtpQueue := q;
  world := world st;
  trace := trace st
|}.

Definition setIndex (i : nat) (st : State) : State := {|
  transports := transports st;
  transportsCreated := transportsCreated st;
  currentSmtpIndex := i;
  smtpQueue := smtpQueue st;
  world := world st;
  trace := trace st
|}.

Definition setTransports (t : gmap string Transporter) (st : State) : State := {|
  transports := t;
  transportsCreated := transportsCreated st;
  currentSmtpIndex := currentSmtpIndex st;
  smtpQueue := smtpQueue st;
  world := world st;
  trace := trace st
|}.

Definition setWorld (w : World) (st : State) : State := {|
  transports := transports st;
  transportsCreated := transportsCreated st;
  currentSmtpIndex := currentSmtpIndex st;
  smtpQueue := smtpQueue st;
  world := w;
  trace := trace st
|}.

Definition emit (ev : Event) (st : State) : State := {|
  transports := transports st;
  transportsCreated := transportsCreated st;
  currentSmtpIndex := currentSmtpIndex st;
  smtpQueue := smtpQueue st;
  world := world st;
  trace := trace st ++ [ev]
|}.

(** [a < b] on numbers, as a test. *)
Definition Qltb (a b : Q) : bool :=
  (Qnum a * QDen b <? Qnum b * QDen a)%Z.

(** ** server/storage.ts *)

Definition msPerDay : Z := 86400000.

(** [today.setHours(0, 0, 0, 0)] at the instant [t]: the last midnight of
    the process's time zone, whose local time is [offset] milliseconds
    ahead of UTC. *)
Definition startOfDay (offset : Z) (t : Z) : Z :=
  (t - (t + offset) mod msPerDay)%Z.

(** The filter of [EmailLog.countDocuments] in [getSmtpDailyCount]. *)
Definition countsToday (id : ObjectId) (today : Z) (l : IEmailLog) : bool :=
  String.eqb (smtpConfigId (entry l)) id
  && (today <=? sentAt l)%Z
  && String.eqb (status (entry l)) "sent".

Definition dailyCount (w : World) (id : ObjectId) : Z :=
  let today := startOfDay (zoneOffset w) (clock w) in
  Z.of_nat (length (List.filter (countsToday id today) (emailLogs w))).

(** [storage.getSmtpDailyCount] *)
Definition getSmtpDailyCount (id : ObjectId) : M Z :=
  fun st => (Returns (dailyCount (world st) id), emit (EvGetSmtpDailyCount id) st).

(** [storage.getSmtpConfigs] *)
Definition getSmtpConfigs : M (list ISmtpConfig) :=
  fun st => (Returns (smtpConfigs (world st)), emit EvGetSmtpConfigs st).

Definition storeLog (l : IEmailLog) (w : World) : World := {|
  smtpConfigs := smtpConfigs w;
  emailLogs := emailLogs w ++ [l];
  clock := clock w;
  zoneOffset := zoneOffset w;
  sendMailCalls := sendMailCalls w;
  logEmailCalls := logEmailCalls w
|}.

Definition countLogCall (w : World) : World := {|
  smtpConfigs := smtpConfigs w;
  emailLogs := emailLogs w;
  clock := clock w;
  zoneOffset := zoneOffset w;
  sendMailCalls := sendMailCalls w;
  logEmailCalls := S (logEmailCalls w)
|}.

(** The world after [ms] milliseconds. *)
Definition advance (ms : Z) (w : World) : World := {|
  smtpConfigs := smtpConfigs w;
  emailLogs := emailLogs w;
  clock := (clock w + ms)%Z;
  zoneOffset := zoneOffset w;
  sendMailCalls := sendMailCalls w;
  logEmailCalls := logEmailCalls w
|}.

(** The world after one more [sendMail] call: the documents that the other
    senders of [E] inserted meanwhile are in the log. *)
Definition inFlight (E : Env) (w : World) : World := {|
  smtpConfigs := smtpConfigs w;
  emailLogs := emailLogs w ++ sendMailMeanwhile E (sendMailCalls w);
  clock := clock w;
  zoneOffset := zoneOffset w;
  sendMailCalls := S (sendMailCalls w);
  logEmailCalls := logEmailCalls w
|}.

(** [storage.logEmail]: [EmailLog.create({...insertLog, sentAt: new Date()})].
    A rejected call stores nothing. *)
Definition logEmail (E : Env) (l : InsertLog) : M unit :=
  fun st =>
    let w := world st in
    let st1 := emit (EvLogEmail l) (setWorld (countLogCall w) st) in
    match logEmailOutcome E (logEmailCalls w) with
    | Some e => (Throws e, st1)
    | None =>
        (Returns tt,
         setWorld (storeLog {| entry := l; sentAt := clock w |} (world st1)) st1)
    end.

(** ** server/email-service.ts *)

Section EmailService.

Variable E : Env.

(** [this.delay(ms)] *)
Definition delay (ms : Z) : M unit :=
  fun st => (Returns tt, emit (EvDelay ms) (setWorld (advance ms (world st)) st)).

(** [this.smtpQueue.push(c)] *)
Definition push (c : ISmtpConfig) (st : State) : State :=
  setQueue (smtpQueue st ++ [c]) st.

(** [configs.forEach((c) => { if (!c.isDefault) this.smtpQueue.push(c); })] *)
Definition pushNonDefaults (configs : list ISmtpConfig) (st : State) : State :=
  fold_left (fun s c => if negb (isDefault c) then push c s else s) configs st.

Definition refreshSmtpQueue : M unit :=
  let* configs := getSmtpConfigs in
  fun st =>
    let st1 := setQueue [] st in
    let st2 :=
      match List.find isDefault configs with
      | Some defaultConfig => pushNonDefaults configs (push defaultConfig st1)
      | None => setQueue configs st1
      end in
    (Returns tt, setIndex 0 st2).

(** The [do { ... } while (true)] of [getNextAvailableSmtp]; each unit of
    [fuel] pays for one iteration. *)
Fixpoint scanLoop (fuel : nat) (startIndex : nat) : M ISmtpConfig :=
  match fuel with
  | O => fun st => (OutOfFuel, st)
  | S fuel' =>
      fun st =>
        match smtpQueue st !! currentSmtpIndex st with
        | None => (Throws UndefinedConfig, st)
        | Some config =>
            (let* count := getSmtpDailyCount (_id config) in
             if Qltb (inject_Z count) (dailyLimit config) then ret config
             else
               fun st' =>
                 let next :=
                   (currentSmtpIndex st' + 1) mod length (smtpQueue st') in
                 let st'' := setIndex next st' in
                 if Nat.eqb next startIndex then (Throws AllQuotasExhausted, st'')
                 else scanLoop fuel' startIndex st'') st
        end
  end.

(** [getNextAvailableSmtp].  The loop is given as many iterations as the
    queue has servers; [scanLoop_fuel_irrelevant] shows that it never asks
    for more, whatever the state. *)
Definition getNextAvailableSmtp : M ISmtpConfig :=
  (fun st =>
     if Nat.eqb (length (smtpQueue st)) 0 then refreshSmtpQueue st
     else (Returns tt, st));;
  fun st =>
    if Nat.eqb (length (smtpQueue st)) 0 then (Throws NoServersConfigured, st)
    else scanLoop (length (smtpQueue st)) (currentSmtpIndex st) st.

(** [nodemailer.createTransport(options)]: a new transporter on each call. *)
Definition createTransport (o : TransportOptions) : M Transporter :=
  fun st =>
    (Returns {| handleId := transportsCreated st; options := o |},
     emit (EvCreateTransport o)
       {| transports := transports st;
          transportsCreated := S (transportsCreated st);
          currentSmtpIndex := currentSmtpIndex st;
          smtpQueue := smtpQueue st;
          world := world st;
          trace := trace st |}).

(** The object literal given to [createTransport] in [getTransport]. *)
Definition optionsOf (config : ISmtpConfig) : TransportOptions := {|
  optHost := host config;
  optPort := port config;
  secure := (port config =? 465)%Z;
  authUser := username config;
  authPass := password config
|}.

(** [getTransport].  The result is what [this.transports.get(...)] gives,
    [None] standing for [undefined]. *)
Definition getTransport (config : ISmtpConfig) : M (option Transporter) :=
  (fun st =>
     match transports st !! _id config with
     | Some _ => (Returns tt, st)
     | None =>
         (let* transport := createTransport (optionsOf config) in
          fun st' =>
            (Returns tt,
             setTransports (<[_id config := transport]> (transports st')) st'))
           st
     end);;
  fun st => (Returns (transports st !! _id config), st).

(** What calling [sendMail] on [undefined] throws. *)
Definition UndefinedTransport : Exn :=
  ErrorObj "Cannot read properties of undefined (reading 'sendMail')".

(** [transport.sendMail(mail)]: the network call.  While it is in flight
    the other senders of [E] insert their documents into the log. *)
Definition sendMail (transport : option Transporter) (mail : MailOptions) : M unit :=
  match transport with
  | None => throw UndefinedTransport
  | Some t =>
      fun st =>
        let st' := emit (EvSendMail t mail) (setWorld (inFlight E (world st)) st) in
        match sendMailOutcome E (sendMailCalls (world st)) with
        | Some e => (Throws e, st')
        | None => (Returns tt, st')
        end
  end.

Definition dquote : string := String "034"%char EmptyString.

(** The template literal ["${fromName}" <${fromEmail}>] with its quotes. *)
Definition fromHeader (c : ISmtpConfig) : string :=
  dquote ++ fromName c ++ dquote ++ " <" ++ fromEmail c ++ ">".

(** The argument of [sendMail] in [sendBulkEmails]. *)
Definition mailFor (c : ISmtpConfig) (email : Email) : MailOptions := {|
  mailFrom := fromHeader c;
  mailTo := to email;
  mailSubject := subject email;
  mailHtml := html email
|}.

Definition sentLog (c : ISmtpConfig) (campaign : ObjectId) (email : Email) : InsertLog := {|
  smtpConfigId := _id c;
  campaignId := campaign;
  logSubscriberId := subscriberId email;
  status := "sent";
  error := None
|}.

Definition failedLog (c : ISmtpConfig) (campaign : ObjectId) (email : Email)
    (e : Exn) : InsertLog := {|
  smtpConfigId := _id c;
  campaignId := campaign;
  logSubscriberId := subscriberId email;
  status := "failed";
  error := Some (errorText e)
|}.

(** The [try] block of the loop body of [sendBulkEmails]. *)
Definition attempt (campaign : ObjectId) (email : Email) : M unit :=
  let* smtpConfig := getNextAvailableSmtp in
  let* transport := getTransport smtpConfig in
  sendMail transport (mailFor smtpConfig email);;
  logEmail E (sentLog smtpConfig campaign email);;
  delay RATE_LIMIT_DELAY.

(** The [catch (error)] block of the loop body. *)
Definition recordFailure (campaign : ObjectId) (email : Email) (e : Exn) : M unit :=
  let* smtpConfig := getNextAvailableSmtp in
  logEmail E (failedLog smtpConfig campaign email e);;
  delay (RATE_LIMIT_DELAY * 2).

(** One iteration of [for (const email of emails)]. *)
Definition sendOne (campaign : ObjectId) (email : Email) : M unit :=
  tryCatch (attempt campaign email) (recordFailure campaign email).

Fixpoint forEachEmail (campaign : ObjectId) (emails : list Email) : M unit :=
  match emails with
  | [] => ret tt
  | email :: rest => sendOne campaign email;; forEachEmail campaign rest
  end.

Definition sendBulkEmails (campaign : ObjectId) (emails : list Email) : M unit :=
  refreshSmtpQueue;; forEachEmail campaign emails.

End EmailService.

(** ** Vocabulary of the properties *)

(** [count < config.dailyLimit] in world [w]. *)
Definition underQuota (w : World) (c : ISmtpConfig) : bool :=
  Qltb (inject_Z (dailyCount w (_id c))) (dailyLimit c).

Definition underQuotaAt (w : World) (q : list ISmtpConfig) (p : nat) : bool :=
  match q !! p with
  | Some c => underQuota w c
  | None => false
  end.

Definition idAt (q : list ISmtpConfig) (p : nat) : ObjectId :=
  match q !! p with
  | Some c => _id c
  | None => ""
  end.

(** The daily-count queries of a scan that started at index [start] and
    examines its [from]-th to [(from + cnt - 1)]-th position. *)
Definition examined (q : list ISmtpConfig) (start from cnt : nat) : list Event :=
  map (fun j => EvGetSmtpDailyCount (idAt q ((start + j) mod length q)))
    (seq from cnt).

(** The queue that [refreshSmtpQueue] builds from the stored configs. *)
Definition refreshedQueue (configs : list ISmtpConfig) : list ISmtpConfig :=
  match List.find isDefault configs with
  | Some d => d :: List.filter (fun c => negb (isDefault c)) configs
  | None => configs
  end.

(** The cursor is an index into the queue. *)
Definition validCursor (st : State) : Prop :=
  currentSmtpIndex st < length (smtpQueue st).

(** The outcome and the final state of a scan that finds a server after
    [k] exhausted ones. *)
Definition foundAfter (k : nat) (st : State) : State := {|
  transports := transports st;
  transportsCreated := transportsCreated st;
  currentSmtpIndex :=
    (currentSmtpIndex st + k) mod length (smtpQueue st);
  smtpQueue := smtpQueue st;
  world := world st;
  trace := trace st ++ examined (smtpQueue st) (currentSmtpIndex st) 0 (S k)
|}.

(** The final state of a scan that finds every server exhausted. *)
Definition allExamined (st : State) : State := {|
  transports := transports st;
  transportsCreated := transportsCreated st;
  currentSmtpIndex := currentSmtpIndex st;
  smtpQueue := smtpQueue st;
  world := world st;
  trace :=
    trace st ++
    examined (smtpQueue st) (currentSmtpIndex st) 0 (length (smtpQueue st))
|}.

(** The amounts of the [delay] calls of a trace, oldest first. *)
Definition delaysOf (tr : list Event) : list Z :=
  flat_map (fun ev => match ev with EvDelay ms => [ms] | _ => [] end) tr.

(** The transporter that [getTransport] answers for [c] in state [st]. *)
Definition transportFor (c : ISmtpConfig) (st : State) : Transporter :=
  match transports st !! _id c with
  | Some t => t
  | None => {| handleId := transportsCreated st; options := optionsOf c |}
  end.

(** The state in which a [logEmail] call rejects. *)
Definition loggingState (l : InsertLog) (st : State) : State :=
  emit (EvLogEmail l) (setWorld (countLogCall (world st)) st).

(** The state in which a [logEmail] call returns. *)
Definition loggedState (l : InsertLog) (st : State) : State :=
  setWorld
    (storeLog {| entry := l; sentAt := clock (world st) |}
       (countLogCall (world st)))
    (loggingState l st).

(** The state in which [delay(ms)] returns. *)
Definition delayedState (ms : Z) (st : State) : State :=
  emit (EvDelay ms) (setWorld (advance ms (world st)) st).

(** The state in which the [sendMail] call of a task ends, [st1] being the
    state in which server [c] was selected for it. *)
Definition sendingState (E : Env) (c : ISmtpConfig) (email : Email)
    (st1 : State) : State :=
  let st2 := snd (getTransport c st1) in
  emit (EvSendMail (transportFor c st1) (mailFor c email))
    (setWorld (inFlight E (world st2)) st2).

(** Nothing fails in [E] and nobody else sends. *)
Definition quiet (E : Env) : Prop :=
  forall k,
    sendMailOutcome E k = None /\
    sendMailMeanwhile E k = [] /\
    logEmailOutcome E k = None.

(** The [Sent] entries of tasks sent through server [s] one pacing delay
    apart, the first at time [t0]. *)
Fixpoint sentEntries (s : ISmtpConfig) (campaign : ObjectId)
    (emails : list Email) (t0 : Z) : list IEmailLog :=
  match emails with
  | [] => []
  | email :: rest =>
      {| entry := sentLog s campaign email; sentAt := t0 |}
      :: sentEntries s campaign rest (t0 + RATE_LIMIT_DELAY)
  end.

(** The cursor is an index into the queue, or the queue is empty. *)
Definition cursorOk (st : State) : Prop :=
  smtpQueue st = [] \/ validCursor st.

Definition cursorKept (st st' : State) : Prop := cursorOk st -> cursorOk st'.

(** What a scan leaves as it was. *)
Definition sameButCursor (st st' : State) : Prop :=
  world st' = world st /\
  transports st' = transports st /\
  transportsCreated st' = transportsCreated st /\
  smtpQueue st' = smtpQueue st /\
  delaysOf (trace st') = delaysOf (trace st).

(** Every handle cached in [st] is still cached, unchanged, in [st']. *)
Definition cacheKept (st st' : State) : Prop :=
  forall id t, transports st !! id = Some t -> transports st' !! id = Some t.

(** A method, whatever the state it starts from, relates that state to
    the one it ends in. *)
Definition keeps {A} (R : State -> State -> Prop) (m : M A) : Prop :=
  forall st, R st (snd (m st)).

(** Neither the time nor the list of waits changes from [st] to [st']. *)
Definition timeKept (st st' : State) : Prop :=
  clock (world st') = clock (world st) /\
  delaysOf (trace st') = delaysOf (trace st).

(** ** Scenarios *)

Definition server (id : ObjectId) (default : bool) (limit : Z) : ISmtpConfig := {|
  _id := id;
  name := id;
  host := "smtp.example.org";
  port := 465;
  username := "mailer";
  password := "secret";
  fromEmail := "news@example.org";
  fromName := "News";
  isDefault := default;
  dailyLimit := inject_Z limit
|}.

Definition sentBy (id : ObjectId) (subscriber : ObjectId) (t : Z) : IEmailLog := {|
  entry := {| smtpConfigId := id;
              campaignId := "earlier";
              logSubscriberId := subscriber;
              status := "sent";
              error := None |};
  sentAt := t
|}.

Definition worldOf (configs : list ISmtpConfig) (logs : list IEmailLog)
    (now : Z) : World := {|
  smtpConfigs := configs;
  emailLogs := logs;
  clock := now;
  zoneOffset := 0;
  sendMailCalls := 0;
  logEmailCalls := 0
|}.

Definition emailTo (subscriber : ObjectId) : Email := {|
  subscriberId := subscriber;
  to := subscriber ++ "@example.org";
  subject := "Hello";
  html := "<p>Hello</p>"
|}.

(** Ten in the morning of some day. *)
Definition morning : Z := 20000 * msPerDay + 36000000.

(** One second before the next midnight. *)
Definition lateEvening : Z := 20001 * msPerDay - 1000.

(** A queue [B; A] with the cursor on [A]; [A] has used its two sends of
    the day, [B] none of its five. *)
Definition rotatedState : State := {|
  transports := ∅;
  transportsCreated := 0;
  currentSmtpIndex := 1;
  smtpQueue := [server "B" false 5; server "A" true 2];
  world := worldOf [server "B" false 5; server "A" true 2]
             [sentBy "A" "s1" (morning - 5000); sentBy "A" "s2" (morning - 3000)]
             morning;
  trace := []
|}.

(** The same pool when [B], limited to one message a day, has sent it. *)
Definition exhaustedState : State := {|
  transports := ∅;
  transportsCreated := 0;
  currentSmtpIndex := 1;
  smtpQueue := [server "B" false 1; server "A" true 2];
  world := worldOf [server "B" false 1; server "A" true 2]
             [sentBy "A" "s1" (morning - 5000); sentBy "B" "s3" (morning - 4000);
              sentBy "A" "s2" (morning - 3000)]
             morning;
  trace := []
|}.

Definition mailboxUnavailable : Exn := ErrorObj "Mailbox unavailable".

Definition connectionClosed : Exn := ErrorObj "connection closed".

Definition onFirstCall {A} (a : A) (k : nat) : option A :=
  match k with
  | O => Some a
  | S _ => None
  end.

(** The first [sendMail] rejects, and so does the first [logEmail]. *)
Definition failedWriteEnv : Env := {|
  sendMailOutcome := onFirstCall mailboxUnavailable;
  sendMailMeanwhile := fun _ => [];
  logEmailOutcome := onFirstCall connectionClosed
|}.

(** The first [sendMail] rejects; while it was in flight another sender
    logged a message sent through server [A]. *)
Definition quotaRaceEnv : Env := {|
  sendMailOutcome := onFirstCall mailboxUnavailable;
  sendMailMeanwhile :=
    fun k => match k with O => [sentBy "A" "x" morning] | S _ => [] end;
  logEmailOutcome := fun _ => None
|}.

(** Every message is delivered; the first [logEmail] rejects. *)
Definition sentWriteFailsEnv : Env := {|
  sendMailOutcome := fun _ => None;
  sendMailMeanwhile := fun _ => [];
  logEmailOutcome := onFirstCall connectionClosed
|}.

(** Every message is delivered; every [logEmail] rejects. *)
Definition storageDownEnv : Env := {|
  sendMailOutcome := fun _ => None;
  sendMailMeanwhile := fun _ => [];
  logEmailOutcome := fun _ => Some connectionClosed
|}.

(** A fresh service whose pool is the single server [A]. *)
Definition oneServer (limit : Z) (now : Z) : State :=
  newEmailService (worldOf [server "A" true limit] [] now).

(** Server [A] with any number as its daily limit. *)
Definition limitedTo (limit : Q) : ISmtpConfig := {|
  _id := "A";
  name := "A";
  host := "smtp.example.org";
  port := 465;
  username := "mailer";
  password := "secret";
  fromEmail := "news@example.org";
  fromName := "News";
  isDefault := true;
  dailyLimit := limit
|}.

(** The offset of Asia/Kolkata from UTC, five and a half hours. *)
Definition kolkata : Z := 19800000.

(** The world [w] for a process that runs in the zone of [offset]. *)
Definition inZone (offset : Z) (w : World) : World := {|
  smtpConfigs := smtpConfigs w;
  emailLogs := emailLogs w;
  clock := clock w;
  zoneOffset := offset;
  sendMailCalls := sendMailCalls w;
  logEmailCalls := logEmailCalls w
|}.

(** A fresh service whose pool is [A] (default, one message a day) and [B]. *)
Definition twoServers : State :=
  newEmailService (worldOf [server "A" true 1; server "B" false 5] [] morning).

(** The state of a service after the [refreshSmtpQueue] that opens
    [sendBulkEmails]. *)
Definition refreshed (st : State) : State := snd (refreshSmtpQueue st).

(** ** server/storage.ts, the other operations on the two collections

    They are called from the routes, not from the dispatcher, and are
    embedded as functions of the [World]; like the reads above they are
    taken to succeed. *)

(** The argument of [createSmtpConfig], [insertSmtpConfigSchema._type]: a
    config without the [_id] that the database gives it. *)
Module Insert.
Record t := {
  name : string;
  host : string;
  port : Z;
  username : string;
  password : string;
  fromEmail : string;
  fromName : string;
  isDefault : bool;
  dailyLimit : Q
}.
End Insert.

(** The argument of [updateSmtpConfig], [Partial<...>]: every field may be
    absent. *)
Module Partial.
Record t := {
  name : option string;
  host : option string;
  port : option Z;
  username : option string;
  password : option string;
  fromEmail : option string;
  fromName : option string;
  isDefault : option bool;
  dailyLimit : option Q
}.
End Partial.

Definition setConfigs (configs : list ISmtpConfig) (w : World) : World := {|
  smtpConfigs := configs;
  emailLogs := emailLogs w;
  clock := clock w;
  zoneOffset := zoneOffset w;
  sendMailCalls := sendMailCalls w;
  logEmailCalls := logEmailCalls w
|}.

(** [{ $set: { isDefault: false } }] on one document. *)
Definition unsetDefault (c : ISmtpConfig) : ISmtpConfig := {|
  _id := _id c;
  name := name c;
  host := host c;
  port := port c;
  username := username c;
  password := password c;
  fromEmail := fromEmail c;
  fromName := fromName c;
  isDefault := false;
  dailyLimit := dailyLimit c
|}.

(** [SmtpConfig.updateMany(filter, { $set: { isDefault: false } })] *)
Definition updateMany (filter : ISmtpConfig -> bool) (configs : list ISmtpConfig)
    : list ISmtpConfig :=
  map (fun c => if filter c then unsetDefault c else c) configs.

(** The document that [SmtpConfig.create(insertConfig)] stores under the
    identifier [id]. *)
Definition document (id : ObjectId) (insertConfig : Insert.t) : ISmtpConfig := {|
  _id := id;
  name := Insert.name insertConfig;
  host := Insert.host insertConfig;
  port := Insert.port insertConfig;
  username := Insert.username insertConfig;
  password := Insert.password insertConfig;
  fromEmail := Insert.fromEmail insertConfig;
  fromName := Insert.fromName insertConfig;
  isDefault := Insert.isDefault insertConfig;
  dailyLimit := Insert.dailyLimit insertConfig
|}.

(** [storage.createSmtpConfig]; [fresh] is the identifier that the database
    chooses for the new document, which is stored after the others. *)
Definition createSmtpConfig (fresh : ObjectId) (insertConfig : Insert.t)
    (w : World) : ISmtpConfig * World :=
  let w1 :=
    if Insert.isDefault insertConfig
    then setConfigs (updateMany isDefault (smtpConfigs w)) w
    else w in
  let config := document fresh insertConfig in
  (config, setConfigs (smtpConfigs w1 ++ [config]) w1).

Definition findById (id : ObjectId) (configs : list ISmtpConfig)
    : option ISmtpConfig :=
  List.find (fun c => String.eqb (_id c) id) configs.

(** [storage.getSmtpConfig]: [undefined] is [None]. *)
Definition getSmtpConfig (id : ObjectId) (w : World) : option ISmtpConfig :=
  findById id (smtpConfigs w).

(** [storage.getDefaultSmtpConfig]: [SmtpConfig.findOne({ isDefault: true })]. *)
Definition getDefaultSmtpConfig (w : World) : option ISmtpConfig :=
  List.find isDefault (smtpConfigs w).

(** The fields of [update] that are present replace those of [c]. *)
Definition applyUpdate (update : Partial.t) (c : ISmtpConfig) : ISmtpConfig := {|
  _id := _id c;
  name := default (name c) (Partial.name update);
  host := default (host c) (Partial.host update);
  port := default (port c) (Partial.port update);
  username := default (username c) (Partial.username update);
  password := default (password c) (Partial.password update);
  fromEmail := default (fromEmail c) (Partial.fromEmail update);
  fromName := default (fromName c) (Partial.fromName update);
  isDefault := default (isDefault c) (Partial.isDefault update);
  dailyLimit := default (dailyLimit c) (Partial.dailyLimit update)
|}.

(** [SmtpConfig.findByIdAndUpdate(id, update, { new: true })]: the updated
    document, or [None] for [null], and the collection afterwards. *)
Fixpoint findByIdAndUpdate (id : ObjectId) (update : Partial.t)
    (configs : list ISmtpConfig) : option ISmtpConfig * list ISmtpConfig :=
  match configs with
  | [] => (None, [])
  | c :: rest =>
      if String.eqb (_id c) id
      then (Some (applyUpdate update c), applyUpdate update c :: rest)
      else let (config, rest') := findByIdAndUpdate id update rest in
           (config, c :: rest')
  end.

(** The test [if (update.isDefault)]: present and true. *)
Definition truthy (b : option bool) : bool := default false b.

Definition ConfigNotFound : Exn := ErrorObj "SMTP config not found".

(** [storage.updateSmtpConfig] *)
Definition updateSmtpConfig (id : ObjectId) (update : Partial.t) (w : World)
    : Outcome ISmtpConfig * World :=
  let w1 :=
    if truthy (Partial.isDefault update)
    then setConfigs
           (updateMany (fun c => negb (String.eqb (_id c) id) && isDefault c)
                       (smtpConfigs w)) w
    else w in
  let (config, configs) := findByIdAndUpdate id update (smtpConfigs w1) in
  let w2 := setConfigs configs w1 in
  match config with
  | None => (Throws ConfigNotFound, w2)
  | Some c => (Returns c, w2)
  end.

(** [SmtpConfig.findByIdAndDelete(id)] *)
Fixpoint findByIdAndDelete (id : ObjectId) (configs : list ISmtpConfig)
    : list ISmtpConfig :=
  match configs with
  | [] => []
  | c :: rest =>
      if String.eqb (_id c) id then rest else c :: findByIdAndDelete id rest
  end.

(** [storage.deleteSmtpConfig] *)
Definition deleteSmtpConfig (id : ObjectId) (w : World) : World :=
  setConfigs (findByIdAndDelete id (smtpConfigs w)) w.

(** [storage.getEmailLogsByCampaign]: [EmailLog.find({ campaignId })]. *)
Definition getEmailLogsByCampaign (campaign : ObjectId) (w : World) : list IEmailLog :=
  List.filter (fun l => String.eqb (campaignId (entry l)) campaign) (emailLogs w).

(** A third server, to be stored as the default. *)
Definition thirdServer : Insert.t := {|
  Insert.name := "C";
  Insert.host := "smtp.example.net";
  Insert.port := 587;
  Insert.username := "mailer";
  Insert.password := "secret";
  Insert.fromEmail := "news@example.net";
  Insert.fromName := "News";
  Insert.isDefault := true;
  Insert.dailyLimit := inject_Z 500
|}.

(** An update that only sets the default flag. *)
Definition makeDefault : Partial.t := {|
  Partial.name := None;
  Partial.host := None;
  Partial.port := None;
  Partial.username := None;
  Partial.password := None;
  Partial.fromEmail := None;
  Partial.fromName := None;
  Partial.isDefault := Some true;
  Partial.dailyLimit := None
|}.

(** ** The route [POST /api/newsletters/:id/send]

    The repository holds the handler twice, in src/unnamed/part_004 and in
    src/server/routes.ts.  The two copies differ in the status under which
    they create the campaign, "processing" and "sending", and in what they
    do when the batch settles: the first only logs a rejection, the second
    records the end of the batch in the campaign.  The handler answers
    when the batch has been started, and the batch runs on; the embedding
    gives the answer, the campaign as it is stored when the batch has
    settled, and the state of the service at that point.  An error whose
    text [String(error)] goes into an answer or into the campaign is kept
    as that error. *)

Module Subscriber.
Record t := {
  _id : ObjectId;
  email : string;
  name : option string;
  subscribed : bool;
  createdAt : Z
}.
End Subscriber.

Module Newsletter.
Record t := {
  _id : ObjectId;
  subject : string;
  content : string;
  userId : ObjectId;
  createdAt : Z
}.
End Newsletter.

Module Campaign.
Record t := {
  _id : ObjectId;
  newsletterId : ObjectId;
  sentAt : Z;
  status : string;
  opens : Z;
  clicks : Z;
  emailsSent : nat;
  totalEmails : nat;
  error : option Exn
}.
End Campaign.

(** What the handler answers. *)
Inductive Response :=
| Unauthorized
| NotFound (error : string)
| ServerError (error : Exn)
| Started (message : string) (campaign : ObjectId) (totalEmails : nat)
    (status : string).

(** The [enum] of [status] in [campaignSchema] (server/schemas.ts). *)
Definition campaignStatuses : list string := ["processing"; "completed"; "failed"].

(** The validation error of mongoose for a status outside the [enum]. *)
Definition InvalidStatus (status : string) : Exn :=
  ErrorObj ("Campaign validation failed: status: `" ++ status
            ++ "` is not a valid enum value for path `status`.").

(** [Campaign.create(doc)]: the document is validated against the schema
    before it is stored. *)
Definition createCampaign (doc : Campaign.t) : Exn + Campaign.t :=
  if existsb (String.eqb (Campaign.status doc)) campaignStatuses
  then inr doc
  else inl (InvalidStatus (Campaign.status doc)).

(** [Subscriber.find({ subscribed: true })] *)
Definition activeSubscribers (subscribers : list Subscriber.t) : list Subscriber.t :=
  List.filter Subscriber.subscribed subscribers.

(** [subscribers.map((subscriber) => ({ subscriberId, to, subject, html }))] *)
Definition emailBatch (newsletter : Newsletter.t) (subscribers : list Subscriber.t)
    : list Email :=
  map (fun subscriber =>
         {| subscriberId := Subscriber._id subscriber;
            to := Subscriber.email subscriber;
            subject := Newsletter.subject newsletter;
            html := Newsletter.content newsletter |})
      subscribers.

(** The handler up to the call of [sendBulkEmails], which both copies
    share but for the first status of the campaign: either the answer that
    ends the request, or the campaign created and the batch to send.
    [fresh] is the identifier that the database gives the campaign and
    [now] the time of its creation. *)
Definition startCampaign (initialStatus : string) (authenticated : bool)
    (newsletterId : ObjectId) (newsletters : list Newsletter.t)
    (subscribers : list Subscriber.t) (fresh : ObjectId) (now : Z)
    : Response + Campaign.t * list Email :=
  if negb authenticated then inl Unauthorized
  else
    match List.find (fun n => String.eqb (Newsletter._id n) newsletterId)
                    newsletters with
    | None => inl (NotFound "Newsletter not found")
    | Some newsletter =>
        let subscribers := activeSubscribers subscribers in
        match createCampaign
                {| Campaign._id := fresh;
                   Campaign.newsletterId := newsletterId;
                   Campaign.sentAt := now;
                   Campaign.status := initialStatus;
                   Campaign.opens := 0;
                   Campaign.clicks := 0;
                   Campaign.emailsSent := 0;
                   Campaign.totalEmails := length subscribers;
                   Campaign.error := None |} with
        | inl e => inl (ServerError e)
        | inr campaign => inr (campaign, emailBatch newsletter subscribers)
        end
    end.

(** The handler of src/unnamed/part_004: a rejected batch is logged. *)
Definition postSend (E : Env) (authenticated : bool) (newsletterId : ObjectId)
    (newsletters : list Newsletter.t) (subscribers : list Subscriber.t)
    (fresh : ObjectId) : M (Response * option Campaign.t) :=
  fun st =>
    match startCampaign "processing" authenticated newsletterId newsletters
            subscribers fresh (clock (world st)) with
    | inl response => (Returns (response, None), st)
    | inr (campaign, batch) =>
        let run := sendBulkEmails E (Campaign._id campaign) batch st in
        (Returns
           (Started "Campaign started successfully" (Campaign._id campaign)
              (Campaign.totalEmails campaign) "processing",
            Some campaign),
         snd run)
    end.

(** The [then] and [catch] handlers of src/server/routes.ts:
    [Campaign.findByIdAndUpdate] with the end of the batch.  [sent] is
    [subscribers.length]. *)
Definition settle (outcome : Outcome unit) (sent : nat) (campaign : Campaign.t)
    : Campaign.t :=
  match outcome with
  | Returns _ =>
      {| Campaign._id := Campaign._id campaign;
         Campaign.newsletterId := Campaign.newsletterId campaign;
         Campaign.sentAt := Campaign.sentAt campaign;
         Campaign.status := "completed";
         Campaign.opens := Campaign.opens campaign;
         Campaign.clicks := Campaign.clicks campaign;
         Campaign.emailsSent := sent;
         Campaign.totalEmails := Campaign.totalEmails campaign;
         Campaign.error := Campaign.error campaign |}
  | Throws e =>
      {| Campaign._id := Campaign._id campaign;
         Campaign.newsletterId := Campaign.newsletterId campaign;
         Campaign.sentAt := Campaign.sentAt campaign;
         Campaign.status := "failed";
         Campaign.opens := Campaign.opens campaign;
         Campaign.clicks := Campaign.clicks campaign;
         Campaign.emailsSent := Campaign.emailsSent campaign;
         Campaign.totalEmails := Campaign.totalEmails campaign;
         Campaign.error := Some e |}
  | OutOfFuel => campaign
  end.

(** The handler of src/server/routes.ts. *)
Definition postSendTracked (E : Env) (authenticated : bool) (newsletterId : ObjectId)
    (newsletters : list Newsletter.t) (subscribers : list Subscriber.t)
    (fresh : ObjectId) : M (Response * option Campaign.t) :=
  fun st =>
    match startCampaign "sending" authenticated newsletterId newsletters
            subscribers fresh (clock (world st)) with
    | inl response => (Returns (response, None), st)
    | inr (campaign, batch) =>
        let run := sendBulkEmails E (Campaign._id campaign) batch st in
        (Returns
           (Started "Campaign started successfully" (Campaign._id campaign)
              (Campaign.totalEmails campaign) "sending",
            Some (settle (fst run) (Campaign.totalEmails campaign) campaign)),
         snd run)
    end.

(** Three subscribers, the second of which has unsubscribed. *)
Definition reader (id : ObjectId) (active : bool) : Subscriber.t := {|
  Subscriber._id := id;
  Subscriber.email := id ++ "@example.org";
  Subscriber.name := None;
  Subscriber.subscribed := active;
  Subscriber.createdAt := 0
|}.

Definition readers : list Subscriber.t :=
  [reader "s1" true; reader "s2" false; reader "s3" true].

Definition issue : Newsletter.t := {|
  Newsletter._id := "n1";
  Newsletter.subject := "Hello";
  Newsletter.content := "<p>Hello</p>";
  Newsletter.userId := "u1";
  Newsletter.createdAt := 0
|}.

(** ** Vocabulary of the wider properties *)

(** The arguments of the [sendMail] calls of a trace, oldest first. *)
Definition sendsOf (tr : list Event) : list MailOptions :=
  flat_map (fun ev => match ev with EvSendMail _ m => [m] | _ => [] end) tr.

Definition optList {A} (o : option A) : list A :=
  match o with
  | Some a => [a]
  | None => []
  end.

(** What one iteration of the dispatch loop did to the collaborators: the
    [sendMail] call it made, if any, the number of its [logEmail] calls,
    the entry it stored, if any, and the wait it made, if any. *)
Record Effect := {
  mailed : option MailOptions;
  logCalls : nat;
  written : option InsertLog;
  waited : option Z
}.

(** The world after an iteration with effect [eff] that started in [w]. *)
Definition applyEffect (E : Env) (eff : Effect) (w : World) : World := {|
  smtpConfigs := smtpConfigs w;
  emailLogs :=
    emailLogs w
    ++ match mailed eff with
       | Some _ => sendMailMeanwhile E (sendMailCalls w)
       | None => []
       end
    ++ map (fun l => {| entry := l; sentAt := clock w |}) (optList (written eff));
  clock := (clock w + match waited eff with Some ms => ms | None => 0 end)%Z;
  zoneOffset := zoneOffset w;
  sendMailCalls := sendMailCalls w + length (optList (mailed eff));
  logEmailCalls := logEmailCalls w + logCalls eff
|}.

(** What a task asks to be sent, and what a [sendMail] call carries of it. *)
Definition envelope (email : Email) : string * string * string :=
  (to email, subject email, html email).

Definition content (m : MailOptions) : string * string * string :=
  (mailTo m, mailSubject m, mailHtml m).

Definition sumZ (l : list Z) : Z := fold_right Z.add 0%Z l.

(** The two amounts that the dispatch loop waits. *)
Definition pacingDelay (d : Z) : Prop :=
  d = RATE_LIMIT_DELAY \/ d = (RATE_LIMIT_DELAY * 2)%Z.

(** Every server of the queue is a stored config. *)
Definition queueFromPool (st : State) : Prop :=
  forall c, In c (smtpQueue st) -> In c (smtpConfigs (world st)).

(** The stored configs are the same in [st'], and the queue still comes
    from them. *)
Definition poolKept (st st' : State) : Prop :=
  smtpConfigs (world st') = smtpConfigs (world st) /\
  (queueFromPool st -> queueFromPool st').

(** How much an entry adds to the count of the day of server [id]. *)
Definition bump (id : ObjectId) (wr : option InsertLog) : Z :=
  match wr with
  | Some l =>
      if String.eqb (smtpConfigId l) id && String.eqb (status l) "sent"
      then 1%Z else 0%Z
  | None => 0%Z
  end.

(** An entry that the dispatcher writes for a task of [campaign]: "sent"
    without an error text, or "failed" with one. *)
Definition taskEntry (campaign : ObjectId) (l : IEmailLog) : Prop :=
  campaignId (entry l) = campaign /\
  ((status (entry l) = "sent" /\ error (entry l) = None) \/
   (status (entry l) = "failed" /\ error (entry l) <> None)).

(** The two properties of the stored configs that the dispatcher relies
    on: identifiers are unique, and at most one config is the default. *)
Definition atMostOneDefault (configs : list ISmtpConfig) : Prop :=
  length (List.filter isDefault configs) <= 1.

Definition wellFormedPool (w : World) : Prop :=
  NoDup (map _id (smtpConfigs w)) /\ atMostOneDefault (smtpConfigs w).

(** The options of the [createTransport] calls of a trace. *)
Definition createsOf (tr : list Event) : list TransportOptions :=
  flat_map (fun ev => match ev with EvCreateTransport o => [o] | _ => [] end) tr.

(** From [st] to [st'] a transport was created for each server of [news],
    in that order, and for nothing else: these servers have distinct
    identifiers, none was cached in [st], each is cached in [st'] with its
    options, and the cache holds nothing else that is new. *)
Definition cacheGrownBy (news : list ISmtpConfig) (st st' : State) : Prop :=
  createsOf (trace st') = (createsOf (trace st) ++ map optionsOf news)%list /\
  NoDup (map _id news) /\
  (forall c, In c news ->
     transports st !! _id c = None /\
     exists t, transports st' !! _id c = Some t /\ options t = optionsOf c) /\
  cacheKept st st' /\
  (forall id, is_Some (transports st' !! id) ->
     is_Some (transports st !! id) \/ In id (map _id news)).

Definition cacheGrowth (st st' : State) : Prop :=
  exists news, cacheGrownBy news st st'.

(** What the last call to a collaborator before a rejection with [e] can
    be: a read of the storage, or the write of a "failed" entry that was
    rejected with [e]. *)
Definition rejectingCall (E : Env) (e : Exn) (ev : Event) : Prop :=
  match ev with
  | EvGetSmtpConfigs | EvGetSmtpDailyCount _ => True
  | EvLogEmail l => status l = "failed" /\ exists k, logEmailOutcome E k = Some e
  | EvCreateTransport _ | EvSendMail _ _ | EvDelay _ => False
  end.

(** * Properties *)

Open Scope list_scope.

(** ** Arithmetic of the wrapping cursor *)

Lemma wrap_succ (a n : nat) : (a mod n + 1) mod n = (a + 1) mod n.
Proof. apply Nat.Div0.add_mod_idemp_l. Qed.

Lemma wrap_full (start n : nat) : start < n -> (start + n) mod n = start.
Proof.
  intros H. symmetry. apply (Nat.mod_unique (start + n) n 1 start); lia.
Qed.

Lemma wrap_partial (start j n : nat) :
  start < n -> 0 < j < n -> (start + j) mod n <> start.
Proof.
  intros Hs Hj.
  destruct (le_lt_dec n (start + j)) as [Hge | Hlt].
  - rewrite <- (Nat.mod_unique (start + j) n 1 (start + j - n)); lia.
  - rewrite Nat.mod_small; lia.
Qed.

Lemma wrap_reach (i p n : nat) :
  i < n -> p < n -> (i + (p + n - i) mod n) mod n = p.
Proof.
  intros Hi Hp.
  destruct (le_lt_dec i p) as [Hle | Hlt].
  - rewrite <- (Nat.mod_unique (p + n - i) n 1 (p - i)) by lia.
    rewrite Nat.mod_small; lia.
  - rewrite (Nat.mod_small (p + n - i)) by lia.
    symmetry. apply (Nat.mod_unique _ n 1 p); lia.
Qed.

Lemma bounded_search (P : nat -> bool) (n : nat) :
  (exists k, k < n /\ P k = true) \/ (forall k, k < n -> P k = false).
Proof.
  induction n as [| n [(k & Hk & HP) | Hnone]].
  - right. intros k Hk. lia.
  - left. exists k. split; [lia | exact HP].
  - destruct (P n) eqn:HPn.
    + left. exists n. split; [lia | exact HPn].
    + right. intros k Hk.
      destruct (Nat.eq_dec k n) as [-> | Hne]; [exact HPn | apply Hnone; lia].
Qed.

(** The least index below [n] at which a decidable property holds. *)
Lemma least_index (P : nat -> bool) (n : nat) :
  (exists k, k < n /\ P k = true) ->
  exists k, k < n /\ P k = true /\ forall j, j < k -> P j = false.
Proof.
  induction n as [| n IH]; intros (k & Hk & HP); [lia |].
  destruct (bounded_search P n) as [Hsome | Hnone].
  - destruct (IH Hsome) as (k' & Hk' & HP' & Hleast).
    exists k'. repeat split; [lia | exact HP' | exact Hleast].
  - assert (k = n) as ->.
    { destruct (Nat.eq_dec k n) as [-> | Hne]; [reflexivity |].
      rewrite Hnone in HP by lia. discriminate. }
    exists n. repeat split; [lia | exact HP | exact Hnone].
Qed.

(** ** The rotator *)

Lemma pushNonDefaults_spec (configs : list ISmtpConfig) (st : State) :
  pushNonDefaults configs st =
  setQueue (smtpQueue st ++ List.filter (fun c => negb (isDefault c)) configs) st.
Proof.
  revert st. induction configs as [| c configs IH]; intros st; simpl.
  - unfold setQueue. rewrite app_nil_r. destruct st; reflexivity.
  - destruct (isDefault c); simpl.
    + apply IH.
    + rewrite IH. unfold push, setQueue; simpl.
      rewrite <- app_assoc. reflexivity.
Qed.

Lemma refreshSmtpQueue_spec (st : State) :
  refreshSmtpQueue st =
  (Returns tt,
   {| transports := transports st;
      transportsCreated := transportsCreated st;
      currentSmtpIndex := 0;
      smtpQueue := refreshedQueue (smtpConfigs (world st));
      world := world st;
      trace := trace st ++ [EvGetSmtpConfigs] |}).
Proof.
  unfold refreshSmtpQueue, bind, getSmtpConfigs, refreshedQueue; simpl.
  destruct (List.find isDefault (smtpConfigs (world st))) as [d |]; [| reflexivity].
  rewrite pushNonDefaults_spec. reflexivity.
Qed.

(** One iteration of the loop on a server under quota. *)
Lemma scanLoop_hit (fuel start : nat) (st : State) (c : ISmtpConfig) :
  smtpQueue st !! currentSmtpIndex st = Some c ->
  underQuota (world st) c = true ->
  scanLoop (S fuel) start st = (Returns c, emit (EvGetSmtpDailyCount (_id c)) st).
Proof.
  intros Hc Hq. simpl. rewrite Hc.
  unfold bind, getSmtpDailyCount, ret. unfold underQuota in Hq. rewrite Hq.
  reflexivity.
Qed.

(** One iteration of the loop on an exhausted server. *)
Lemma scanLoop_skip (fuel start : nat) (st : State) (c : ISmtpConfig) :
  smtpQueue st !! currentSmtpIndex st = Some c ->
  underQuota (world st) c = false ->
  scanLoop (S fuel) start st =
  let next := (currentSmtpIndex st + 1) mod length (smtpQueue st) in
  let st' := setIndex next (emit (EvGetSmtpDailyCount (_id c)) st) in
  if Nat.eqb next start then (Throws AllQuotasExhausted, st')
  else scanLoop fuel start st'.
Proof.
  intros Hc Hq. simpl. rewrite Hc.
  unfold bind, getSmtpDailyCount. unfold underQuota in Hq. rewrite Hq.
  reflexivity.
Qed.

Lemma examined_cons (q : list ISmtpConfig) (start m k : nat) (c : ISmtpConfig) :
  q !! ((start + m) mod length q) = Some c ->
  examined q start m (S k) =
  EvGetSmtpDailyCount (_id c) :: examined q start (S m) k.
Proof.
  intros Hc. unfold examined. cbn [seq map]. unfold idAt at 1.
  rewrite Hc. reflexivity.
Qed.

Lemma examined_one (q : list ISmtpConfig) (start m : nat) (c : ISmtpConfig) :
  q !! ((start + m) mod length q) = Some c ->
  examined q start m 1 = [EvGetSmtpDailyCount (_id c)].
Proof. intros Hc. rewrite (examined_cons q start m 0 c Hc). reflexivity. Qed.

Ltac state_projections :=
  cbn [smtpQueue currentSmtpIndex world trace transports
       setIndex setQueue setWorld setTransports emit].

(** The scan from the [m]-th position after [start]: [k] exhausted
    servers, then one under quota. *)
Lemma scanLoop_finds (start : nat) (c : ISmtpConfig) :
  forall (k m fuel : nat) (st : State),
    start < length (smtpQueue st) ->
    currentSmtpIndex st = (start + m) mod length (smtpQueue st) ->
    m + k < length (smtpQueue st) ->
    k < fuel ->
    (forall j, m <= j < m + k ->
       underQuotaAt (world st) (smtpQueue st)
         ((start + j) mod length (smtpQueue st)) = false) ->
    smtpQueue st !! ((start + (m + k)) mod length (smtpQueue st)) = Some c ->
    underQuota (world st) c = true ->
    scanLoop fuel start st =
    (Returns c,
     {| transports := transports st;
        transportsCreated := transportsCreated st;
        currentSmtpIndex := (start + (m + k)) mod length (smtpQueue st);
        smtpQueue := smtpQueue st;
        world := world st;
        trace := trace st ++ examined (smtpQueue st) start m (S k) |}).
Proof.
  induction k as [| k IH]; intros m fuel st Hstart Hcur Hlt Hfuel Hex Hc Hq.
  - destruct fuel as [| fuel]; [lia |].
    rewrite Nat.add_0_r in *.
    rewrite (scanLoop_hit fuel start st c); [| rewrite Hcur; exact Hc | exact Hq].
    rewrite (examined_one _ _ _ c Hc). unfold emit. rewrite Hcur. reflexivity.
  - destruct fuel as [| fuel]; [lia |].
    assert (Hpos : (start + m) mod length (smtpQueue st) < length (smtpQueue st))
      by (apply Nat.mod_upper_bound; lia).
    destruct (lookup_lt_is_Some_2 _ _ Hpos) as [c0 Hc0].
    assert (Hq0 : underQuota (world st) c0 = false).
    { specialize (Hex m ltac:(lia)). unfold underQuotaAt in Hex.
      rewrite Hc0 in Hex. exact Hex. }
    rewrite (scanLoop_skip fuel start st c0); [| rewrite Hcur; exact Hc0 | exact Hq0].
    cbv zeta. rewrite Hcur, wrap_succ.
    replace (start + m + 1) with (start + S m) by lia.
    destruct (Nat.eqb_spec ((start + S m) mod length (smtpQueue st)) start) as [Heq | _].
    { exfalso. apply (wrap_partial start (S m) _ Hstart); [lia | exact Heq]. }
    replace (m + S k) with (S m + k) in * by lia.
    rewrite (IH (S m) fuel); state_projections.
    + rewrite (examined_cons _ _ m (S k) c0 Hc0), <- app_assoc. reflexivity.
    + exact Hstart.
    + reflexivity.
    + lia.
    + lia.
    + intros j Hj. apply Hex. lia.
    + exact Hc.
    + exact Hq.
Qed.

(** The scan from the [m]-th position after [start] when every remaining
    server is exhausted: it stops when the cursor is back on [start]. *)
Lemma scanLoop_exhausted (start : nat) :
  forall (r m fuel : nat) (st : State),
    start < length (smtpQueue st) ->
    currentSmtpIndex st = (start + m) mod length (smtpQueue st) ->
    m + S r = length (smtpQueue st) ->
    r < fuel ->
    (forall j, m <= j < length (smtpQueue st) ->
       underQuotaAt (world st) (smtpQueue st)
         ((start + j) mod length (smtpQueue st)) = false) ->
    scanLoop fuel start st =
    (Throws AllQuotasExhausted,
     {| transports := transports st;
        transportsCreated := transportsCreated st;
        currentSmtpIndex := start;
        smtpQueue := smtpQueue st;
        world := world st;
        trace := trace st ++ examined (smtpQueue st) start m (S r) |}).
Proof.
  induction r as [| r IH]; intros m fuel st Hstart Hcur Hn Hfuel Hex;
    (destruct fuel as [| fuel]; [lia |]);
    assert (Hpos : (start + m) mod length (smtpQueue st) < length (smtpQueue st))
      by (apply Nat.mod_upper_bound; lia);
    destruct (lookup_lt_is_Some_2 _ _ Hpos) as [c0 Hc0];
    assert (Hq0 : underQuota (world st) c0 = false)
      by (specialize (Hex m ltac:(lia)); unfold underQuotaAt in Hex;
          rewrite Hc0 in Hex; exact Hex);
    (rewrite (scanLoop_skip fuel start st c0); [| rewrite Hcur; exact Hc0 | exact Hq0]);
    cbv zeta; rewrite Hcur, wrap_succ.
  - replace (start + m + 1) with (start + length (smtpQueue st)) by lia.
    rewrite (wrap_full start _ Hstart), Nat.eqb_refl.
    rewrite (examined_one _ _ _ c0 Hc0). reflexivity.
  - replace (start + m + 1) with (start + S m) by lia.
    destruct (Nat.eqb_spec ((start + S m) mod length (smtpQueue st)) start) as [Heq | _].
    { exfalso. apply (wrap_partial start (S m) _ Hstart); [lia | exact Heq]. }
    rewrite (IH (S m) fuel); state_projections.
    + rewrite (examined_cons _ _ m (S r) c0 Hc0), <- app_assoc. reflexivity.
    + exact Hstart.
    + reflexivity.
    + lia.
    + lia.
    + intros j Hj. apply Hex. lia.
Qed.

Lemma getNextAvailableSmtp_nonempty (st : State) :
  0 < length (smtpQueue st) ->
  getNextAvailableSmtp st =
  scanLoop (length (smtpQueue st)) (currentSmtpIndex st) st.
Proof.
  intros Hn. unfold getNextAvailableSmtp, bind.
  destruct (Nat.eqb_spec (length (smtpQueue st)) 0) as [H0 | _]; [lia |].
  destruct (Nat.eqb_spec (length (smtpQueue st)) 0) as [H0 | _]; [lia |].
  reflexivity.
Qed.

(** From a valid cursor the loop has exactly two behaviours, and neither
    depends on the fuel once it covers the queue. *)
Lemma scanLoop_total (st : State) :
  validCursor st ->
  (exists k c,
      k < length (smtpQueue st) /\
      smtpQueue st !! ((currentSmtpIndex st + k) mod length (smtpQueue st)) = Some c /\
      underQuota (world st) c = true /\
      (forall j, j < k ->
         underQuotaAt (world st) (smtpQueue st)
           ((currentSmtpIndex st + j) mod length (smtpQueue st)) = false) /\
      forall fuel, k < fuel ->
        scanLoop fuel (currentSmtpIndex st) st = (Returns c, foundAfter k st))
  \/
  ((forall j, j < length (smtpQueue st) ->
      underQuotaAt (world st) (smtpQueue st)
        ((currentSmtpIndex st + j) mod length (smtpQueue st)) = false) /\
   forall fuel, length (smtpQueue st) <= fuel ->
     scanLoop fuel (currentSmtpIndex st) st =
     (Throws AllQuotasExhausted, allExamined st)).
Proof.
  intros Hvalid. unfold validCursor in Hvalid.
  set (P := fun j =>
    underQuotaAt (world st) (smtpQueue st)
      ((currentSmtpIndex st + j) mod length (smtpQueue st))).
  destruct (bounded_search P (length (smtpQueue st))) as [Hsome | Hnone].
  - left. destruct (least_index P _ Hsome) as (k & Hk & HPk & Hleast).
    unfold P in HPk. unfold underQuotaAt in HPk.
    destruct (smtpQueue st !! ((currentSmtpIndex st + k) mod length (smtpQueue st)))
      as [c |] eqn:Hc; [| discriminate].
    exists k, c. repeat split; try assumption.
    intros fuel Hfuel.
    rewrite (scanLoop_finds (currentSmtpIndex st) c k 0 fuel st); try assumption.
    + reflexivity.
    + rewrite Nat.add_0_r, Nat.mod_small; [reflexivity | exact Hvalid].
    + intros j Hj. apply Hleast. lia.
  - right. split; [exact Hnone |].
    intros fuel Hfuel.
    assert (Hlen : length (smtpQueue st) = S (pred (length (smtpQueue st)))) by lia.
    rewrite (scanLoop_exhausted (currentSmtpIndex st)
               (pred (length (smtpQueue st))) 0 fuel st); try lia.
    + unfold allExamined. rewrite <- Hlen. reflexivity.
    + rewrite Nat.add_0_r, Nat.mod_small; [reflexivity | lia].
    + intros j Hj. apply Hnone. lia.
Qed.

(** The loop never runs out of fuel when given one unit per server, and
    more fuel changes nothing: the [do ... while (true)] terminates. *)
Lemma scanLoop_fuel_irrelevant (st : State) (fuel : nat) :
  0 < length (smtpQueue st) ->
  length (smtpQueue st) <= fuel ->
  scanLoop fuel (currentSmtpIndex st) st =
  scanLoop (length (smtpQueue st)) (currentSmtpIndex st) st /\
  fst (scanLoop fuel (currentSmtpIndex st) st) <> OutOfFuel.
Proof.
  intros Hn Hfuel.
  destruct (le_lt_dec (length (smtpQueue st)) (currentSmtpIndex st)) as [Hout | Hin].
  - destruct fuel as [| fuel]; [lia |].
    destruct (length (smtpQueue st)) as [| n] eqn:Hlen; [lia |].
    simpl. rewrite (lookup_ge_None_2 (smtpQueue st) (currentSmtpIndex st)) by lia.
    split; [reflexivity | discriminate].
  - destruct (scanLoop_total st Hin)
      as [(k & c & Hk & _ & _ & _ & Hrun) | (_ & Hrun)].
    + rewrite (Hrun fuel) by lia. rewrite (Hrun (length (smtpQueue st))) by lia.
      split; [reflexivity | discriminate].
    + rewrite (Hrun fuel) by lia. rewrite (Hrun (length (smtpQueue st))) by lia.
      split; [reflexivity | discriminate].
Qed.

(** ** Properties of the rotator *)

Lemma wrap_inj (i j j' n : nat) :
  j < n -> j' < n -> (i + j) mod n = (i + j') mod n -> j = j'.
Proof.
  assert (Hlt : forall a b, a < b -> b < n -> (i + a) mod n <> (i + b) mod n).
  { intros a b Hab Hb Heq.
    assert (Hs : (i + a) mod n < n) by (apply Nat.mod_upper_bound; lia).
    apply (wrap_partial ((i + a) mod n) (b - a) n Hs); [lia |].
    rewrite Nat.Div0.add_mod_idemp_l.
    replace (i + a + (b - a)) with (i + b) by lia. symmetry. exact Heq. }
  intros Hj Hj' Heq.
  destruct (lt_eq_lt_dec j j') as [[H | H] | H]; [| exact H |].
  - exfalso. exact (Hlt j j' H Hj' Heq).
  - exfalso. exact (Hlt j' j H Hj (eq_sym Heq)).
Qed.

Lemma examined_length (q : list ISmtpConfig) (start m cnt : nat) :
  length (examined q start m cnt) = cnt.
Proof. unfold examined. rewrite length_map, length_seq. reflexivity. Qed.

Lemma underQuota_lt (w : World) (c : ISmtpConfig) :
  underQuota w c = true <-> (inject_Z (dailyCount w (_id c)) < dailyLimit c)%Q.
Proof. unfold underQuota, Qltb, Qlt. apply Z.ltb_lt. Qed.

Lemma underQuota_ge (w : World) (c : ISmtpConfig) :
  underQuota w c = false <-> (dailyLimit c <= inject_Z (dailyCount w (_id c)))%Q.
Proof. unfold underQuota, Qltb, Qle. rewrite Z.ltb_ge. reflexivity. Qed.

(** C1. From a non-empty queue with a valid cursor and some server under
    quota, [getNextAvailableSmtp] returns a server [c] whose count of the
    day is strictly below its [dailyLimit]; [c] is the first such server
    in queue order from the cursor (the [k] servers before it are
    exhausted), the cursor is left on the index of [c], and the next call
    starts there: it examines [c] alone and returns it again. *)
Theorem getNextAvailableSmtp_first_under_quota (st : State) (c0 : ISmtpConfig) :
  validCursor st ->
  In c0 (smtpQueue st) ->
  (inject_Z (dailyCount (world st) (_id c0)) < dailyLimit c0)%Q ->
  exists (k : nat) (c : ISmtpConfig) (st' st'' : State),
    getNextAvailableSmtp st = (Returns c, st') /\
    (inject_Z (dailyCount (world st) (_id c)) < dailyLimit c)%Q /\
    k < length (smtpQueue st) /\
    smtpQueue st !! ((currentSmtpIndex st + k) mod length (smtpQueue st)) = Some c /\
    (forall j c', j < k ->
       smtpQueue st !! ((currentSmtpIndex st + j) mod length (smtpQueue st)) = Some c' ->
       (dailyLimit c' <= inject_Z (dailyCount (world st) (_id c')))%Q) /\
    currentSmtpIndex st' = (currentSmtpIndex st + k) mod length (smtpQueue st) /\
    smtpQueue st' = smtpQueue st /\
    world st' = world st /\
    trace st' = trace st ++ examined (smtpQueue st) (currentSmtpIndex st) 0 (S k) /\
    getNextAvailableSmtp st' = (Returns c, st'') /\
    currentSmtpIndex st'' = currentSmtpIndex st' /\
    trace st'' = trace st' ++ [EvGetSmtpDailyCount (_id c)].
Proof.
  intros Hvalid Hin Hlt.
  assert (Hn : 0 < length (smtpQueue st)) by (unfold validCursor in Hvalid; lia).
  destruct (scanLoop_total st Hvalid)
    as [(k & c & Hk & Hc & Hq & Hleast & Hrun) | (Hnone & _)].
  - exists k, c, (foundAfter k st),
      (emit (EvGetSmtpDailyCount (_id c)) (foundAfter k st)).
    rewrite (getNextAvailableSmtp_nonempty st Hn), (Hrun _ Hk).
    repeat split; try reflexivity.
    + apply underQuota_lt. exact Hq.
    + exact Hk.
    + exact Hc.
    + intros j c' Hj Hc'. apply underQuota_ge.
      specialize (Hleast j Hj). unfold underQuotaAt in Hleast.
      rewrite Hc' in Hleast. exact Hleast.
    + rewrite getNextAvailableSmtp_nonempty by exact Hn.
      cbn [foundAfter smtpQueue currentSmtpIndex].
      destruct (length (smtpQueue st)) as [| n] eqn:Hlen; [lia |].
      apply scanLoop_hit; cbn [foundAfter smtpQueue currentSmtpIndex world].
      * rewrite Hlen. exact Hc.
      * exact Hq.
  - exfalso.
    apply list_elem_of_In, list_elem_of_lookup in Hin. destruct Hin as [p Hp].
    assert (Hpn : p < length (smtpQueue st)) by (eapply lookup_lt_Some; exact Hp).
    assert (Hkn : (p + length (smtpQueue st) - currentSmtpIndex st)
                    mod length (smtpQueue st) < length (smtpQueue st))
      by (apply Nat.mod_upper_bound; lia).
    specialize (Hnone _ Hkn).
    rewrite (wrap_reach _ _ _ Hvalid Hpn) in Hnone.
    unfold underQuotaAt in Hnone. rewrite Hp in Hnone.
    apply underQuota_lt in Hlt. congruence.
Qed.

Lemma getNextAvailableSmtp_first_under_quota_witness :
  validCursor rotatedState /\
  In (server "B" false 5) (smtpQueue rotatedState) /\
  (dailyCount (world rotatedState) "B" < 5)%Z /\
  exists st', getNextAvailableSmtp rotatedState = (Returns (server "B" false 5), st') /\
              currentSmtpIndex st' = 0.
Proof.
  assert (Hv : validCursor rotatedState) by (unfold validCursor; simpl; lia).
  assert (Hi : In (server "B" false 5) (smtpQueue rotatedState))
    by (left; reflexivity).
  assert (Hq : (inject_Z (dailyCount (world rotatedState) (_id (server "B" false 5)))
                < dailyLimit (server "B" false 5))%Q) by reflexivity.
  split; [exact Hv |]. split; [exact Hi |]. split; [exact Hq |].
  destruct (getNextAvailableSmtp_first_under_quota rotatedState _ Hv Hi Hq)
    as (k & c & st' & st'' & Hrun & _ & _ & _ & _ & Hcur & _).
  exists (snd (getNextAvailableSmtp rotatedState)).
  split; reflexivity.
Defined.

(** C4. From a non-empty queue with a valid cursor in which every server
    has reached its [dailyLimit], [getNextAvailableSmtp] throws
    [AllQuotasExhausted] with the cursor back on the index it started
    from.  The loop ends after one daily-count query per queue position,
    in cyclic order from the cursor, the positions being pairwise
    distinct, and no amount of fuel beyond the queue length changes the
    outcome. *)
Theorem getNextAvailableSmtp_all_exhausted (st : State) :
  validCursor st ->
  (forall c, In c (smtpQueue st) ->
     (dailyLimit c <= inject_Z (dailyCount (world st) (_id c)))%Q) ->
  getNextAvailableSmtp st = (Throws AllQuotasExhausted, allExamined st) /\
  (forall fuel, length (smtpQueue st) <= fuel ->
     scanLoop fuel (currentSmtpIndex st) st =
     (Throws AllQuotasExhausted, allExamined st)) /\
  currentSmtpIndex (allExamined st) = currentSmtpIndex st /\
  trace (allExamined st) =
    trace st ++
    map (fun j => EvGetSmtpDailyCount
                    (idAt (smtpQueue st)
                       ((currentSmtpIndex st + j) mod length (smtpQueue st))))
      (seq 0 (length (smtpQueue st))) /\
  NoDup (map (fun j => (currentSmtpIndex st + j) mod length (smtpQueue st))
           (seq 0 (length (smtpQueue st)))).
Proof.
  intros Hvalid Hall.
  assert (Hn : 0 < length (smtpQueue st)) by (unfold validCursor in Hvalid; lia).
  destruct (scanLoop_total st Hvalid)
    as [(k & c & Hk & Hc & Hq & _) | (_ & Hrun)].
  - exfalso. apply underQuota_lt in Hq.
    assert (Hin : In c (smtpQueue st)).
    { apply list_elem_of_In, list_elem_of_lookup. eexists. exact Hc. }
    specialize (Hall c Hin). lra.
  - repeat split.
    + rewrite (getNextAvailableSmtp_nonempty st Hn). apply Hrun. lia.
    + exact Hrun.
    + apply NoDup_fmap_2_strong; [| apply NoDup_seq].
      intros j j' Hj Hj' Heq.
      apply elem_of_seq in Hj, Hj'.
      apply (wrap_inj (currentSmtpIndex st) j j' (length (smtpQueue st))); [lia | lia | exact Heq].
Qed.

Lemma getNextAvailableSmtp_all_exhausted_witness :
  validCursor exhaustedState /\
  fst (getNextAvailableSmtp exhaustedState) = Throws AllQuotasExhausted /\
  trace (snd (getNextAvailableSmtp exhaustedState)) =
    [EvGetSmtpDailyCount "A"; EvGetSmtpDailyCount "B"].
Proof.
  assert (Hv : validCursor exhaustedState) by (unfold validCursor; simpl; lia).
  assert (Hall : forall c, In c (smtpQueue exhaustedState) ->
            (dailyLimit c <= inject_Z (dailyCount (world exhaustedState) (_id c)))%Q).
  { intros c [<- | [<- | []]]; vm_compute; discriminate. }
  destruct (getNextAvailableSmtp_all_exhausted exhaustedState Hv Hall)
    as (Hrun & _).
  split; [exact Hv |]. rewrite Hrun. split; reflexivity.
Defined.

(** C5. [refreshSmtpQueue] returns with the cursor on 0 and the queue
    rebuilt from the stored configs: without a default server the queue is
    the stored list; with one, the queue is that server followed by the
    configs that are not flagged as default, in stored order, which for a
    list with a single default [d] between [before] and [after] is
    [d :: before ++ after].  When the default server is under quota, the
    first [getNextAvailableSmtp] after the refresh returns it and leaves
    the cursor on 0. *)
Theorem refreshSmtpQueue_default_first (st : State) :
  exists st',
    refreshSmtpQueue st = (Returns tt, st') /\
    currentSmtpIndex st' = 0 /\
    world st' = world st /\
    (List.find isDefault (smtpConfigs (world st)) = None ->
     smtpQueue st' = smtpConfigs (world st)) /\
    (forall d,
       List.find isDefault (smtpConfigs (world st)) = Some d ->
       isDefault d = true /\
       smtpQueue st' =
         d :: List.filter (fun c => negb (isDefault c)) (smtpConfigs (world st)) /\
       ((inject_Z (dailyCount (world st) (_id d)) < dailyLimit d)%Q ->
        exists st'', getNextAvailableSmtp st' = (Returns d, st'') /\
                     currentSmtpIndex st'' = 0)) /\
    (forall before d after,
       smtpConfigs (world st) = before ++ d :: after ->
       isDefault d = true ->
       (forall c, In c (before ++ after) -> isDefault c = false) ->
       List.find isDefault (smtpConfigs (world st)) = Some d /\
       smtpQueue st' = d :: before ++ after).
Proof.
  eexists. split; [apply refreshSmtpQueue_spec |].
  cbn [currentSmtpIndex world smtpQueue]. unfold refreshedQueue.
  split; [reflexivity |]. split; [reflexivity |]. split; [| split].
  - intros Hnone. rewrite Hnone. reflexivity.
  - intros d Hd. rewrite Hd.
    split; [apply (find_some _ _ Hd) |]. split; [reflexivity |].
    intros Hlt. eexists.
    rewrite getNextAvailableSmtp_nonempty by (simpl; lia).
    split.
    + cbn [smtpQueue currentSmtpIndex length].
      apply scanLoop_hit; [reflexivity |]. apply underQuota_lt. exact Hlt.
    + reflexivity.
  - intros before d after Hcfg Hd Hothers.
    assert (Hfilter : forall l, (forall c, In c l -> isDefault c = false) ->
              List.filter (fun c => negb (isDefault c)) l = l).
    { induction l as [| x l IH]; intros Hl; [reflexivity |]. simpl.
      rewrite (Hl x (or_introl eq_refl)). simpl. f_equal.
      apply IH. intros c Hc. apply Hl. right. exact Hc. }
    assert (Hfind : forall l, (forall c, In c l -> isDefault c = false) ->
              List.find isDefault (l ++ d :: after) = Some d).
    { induction l as [| x l IH]; intros Hl; simpl.
      - rewrite Hd. reflexivity.
      - rewrite (Hl x (or_introl eq_refl)).
        apply IH. intros c Hc. apply Hl. right. exact Hc. }
    assert (Hb : forall c, In c before -> isDefault c = false)
      by (intros c Hc; apply Hothers, in_or_app; left; exact Hc).
    assert (Ha : forall c, In c after -> isDefault c = false)
      by (intros c Hc; apply Hothers, in_or_app; right; exact Hc).
    rewrite Hcfg, (Hfind before Hb). split; [reflexivity |].
    rewrite List.filter_app. simpl. rewrite Hd. simpl.
    rewrite (Hfilter before Hb), (Hfilter after Ha). reflexivity.
Qed.

Lemma refreshSmtpQueue_default_first_witness :
  smtpQueue (snd (refreshSmtpQueue rotatedState)) =
    [server "A" true 2; server "B" false 5] /\
  currentSmtpIndex (snd (refreshSmtpQueue rotatedState)) = 0.
Proof.
  destruct (refreshSmtpQueue_default_first rotatedState)
    as (st' & Hrun & Hcur & _ & _ & _ & Hshape).
  destruct (Hshape [server "B" false 5] (server "A" true 2) [] eq_refl eq_refl)
    as (_ & Hq).
  { intros c [<- | []]. reflexivity. }
  rewrite Hrun. split; [exact Hq | exact Hcur].
Defined.

(** Outside the data model: of two configs flagged as default, which the
    storage layer does not produce, only the first is queued. *)
Example refreshSmtpQueue_two_defaults :
  smtpQueue
    (snd (refreshSmtpQueue
            (newEmailService
               (worldOf [server "A" true 2; server "B" true 5; server "C" false 5]
                  [] morning))))
  = [server "A" true 2; server "C" false 5].
Proof. reflexivity. Qed.

(** ** What the rotator leaves untouched *)

Lemma delaysOf_app (a b : list Event) : delaysOf (a ++ b) = delaysOf a ++ delaysOf b.
Proof. unfold delaysOf. apply flat_map_app. Qed.

Lemma scanLoop_frame (fuel start : nat) (st : State) :
  sameButCursor st (snd (scanLoop fuel start st)).
Proof.
  revert st. induction fuel as [| fuel IH]; intros st; simpl.
  - repeat split.
  - destruct (smtpQueue st !! currentSmtpIndex st) as [c |]; [| repeat split].
    unfold bind, getSmtpDailyCount, ret.
    destruct (Qltb (inject_Z (dailyCount (world st) (_id c))) (dailyLimit c)).
    + repeat split. cbn [snd trace emit]. rewrite delaysOf_app. simpl.
      apply app_nil_r.
    + match goal with
      | |- context [Nat.eqb ?a ?b] => destruct (Nat.eqb a b)
      end.
      * repeat split. cbn [snd trace emit setIndex]. rewrite delaysOf_app.
        simpl. apply app_nil_r.
      * match goal with
        | |- sameButCursor _ (snd (scanLoop fuel start ?s)) =>
            destruct (IH s) as (Hw & Ht & Hc & Hq & Hd)
        end.
        unfold sameButCursor. rewrite Hw, Ht, Hc, Hq, Hd.
        repeat split. cbn [trace emit setIndex]. rewrite delaysOf_app.
        simpl. apply app_nil_r.
Qed.

(** A server that the loop returns is the one under the cursor it leaves,
    and is under quota. *)
Lemma scanLoop_returns (fuel start : nat) (st st' : State) (c : ISmtpConfig) :
  scanLoop fuel start st = (Returns c, st') ->
  smtpQueue st' !! currentSmtpIndex st' = Some c /\
  underQuota (world st) c = true.
Proof.
  revert st. induction fuel as [| fuel IH]; intros st; simpl; [discriminate |].
  destruct (smtpQueue st !! currentSmtpIndex st) as [c0 |] eqn:Hc0; [| discriminate].
  unfold bind, getSmtpDailyCount, ret.
  destruct (Qltb (inject_Z (dailyCount (world st) (_id c0))) (dailyLimit c0)) eqn:Hq.
  - intros [= <- <-]. split; [exact Hc0 | exact Hq].
  - match goal with
    | |- context [Nat.eqb ?a ?b] => destruct (Nat.eqb a b)
    end; [discriminate |].
    intros Hrun. apply IH in Hrun. exact Hrun.
Qed.

Lemma getNextAvailableSmtp_frame (st : State) :
  world (snd (getNextAvailableSmtp st)) = world st /\
  transports (snd (getNextAvailableSmtp st)) = transports st /\
  transportsCreated (snd (getNextAvailableSmtp st)) = transportsCreated st /\
  delaysOf (trace (snd (getNextAvailableSmtp st))) = delaysOf (trace st).
Proof.
  unfold getNextAvailableSmtp, bind.
  destruct (Nat.eqb (length (smtpQueue st)) 0).
  - rewrite refreshSmtpQueue_spec.
    match goal with
    | |- context [Nat.eqb (length (smtpQueue ?s)) 0] =>
        destruct (Nat.eqb (length (smtpQueue s)) 0);
        [| destruct (scanLoop_frame (length (smtpQueue s)) (currentSmtpIndex s) s)
             as (Hw & Ht & Hc & _ & Hd); rewrite Hw, Ht, Hc, Hd]
    end; cbn [snd world transports transportsCreated trace];
      rewrite delaysOf_app; simpl; rewrite app_nil_r; repeat split.
  - destruct (Nat.eqb (length (smtpQueue st)) 0); [repeat split |].
    destruct (scanLoop_frame (length (smtpQueue st)) (currentSmtpIndex st) st)
      as (Hw & Ht & Hc & _ & Hd).
    repeat split; assumption.
Qed.

Lemma getNextAvailableSmtp_world (st : State) :
  world (snd (getNextAvailableSmtp st)) = world st.
Proof. apply getNextAvailableSmtp_frame. Qed.

(** A server that [getNextAvailableSmtp] returns is the one under the
    cursor it leaves, and is under quota. *)
Lemma getNextAvailableSmtp_returns (st st' : State) (c : ISmtpConfig) :
  getNextAvailableSmtp st = (Returns c, st') ->
  smtpQueue st' !! currentSmtpIndex st' = Some c /\
  underQuota (world st) c = true.
Proof.
  unfold getNextAvailableSmtp, bind.
  destruct (Nat.eqb (length (smtpQueue st)) 0).
  - rewrite refreshSmtpQueue_spec.
    match goal with
    | |- context [Nat.eqb (length (smtpQueue ?s)) 0] =>
        destruct (Nat.eqb (length (smtpQueue s)) 0); [discriminate |]
    end.
    intros Hrun. apply scanLoop_returns in Hrun. exact Hrun.
  - destruct (Nat.eqb (length (smtpQueue st)) 0); [discriminate |].
    apply scanLoop_returns.
Qed.

(** While the server under the cursor is under quota, it is the one
    returned, after a single daily-count query. *)
Lemma getNextAvailableSmtp_sticky (st : State) (c : ISmtpConfig) :
  smtpQueue st !! currentSmtpIndex st = Some c ->
  underQuota (world st) c = true ->
  getNextAvailableSmtp st = (Returns c, emit (EvGetSmtpDailyCount (_id c)) st).
Proof.
  intros Hc Hq.
  assert (Hn : 0 < length (smtpQueue st)).
  { apply lookup_lt_Some in Hc. lia. }
  rewrite (getNextAvailableSmtp_nonempty st Hn).
  destruct (length (smtpQueue st)) as [| n]; [lia |].
  apply scanLoop_hit; assumption.
Qed.

(** The three ways in which [getNextAvailableSmtp] can fail. *)
Lemma getNextAvailableSmtp_throws (st st' : State) (e : Exn) :
  getNextAvailableSmtp st = (Throws e, st') ->
  (e = NoServersConfigured /\ smtpQueue st' = [] /\ smtpConfigs (world st) = [])
  \/ (e = AllQuotasExhausted /\ validCursor st' /\
      forall j, j < length (smtpQueue st') ->
        underQuotaAt (world st') (smtpQueue st')
          ((currentSmtpIndex st' + j) mod length (smtpQueue st')) = false)
  \/ e = UndefinedConfig.
Proof.
  assert (Hscan : forall s, 0 < length (smtpQueue s) ->
    scanLoop (length (smtpQueue s)) (currentSmtpIndex s) s = (Throws e, st') ->
    (e = AllQuotasExhausted /\ validCursor st' /\
      forall j, j < length (smtpQueue st') ->
        underQuotaAt (world st') (smtpQueue st')
          ((currentSmtpIndex st' + j) mod length (smtpQueue st')) = false)
    \/ e = UndefinedConfig).
  { intros s Hn Hrun.
    destruct (le_lt_dec (length (smtpQueue s)) (currentSmtpIndex s)) as [Hout | Hin].
    - right. destruct (length (smtpQueue s)) as [| n] eqn:Hlen; [lia |].
      simpl in Hrun.
      rewrite (lookup_ge_None_2 (smtpQueue s) (currentSmtpIndex s)) in Hrun by lia.
      congruence.
    - destruct (scanLoop_total s Hin)
        as [(k & c & Hk & _ & _ & _ & Hfound) | (Hnone & Hall)].
      + rewrite (Hfound _ Hk) in Hrun. discriminate.
      + rewrite (Hall _ (Nat.le_refl _)) in Hrun.
        injection Hrun as <- <-. left.
        split; [reflexivity |]. split; [exact Hin | exact Hnone]. }
  unfold getNextAvailableSmtp, bind.
  destruct (Nat.eqb_spec (length (smtpQueue st)) 0) as [Hempty | Hne].
  - rewrite refreshSmtpQueue_spec.
    match goal with
    | |- context [Nat.eqb (length (smtpQueue ?s)) 0] =>
        destruct (Nat.eqb_spec (length (smtpQueue s)) 0) as [Hempty' | Hne'];
        [| intros Hrun; right; apply (Hscan s); [lia | exact Hrun]]
    end.
    intros [= <- <-]. left. cbn [smtpQueue] in *.
    apply length_zero_iff_nil in Hempty'.
    split; [reflexivity |]. split; [exact Hempty' |].
    unfold refreshedQueue in Hempty'.
    destruct (List.find isDefault (smtpConfigs (world st))); [discriminate | exact Hempty'].
  - destruct (Nat.eqb_spec (length (smtpQueue st)) 0) as [Hempty | _]; [lia |].
    intros Hrun. right. apply (Hscan st); [lia | exact Hrun].
Qed.

(** A failed selection fails again, in the same way, when it is repeated
    at once: nothing that it depends on has changed. *)
Lemma getNextAvailableSmtp_throws_again (st st' : State) (e : Exn) :
  getNextAvailableSmtp st = (Throws e, st') ->
  batchFatal e ->
  fst (getNextAvailableSmtp st') = Throws e.
Proof.
  intros Hrun Hfatal.
  assert (Hw : world st' = world st).
  { rewrite <- (getNextAvailableSmtp_world st), Hrun. reflexivity. }
  destruct (getNextAvailableSmtp_throws st st' e Hrun)
    as [(-> & Hq & Hcfg) | [(-> & Hvalid & Hnone) | ->]].
  - unfold getNextAvailableSmtp, bind. rewrite Hq. cbn [length Nat.eqb].
    rewrite refreshSmtpQueue_spec. cbn [smtpQueue].
    rewrite Hw, Hcfg. reflexivity.
  - assert (Hn : 0 < length (smtpQueue st')) by (unfold validCursor in Hvalid; lia).
    rewrite (getNextAvailableSmtp_nonempty st' Hn).
    destruct (scanLoop_total st' Hvalid)
      as [(k & c & Hk & Hc & Hq & _) | (_ & Hall)].
    + exfalso. specialize (Hnone k Hk). unfold underQuotaAt in Hnone.
      rewrite Hc in Hnone. congruence.
    + rewrite (Hall _ (Nat.le_refl _)). reflexivity.
  - destruct Hfatal as [H | H]; discriminate.
Qed.

(** ** The connection cache *)

Section Keeps.

Variable R : State -> State -> Prop.
Hypothesis R_refl : forall st, R st st.
Hypothesis R_trans : forall a b c, R a b -> R b c -> R a c.

Lemma keeps_ret {A} (a : A) : keeps R (ret a).
Proof. intros st. apply R_refl. Qed.

Lemma keeps_throw {A} (e : Exn) : keeps R (@throw A e).
Proof. intros st. apply R_refl. Qed.

Lemma keeps_bind {A B} (m : M A) (k : A -> M B) :
  keeps R m -> (forall a, keeps R (k a)) -> keeps R (bind m k).
Proof.
  intros Hm Hk st. unfold bind. specialize (Hm st).
  destruct (m st) as [[a | e |] st1]; simpl in *; try exact Hm.
  exact (R_trans _ _ _ Hm (Hk a st1)).
Qed.

Lemma keeps_tryCatch {A} (body : M A) (handler : Exn -> M A) :
  keeps R body -> (forall e, keeps R (handler e)) -> keeps R (tryCatch body handler).
Proof.
  intros Hm Hk st. unfold tryCatch. specialize (Hm st).
  destruct (body st) as [[a | e |] st1]; simpl in *; try exact Hm.
  exact (R_trans _ _ _ Hm (Hk e st1)).
Qed.

End Keeps.

Lemma cacheKept_refl (st : State) : cacheKept st st.
Proof. intros id t H. exact H. Qed.

Lemma cacheKept_trans (a b c : State) : cacheKept a b -> cacheKept b c -> cacheKept a c.
Proof. intros Hab Hbc id t H. apply Hbc, Hab, H. Qed.

Lemma cacheKept_same (st st' : State) : transports st' = transports st -> cacheKept st st'.
Proof. intros Heq id t H. rewrite Heq. exact H. Qed.

(** [getTransport] on a cached identifier. *)
Lemma getTransport_hit (c : ISmtpConfig) (st : State) (t : Transporter) :
  transports st !! _id c = Some t ->
  getTransport c st = (Returns (Some t), st).
Proof.
  intros Hhit. unfold getTransport, bind. rewrite Hhit. cbn. rewrite Hhit.
  reflexivity.
Qed.

(** [getTransport] on an identifier that is not cached. *)
Lemma getTransport_miss (c : ISmtpConfig) (st : State) :
  transports st !! _id c = None ->
  getTransport c st =
  (Returns (Some {| handleId := transportsCreated st; options := optionsOf c |}),
   {| transports :=
        <[_id c := {| handleId := transportsCreated st; options := optionsOf c |}]>
          (transports st);
      transportsCreated := S (transportsCreated st);
      currentSmtpIndex := currentSmtpIndex st;
      smtpQueue := smtpQueue st;
      world := world st;
      trace := trace st ++ [EvCreateTransport (optionsOf c)] |}).
Proof.
  intros Hmiss. unfold getTransport, bind, createTransport. rewrite Hmiss. cbn.
  rewrite lookup_insert_eq. reflexivity.
Qed.

Lemma getTransport_spec (c : ISmtpConfig) (st : State) :
  fst (getTransport c st) = Returns (Some (transportFor c st)) /\
  world (snd (getTransport c st)) = world st /\
  currentSmtpIndex (snd (getTransport c st)) = currentSmtpIndex st /\
  smtpQueue (snd (getTransport c st)) = smtpQueue st /\
  delaysOf (trace (snd (getTransport c st))) = delaysOf (trace st) /\
  cacheKept st (snd (getTransport c st)).
Proof.
  unfold transportFor.
  destruct (transports st !! _id c) as [t |] eqn:Hc.
  - rewrite (getTransport_hit c st t Hc). repeat split. apply cacheKept_refl.
  - rewrite (getTransport_miss c st Hc). cbn. repeat split.
    + rewrite delaysOf_app. simpl. apply app_nil_r.
    + intros id t Hid. cbn.
      rewrite lookup_insert_ne; [exact Hid |].
      intros Heq. rewrite Heq in Hc. congruence.
Qed.

Section CacheKept.

Variable E : Env.

Lemma sendMail_keeps_cache (t : option Transporter) (m : MailOptions) :
  keeps cacheKept (sendMail E t m).
Proof.
  intros st. apply cacheKept_same. unfold sendMail, throw.
  destruct t as [t |]; [| reflexivity].
  destruct (sendMailOutcome E (sendMailCalls (world st))); reflexivity.
Qed.

Lemma logEmail_keeps_cache (l : InsertLog) : keeps cacheKept (logEmail E l).
Proof.
  intros st. apply cacheKept_same. unfold logEmail.
  destruct (logEmailOutcome E (logEmailCalls (world st))); reflexivity.
Qed.

Lemma delay_keeps_cache (ms : Z) : keeps cacheKept (delay ms).
Proof. intros st. apply cacheKept_same. reflexivity. Qed.

Lemma refreshSmtpQueue_keeps_cache : keeps cacheKept refreshSmtpQueue.
Proof.
  intros st. apply cacheKept_same. rewrite refreshSmtpQueue_spec. reflexivity.
Qed.

Lemma getNextAvailableSmtp_keeps_cache : keeps cacheKept getNextAvailableSmtp.
Proof. intros st. apply cacheKept_same, getNextAvailableSmtp_frame. Qed.

Lemma getTransport_keeps_cache (c : ISmtpConfig) : keeps cacheKept (getTransport c).
Proof. intros st. apply getTransport_spec. Qed.

Create HintDb cache.

Hint Resolve cacheKept_refl cacheKept_trans sendMail_keeps_cache
  logEmail_keeps_cache delay_keeps_cache refreshSmtpQueue_keeps_cache
  getNextAvailableSmtp_keeps_cache getTransport_keeps_cache : cache.

Ltac keeps_cache :=
  repeat (first
    [ solve [auto with cache]
    | apply keeps_bind; [exact cacheKept_trans | | intros ?; cbv beta ]
    | apply keeps_tryCatch; [exact cacheKept_trans | | intros ?; cbv beta ] ]).

Lemma sendOne_keeps_cache (campaign : ObjectId) (email : Email) :
  keeps cacheKept (sendOne E campaign email).
Proof. unfold sendOne, attempt, recordFailure. keeps_cache. Qed.

Lemma forEachEmail_keeps_cache (campaign : ObjectId) (emails : list Email) :
  keeps cacheKept (forEachEmail E campaign emails).
Proof.
  induction emails as [| email rest IH]; simpl.
  - apply keeps_ret. exact cacheKept_refl.
  - apply keeps_bind;
      [exact cacheKept_trans | apply sendOne_keeps_cache | intros _; exact IH].
Qed.

Lemma sendBulkEmails_keeps_cache (campaign : ObjectId) (emails : list Email) :
  keeps cacheKept (sendBulkEmails E campaign emails).
Proof.
  unfold sendBulkEmails.
  apply keeps_bind;
    [exact cacheKept_trans | apply refreshSmtpQueue_keeps_cache
    | intros _; apply forEachEmail_keeps_cache].
Qed.

End CacheKept.

(** C9. [getTransport] is idempotent per server identifier.  On an
    identifier that is not cached it creates one handle and caches it
    under that identifier; on a cached identifier it returns the cached
    handle, whatever the other fields of the config, creates nothing and
    leaves the state as it is; so a second call after a first returns the
    same handle.  Nothing removes or replaces a cached handle: it is still
    cached, unchanged, after any [getTransport] and after any whole
    [sendBulkEmails], in every environment. *)
Theorem getTransport_idempotent (c : ISmtpConfig) (st : State) :
  (transports st !! _id c = None ->
   exists t st',
     getTransport c st = (Returns (Some t), st') /\
     handleId t = transportsCreated st /\
     options t = optionsOf c /\
     transports st' = <[_id c := t]> (transports st) /\
     transportsCreated st' = S (transportsCreated st) /\
     trace st' = trace st ++ [EvCreateTransport (optionsOf c)]) /\
  (forall c' t,
     _id c' = _id c ->
     transports st !! _id c = Some t ->
     getTransport c' st = (Returns (Some t), st)) /\
  (forall c',
     _id c' = _id c ->
     getTransport c' (snd (getTransport c st)) =
     (fst (getTransport c st), snd (getTransport c st))) /\
  (forall c' id t,
     transports st !! id = Some t ->
     transports (snd (getTransport c' st)) !! id = Some t) /\
  (forall E campaign emails id t,
     transports st !! id = Some t ->
     transports (snd (sendBulkEmails E campaign emails st)) !! id = Some t).
Proof.
  split; [| split; [| split; [| split]]].
  - intros Hmiss. do 2 eexists.
    split; [apply (getTransport_miss c st Hmiss) |]. repeat split.
  - intros c' t Hid Hhit. apply getTransport_hit. rewrite Hid. exact Hhit.
  - intros c' Hid.
    destruct (transports st !! _id c) as [t |] eqn:Hc.
    + rewrite (getTransport_hit c st t Hc). cbn [fst snd].
      apply getTransport_hit. rewrite Hid. exact Hc.
    + rewrite (getTransport_miss c st Hc). cbn [fst snd].
      apply getTransport_hit. cbn [transports]. rewrite Hid.
      apply lookup_insert_eq.
  - intros c' id t Hid. apply (getTransport_keeps_cache c' st id t Hid).
  - intros E campaign emails id t Hid.
    apply (sendBulkEmails_keeps_cache E campaign emails st id t Hid).
Qed.

Lemma getTransport_idempotent_witness :
  exists t st',
    getTransport (server "A" true 5) (refreshed (oneServer 5 morning))
      = (Returns (Some t), st') /\
    handleId t = 0 /\
    getTransport (server "A" false 9) st' = (Returns (Some t), st').
Proof.
  destruct (getTransport_idempotent (server "A" true 5)
              (refreshed (oneServer 5 morning)))
    as (Hmiss & _ & Hagain & _).
  destruct (Hmiss eq_refl) as (t & st' & Hrun & Hid & _).
  exists t, st'. split; [exact Hrun |]. split; [exact Hid |].
  specialize (Hagain (server "A" false 9) eq_refl).
  rewrite Hrun in Hagain. exact Hagain.
Defined.

(** ** The cursor stays inside the queue *)

Lemma cursorOk_new (w : World) : cursorOk (newEmailService w).
Proof. left. reflexivity. Qed.

Lemma cursorOk_valid (st : State) :
  cursorOk st -> smtpQueue st <> [] -> validCursor st.
Proof. intros [Hempty | Hvalid] Hne; [contradiction | exact Hvalid]. Qed.

Lemma cursorKept_refl (st : State) : cursorKept st st.
Proof. intros H. exact H. Qed.

Lemma cursorKept_trans (a b c : State) :
  cursorKept a b -> cursorKept b c -> cursorKept a c.
Proof. intros Hab Hbc H. apply Hbc, Hab, H. Qed.

Lemma cursorKept_same (st st' : State) :
  smtpQueue st' = smtpQueue st ->
  currentSmtpIndex st' = currentSmtpIndex st ->
  cursorKept st st'.
Proof.
  intros Hq Hi. unfold cursorKept, cursorOk, validCursor.
  rewrite Hq, Hi. intros H. exact H.
Qed.

Lemma refreshSmtpQueue_cursorOk (st : State) :
  cursorOk (snd (refreshSmtpQueue st)).
Proof.
  rewrite refreshSmtpQueue_spec. cbn [snd]. unfold cursorOk, validCursor.
  cbn [smtpQueue currentSmtpIndex].
  destruct (refreshedQueue (smtpConfigs (world st))); [left | right; simpl; lia].
  reflexivity.
Qed.

Lemma scanLoop_cursorOk (fuel start : nat) (st : State) :
  cursorOk st -> cursorOk (snd (scanLoop fuel start st)).
Proof.
  revert st. induction fuel as [| fuel IH]; intros st Hok; simpl; [exact Hok |].
  destruct (smtpQueue st !! currentSmtpIndex st) as [c |] eqn:Hc; [| exact Hok].
  unfold bind, getSmtpDailyCount, ret.
  destruct (Qltb (inject_Z (dailyCount (world st) (_id c))) (dailyLimit c)); [exact Hok |].
  assert (Hn : 0 < length (smtpQueue st)) by (apply lookup_lt_Some in Hc; lia).
  assert (Hnext : cursorOk
            (setIndex ((currentSmtpIndex st + 1) mod length (smtpQueue st))
               (emit (EvGetSmtpDailyCount (_id c)) st))).
  { right. unfold validCursor. cbn [setIndex emit smtpQueue currentSmtpIndex].
    apply Nat.mod_upper_bound. lia. }
  cbn [emit smtpQueue currentSmtpIndex].
  match goal with
  | |- context [Nat.eqb ?a ?b] => destruct (Nat.eqb a b)
  end; [exact Hnext | apply IH; exact Hnext].
Qed.

Lemma getNextAvailableSmtp_cursorOk : keeps cursorKept getNextAvailableSmtp.
Proof.
  intros st Hok. unfold getNextAvailableSmtp, bind.
  destruct (Nat.eqb (length (smtpQueue st)) 0).
  - pose proof (refreshSmtpQueue_cursorOk st) as Hr.
    destruct (refreshSmtpQueue st) as [[[] | e |] s1]; cbn [snd] in *; try exact Hr.
    destruct (Nat.eqb (length (smtpQueue s1)) 0); [exact Hr |].
    apply scanLoop_cursorOk. exact Hr.
  - destruct (Nat.eqb (length (smtpQueue st)) 0); [exact Hok |].
    apply scanLoop_cursorOk. exact Hok.
Qed.

Section CursorKept.

Variable E : Env.

Lemma unmoved_cursorKept {A} (m : M A) :
  (forall st, smtpQueue (snd (m st)) = smtpQueue st /\
              currentSmtpIndex (snd (m st)) = currentSmtpIndex st) ->
  keeps cursorKept m.
Proof. intros Hm st. destruct (Hm st). apply cursorKept_same; assumption. Qed.

Lemma getTransport_cursorOk (c : ISmtpConfig) : keeps cursorKept (getTransport c).
Proof.
  apply unmoved_cursorKept. intros st.
  destruct (getTransport_spec c st) as (_ & _ & Hi & Hq & _). split; assumption.
Qed.

Lemma sendMail_cursorOk (t : option Transporter) (m : MailOptions) :
  keeps cursorKept (sendMail E t m).
Proof.
  apply unmoved_cursorKept. intros st. unfold sendMail, throw.
  destruct t as [t |]; [| split; reflexivity].
  destruct (sendMailOutcome E (sendMailCalls (world st))); split; reflexivity.
Qed.

Lemma logEmail_cursorOk (l : InsertLog) : keeps cursorKept (logEmail E l).
Proof.
  apply unmoved_cursorKept. intros st. unfold logEmail.
  destruct (logEmailOutcome E (logEmailCalls (world st))); split; reflexivity.
Qed.

Lemma delay_cursorOk (ms : Z) : keeps cursorKept (delay ms).
Proof. apply unmoved_cursorKept. intros st. split; reflexivity. Qed.

Lemma sendOne_cursorOk (campaign : ObjectId) (email : Email) :
  keeps cursorKept (sendOne E campaign email).
Proof.
  unfold sendOne, attempt, recordFailure.
  repeat (first
    [ exact getNextAvailableSmtp_cursorOk
    | apply getTransport_cursorOk
    | apply sendMail_cursorOk
    | apply logEmail_cursorOk
    | apply delay_cursorOk
    | apply keeps_bind; [exact cursorKept_trans | | intros ?; cbv beta]
    | apply keeps_tryCatch; [exact cursorKept_trans | | intros ?; cbv beta] ]).
Qed.

(** Every task of a batch is handled in a state whose cursor is an index
    into the queue, or whose queue is empty. *)
Lemma sendBulkEmails_cursorOk (campaign : ObjectId) (done : list Email)
    (st0 st : State) :
  sendBulkEmails E campaign done st0 = (Returns tt, st) -> cursorOk st.
Proof.
  unfold sendBulkEmails, bind.
  pose proof (refreshSmtpQueue_cursorOk st0) as Hr.
  destruct (refreshSmtpQueue st0) as [[[] | e |] s1]; cbn [snd] in Hr; try discriminate.
  revert s1 Hr. induction done as [| email done IH]; intros s1 Hr; simpl.
  - unfold ret. intros [= <-]. exact Hr.
  - unfold bind. pose proof (sendOne_cursorOk campaign email s1 Hr) as Hone.
    destruct (sendOne E campaign email s1) as [[[] | e |] s2]; cbn [snd] in Hone;
      try discriminate.
    apply IH. exact Hone.
Qed.

End CursorKept.

(** ** One iteration of the dispatch loop *)

Section OneTask.

Variable E : Env.
Variable campaign : ObjectId.
Variable email : Email.

Lemma sendingState_world (c : ISmtpConfig) (st1 : State) :
  world (sendingState E c email st1) = inFlight E (world st1).
Proof.
  unfold sendingState. cbn.
  destruct (getTransport_spec c st1) as (_ & Hw & _). rewrite Hw. reflexivity.
Qed.

Lemma sendingState_queue (c : ISmtpConfig) (st1 : State) :
  smtpQueue (sendingState E c email st1) = smtpQueue st1 /\
  currentSmtpIndex (sendingState E c email st1) = currentSmtpIndex st1.
Proof.
  unfold sendingState. cbn.
  destruct (getTransport_spec c st1) as (_ & _ & Hi & Hq & _).
  split; assumption.
Qed.

(** The [try] block up to the end of the [sendMail] call. *)
Lemma attempt_unfold (st st1 : State) (c : ISmtpConfig) :
  getNextAvailableSmtp st = (Returns c, st1) ->
  attempt E campaign email st =
  match sendMailOutcome E (sendMailCalls (world st)) with
  | Some e => (Throws e, sendingState E c email st1)
  | None =>
      (logEmail E (sentLog c campaign email);; delay RATE_LIMIT_DELAY)
        (sendingState E c email st1)
  end.
Proof.
  intros Hsel.
  assert (Hw1 : world st1 = world st).
  { rewrite <- (getNextAvailableSmtp_world st), Hsel. reflexivity. }
  unfold attempt. unfold bind at 1. rewrite Hsel.
  unfold bind at 1.
  destruct (getTransport_spec c st1) as (Hfst & Hw2 & _).
  destruct (getTransport c st1) as [r st2] eqn:Hget. cbn [fst snd] in *.
  subst r. unfold bind at 1. unfold sendMail at 1.
  unfold sendingState. rewrite Hget. cbn [snd].
  rewrite Hw2, Hw1.
  destruct (sendMailOutcome E (sendMailCalls (world st))); reflexivity.
Qed.

Lemma attempt_select_throws (st st1 : State) (e : Exn) :
  getNextAvailableSmtp st = (Throws e, st1) ->
  attempt E campaign email st = (Throws e, st1).
Proof. intros Hsel. unfold attempt, bind. rewrite Hsel. reflexivity. Qed.

Lemma attempt_send_throws (st st1 : State) (c : ISmtpConfig) (e : Exn) :
  getNextAvailableSmtp st = (Returns c, st1) ->
  sendMailOutcome E (sendMailCalls (world st)) = Some e ->
  attempt E campaign email st = (Throws e, sendingState E c email st1).
Proof. intros Hsel Hout. rewrite (attempt_unfold st st1 c Hsel), Hout. reflexivity. Qed.

Lemma attempt_log_throws (st st1 : State) (c : ISmtpConfig) (e : Exn) :
  getNextAvailableSmtp st = (Returns c, st1) ->
  sendMailOutcome E (sendMailCalls (world st)) = None ->
  logEmailOutcome E (logEmailCalls (world st)) = Some e ->
  attempt E campaign email st =
  (Throws e, loggingState (sentLog c campaign email) (sendingState E c email st1)).
Proof.
  intros Hsel Hout Hlog.
  assert (Hw1 : world st1 = world st).
  { rewrite <- (getNextAvailableSmtp_world st), Hsel. reflexivity. }
  rewrite (attempt_unfold st st1 c Hsel), Hout.
  unfold bind, logEmail. rewrite sendingState_world, Hw1. cbn [inFlight logEmailCalls].
  rewrite Hlog. unfold loggingState. rewrite sendingState_world, Hw1. reflexivity.
Qed.

Lemma attempt_returns (st st1 : State) (c : ISmtpConfig) :
  getNextAvailableSmtp st = (Returns c, st1) ->
  sendMailOutcome E (sendMailCalls (world st)) = None ->
  logEmailOutcome E (logEmailCalls (world st)) = None ->
  attempt E campaign email st =
  (Returns tt,
   delayedState RATE_LIMIT_DELAY
     (loggedState (sentLog c campaign email) (sendingState E c email st1))).
Proof.
  intros Hsel Hout Hlog.
  assert (Hw1 : world st1 = world st).
  { rewrite <- (getNextAvailableSmtp_world st), Hsel. reflexivity. }
  rewrite (attempt_unfold st st1 c Hsel), Hout.
  unfold bind, logEmail. rewrite sendingState_world, Hw1. cbn [inFlight logEmailCalls].
  rewrite Hlog. unfold delay, delayedState, loggedState, loggingState.
  rewrite sendingState_world, Hw1. reflexivity.
Qed.

Lemma recordFailure_select_throws (e e' : Exn) (sc s4 : State) :
  getNextAvailableSmtp sc = (Throws e', s4) ->
  recordFailure E campaign email e sc = (Throws e', s4).
Proof. intros Hsel. unfold recordFailure, bind. rewrite Hsel. reflexivity. Qed.

Lemma recordFailure_log_throws (e e' : Exn) (sc s4 : State) (c : ISmtpConfig) :
  getNextAvailableSmtp sc = (Returns c, s4) ->
  logEmailOutcome E (logEmailCalls (world sc)) = Some e' ->
  recordFailure E campaign email e sc =
  (Throws e', loggingState (failedLog c campaign email e) s4).
Proof.
  intros Hsel Hlog.
  assert (Hw : world s4 = world sc).
  { rewrite <- (getNextAvailableSmtp_world sc), Hsel. reflexivity. }
  unfold recordFailure, bind, logEmail. rewrite Hsel, Hw, Hlog.
  unfold loggingState. rewrite Hw. reflexivity.
Qed.

Lemma recordFailure_returns (e : Exn) (sc s4 : State) (c : ISmtpConfig) :
  getNextAvailableSmtp sc = (Returns c, s4) ->
  logEmailOutcome E (logEmailCalls (world sc)) = None ->
  recordFailure E campaign email e sc =
  (Returns tt,
   delayedState (RATE_LIMIT_DELAY * 2)
     (loggedState (failedLog c campaign email e) s4)).
Proof.
  intros Hsel Hlog.
  assert (Hw : world s4 = world sc).
  { rewrite <- (getNextAvailableSmtp_world sc), Hsel. reflexivity. }
  unfold recordFailure, bind, logEmail. rewrite Hsel, Hw, Hlog.
  unfold delay, delayedState, loggedState, loggingState. rewrite Hw. reflexivity.
Qed.

(** The loop body runs its [catch] block exactly when its [try] block
    throws, from the state in which it threw. *)
Lemma sendOne_catches (st sc : State) (e : Exn) :
  attempt E campaign email st = (Throws e, sc) ->
  sendOne E campaign email st = recordFailure E campaign email e sc.
Proof. intros Hthrow. unfold sendOne, tryCatch. rewrite Hthrow. reflexivity. Qed.

Lemma sendOne_passes (st st' : State) :
  attempt E campaign email st = (Returns tt, st') ->
  sendOne E campaign email st = (Returns tt, st').
Proof. intros Hret. unfold sendOne, tryCatch. rewrite Hret. reflexivity. Qed.

(** The loop goes on to the next task when the body returns, and stops
    with the error of the body when it throws. *)
Lemma forEachEmail_continues (rest : list Email) (st st' : State) :
  sendOne E campaign email st = (Returns tt, st') ->
  forEachEmail E campaign (email :: rest) st = forEachEmail E campaign rest st'.
Proof. intros Hone. simpl. unfold bind. rewrite Hone. reflexivity. Qed.

Lemma forEachEmail_aborts (rest : list Email) (st st' : State) (e : Exn) :
  sendOne E campaign email st = (Throws e, st') ->
  forEachEmail E campaign (email :: rest) st = (Throws e, st').
Proof. intros Hone. simpl. unfold bind. rewrite Hone. reflexivity. Qed.

End OneTask.

(** ** Failures of a single message *)

Lemma dailyCount_inFlight_quiet (E : Env) (w : World) (id : ObjectId) :
  sendMailMeanwhile E (sendMailCalls w) = [] ->
  dailyCount (inFlight E w) id = dailyCount w id.
Proof.
  intros Hquiet. unfold dailyCount, inFlight. cbn.
  rewrite Hquiet, app_nil_r. reflexivity.
Qed.

(** C2, counterexample. One server, two tasks; the send of the first task
    throws and the write of its [Failed] entry throws as well:
    [sendBulkEmails] rejects with the error of the write, the log holds no
    entry for the first task, and the second task is never attempted (a
    single [sendMail] call was made). *)
Lemma sendBulkEmails_failed_write_aborts :
  fst (attempt failedWriteEnv "c1" (emailTo "s1") (refreshed (oneServer 5 morning)))
    = Throws mailboxUnavailable /\
  fst (sendBulkEmails failedWriteEnv "c1" [emailTo "s1"; emailTo "s2"]
         (oneServer 5 morning)) = Throws connectionClosed /\
  emailLogs (world (snd (sendBulkEmails failedWriteEnv "c1"
                           [emailTo "s1"; emailTo "s2"] (oneServer 5 morning)))) = [] /\
  sendMailCalls (world (snd (sendBulkEmails failedWriteEnv "c1"
                               [emailTo "s1"; emailTo "s2"] (oneServer 5 morning)))) = 1.
Proof. repeat split; vm_compute; reflexivity. Qed.

(** C2, amended. For a task whose send attempt throws [e]: if the fresh
    server selection of the [catch] block returns and the write of the
    [Failed] entry does not throw, then the loop body returns, the one
    entry it has written is a [Failed] entry for that task with the text
    of [e] (after whatever other senders logged meanwhile), a single
    [logEmail] call was made, and the loop goes on to the next task.  The
    selection of the [catch] block does return, with the server of the
    attempt, when no other sender wrote to the log during the send. *)
Theorem sendOne_send_failure_logged (E : Env) (campaign : ObjectId)
    (email : Email) (rest : list Email) (st st1 : State) (c : ISmtpConfig) (e : Exn) :
  getNextAvailableSmtp st = (Returns c, st1) ->
  sendMailOutcome E (sendMailCalls (world st)) = Some e ->
  logEmailOutcome E (logEmailCalls (world st)) = None ->
  (forall c' s4,
     getNextAvailableSmtp (sendingState E c email st1) = (Returns c', s4) ->
     exists st',
       sendOne E campaign email st = (Returns tt, st') /\
       emailLogs (world st') =
         emailLogs (world st) ++ sendMailMeanwhile E (sendMailCalls (world st)) ++
         [{| entry := failedLog c' campaign email e; sentAt := clock (world st) |}] /\
       status (failedLog c' campaign email e) = "failed" /\
       error (failedLog c' campaign email e) = Some (errorText e) /\
       logSubscriberId (failedLog c' campaign email e) = subscriberId email /\
       logEmailCalls (world st') = S (logEmailCalls (world st)) /\
       forEachEmail E campaign (email :: rest) st = forEachEmail E campaign rest st') /\
  (sendMailMeanwhile E (sendMailCalls (world st)) = [] ->
   fst (getNextAvailableSmtp (sendingState E c email st1)) = Returns c).
Proof.
  intros Hsel Hsend Hlog.
  assert (Hw1 : world st1 = world st).
  { rewrite <- (getNextAvailableSmtp_world st), Hsel. reflexivity. }
  pose proof (attempt_send_throws E campaign email st st1 c e Hsel Hsend) as Hthrow.
  split.
  - intros c' s4 Hsel'.
    assert (Hw4 : world s4 = inFlight E (world st)).
    { rewrite <- Hw1, <- (sendingState_world E email c st1).
      rewrite <- (getNextAvailableSmtp_world (sendingState E c email st1)), Hsel'.
      reflexivity. }
    assert (Hone : sendOne E campaign email st =
              (Returns tt,
               delayedState (RATE_LIMIT_DELAY * 2)
                 (loggedState (failedLog c' campaign email e) s4))).
    { rewrite (sendOne_catches E campaign email st _ e Hthrow).
      apply recordFailure_returns; [exact Hsel' |].
      rewrite sendingState_world, Hw1. exact Hlog. }
    eexists. split; [exact Hone |].
    cbn [delayedState loggedState loggingState emit setWorld world advance
         storeLog countLogCall emailLogs logEmailCalls clock].
    rewrite Hw4. cbn [inFlight emailLogs logEmailCalls clock].
    repeat split.
    + rewrite <- app_assoc. reflexivity.
    + apply (forEachEmail_continues E campaign email rest st _ Hone).
  - intros Hquiet.
    destruct (getNextAvailableSmtp_returns st st1 c Hsel) as (Hcur & Hq).
    destruct (sendingState_queue E email c st1) as (Hqueue & Hindex).
    rewrite (getNextAvailableSmtp_sticky (sendingState E c email st1) c).
    + reflexivity.
    + rewrite Hqueue, Hindex. exact Hcur.
    + rewrite sendingState_world, Hw1. unfold underQuota in *.
      rewrite (dailyCount_inFlight_quiet E (world st) _ Hquiet). exact Hq.
Qed.

Lemma sendOne_send_failure_logged_witness :
  sendMailOutcome quotaRaceEnv (sendMailCalls (world (refreshed twoServers)))
    = Some mailboxUnavailable /\
  exists st',
    sendOne quotaRaceEnv "c1" (emailTo "s1") (refreshed twoServers) = (Returns tt, st') /\
    logEmailCalls (world st') = 1.
Proof.
  split; [reflexivity |].
  destruct (sendOne_send_failure_logged quotaRaceEnv "c1" (emailTo "s1") []
              (refreshed twoServers)
              (snd (getNextAvailableSmtp (refreshed twoServers)))
              (server "A" true 1) mailboxUnavailable)
    as [Hlogged _]; [vm_compute; reflexivity | reflexivity | reflexivity |].
  destruct (Hlogged (server "B" false 5)
              (snd (getNextAvailableSmtp
                      (sendingState quotaRaceEnv (server "A" true 1) (emailTo "s1")
                         (snd (getNextAvailableSmtp (refreshed twoServers)))))))
    as (st' & Hone & _ & _ & _ & _ & Hcalls & _); [vm_compute; reflexivity |].
  exists st'. split; [exact Hone | exact Hcalls].
Defined.

(** ** Batch-fatal errors *)

Lemma forEachEmail_app (E : Env) (campaign : ObjectId) (done rest : list Email)
    (st st' : State) :
  forEachEmail E campaign done st = (Returns tt, st') ->
  forEachEmail E campaign (done ++ rest) st = forEachEmail E campaign rest st'.
Proof.
  revert st. induction done as [| email done IH]; intros st; simpl.
  - unfold ret. intros [= <-]. reflexivity.
  - unfold bind.
    destruct (sendOne E campaign email st) as [[[] | e |] s1]; try discriminate.
    apply IH.
Qed.

Lemma sendBulkEmails_app (E : Env) (campaign : ObjectId) (done rest : list Email)
    (st0 st : State) :
  sendBulkEmails E campaign done st0 = (Returns tt, st) ->
  sendBulkEmails E campaign (done ++ rest) st0 = forEachEmail E campaign rest st.
Proof.
  unfold sendBulkEmails, bind. rewrite refreshSmtpQueue_spec.
  apply forEachEmail_app.
Qed.

(** C3. Let a batch have handled the tasks [done] and be at task [email],
    the tasks [rest] still to come.  If [getNextAvailableSmtp] then fails
    with [NoServersConfigured] or [AllQuotasExhausted], be it the
    selection of the [try] block or the fresh selection of the [catch]
    block after some other error [e0], then [sendBulkEmails] rejects with
    that error, and the world of the collaborators at the end is the one
    in which the failing selection was made: no [sendMail] call and no
    log entry has been added for [email] or for any task of [rest]. *)
Theorem sendBulkEmails_batch_fatal (E : Env) (campaign : ObjectId)
    (done : list Email) (email : Email) (rest : list Email)
    (st0 st : State) (e : Exn) :
  sendBulkEmails E campaign done st0 = (Returns tt, st) ->
  batchFatal e ->
  (forall st1,
     getNextAvailableSmtp st = (Throws e, st1) ->
     exists st',
       sendBulkEmails E campaign (done ++ email :: rest) st0 = (Throws e, st') /\
       world st' = world st) /\
  (forall e0 sc st1,
     attempt E campaign email st = (Throws e0, sc) ->
     getNextAvailableSmtp sc = (Throws e, st1) ->
     sendBulkEmails E campaign (done ++ email :: rest) st0 = (Throws e, st1) /\
     world st1 = world sc).
Proof.
  intros Hdone Hfatal.
  assert (Hcatch : forall e0 sc st1,
    attempt E campaign email st = (Throws e0, sc) ->
    getNextAvailableSmtp sc = (Throws e, st1) ->
    sendBulkEmails E campaign (done ++ email :: rest) st0 = (Throws e, st1) /\
    world st1 = world sc).
  { intros e0 sc st1 Hthrow Hsel. split.
    - rewrite (sendBulkEmails_app E campaign done _ st0 st Hdone).
      apply forEachEmail_aborts.
      rewrite (sendOne_catches E campaign email st sc e0 Hthrow).
      apply recordFailure_select_throws. exact Hsel.
    - rewrite <- (getNextAvailableSmtp_world sc), Hsel. reflexivity. }
  split; [| exact Hcatch].
  intros st1 Hsel.
  pose proof (getNextAvailableSmtp_throws_again st st1 e Hsel Hfatal) as Hagain.
  destruct (getNextAvailableSmtp st1) as [r st2] eqn:Hsel2. cbn [fst] in Hagain.
  subst r. exists st2.
  destruct (Hcatch e st1 st2) as (Hrun & Hw);
    [apply attempt_select_throws; exact Hsel | exact Hsel2 |].
  split; [exact Hrun |].
  rewrite Hw, <- (getNextAvailableSmtp_world st), Hsel. reflexivity.
Qed.

Lemma sendBulkEmails_batch_fatal_witness :
  batchFatal AllQuotasExhausted /\
  exists st',
    sendBulkEmails quietEnv "c1" [emailTo "s1"; emailTo "s2"; emailTo "s3"]
      (oneServer 1 morning) = (Throws AllQuotasExhausted, st') /\
    length (emailLogs (world st')) = 1 /\
    sendMailCalls (world st') = 1.
Proof.
  assert (Hfatal : batchFatal AllQuotasExhausted) by (right; reflexivity).
  split; [exact Hfatal |].
  destruct (sendBulkEmails_batch_fatal quietEnv "c1" [emailTo "s1"]
              (emailTo "s2") [emailTo "s3"] (oneServer 1 morning)
              (snd (sendBulkEmails quietEnv "c1" [emailTo "s1"] (oneServer 1 morning)))
              AllQuotasExhausted)
    as [Htry _]; [vm_compute; reflexivity | exact Hfatal |].
  destruct (Htry (snd (getNextAvailableSmtp
                         (snd (sendBulkEmails quietEnv "c1" [emailTo "s1"]
                                 (oneServer 1 morning))))))
    as (st' & Hrun & Hw); [vm_compute; reflexivity |].
  exists st'. split; [exact Hrun |]. rewrite Hw. split; reflexivity.
Defined.

(** ** The two blocks of the loop body, case by case *)

Section Blocks.

Variable E : Env.
Variable campaign : ObjectId.
Variable email : Email.

Lemma attempt_cases (st : State) :
  match getNextAvailableSmtp st with
  | (Returns c, st1) =>
      attempt E campaign email st =
      match sendMailOutcome E (sendMailCalls (world st)) with
      | Some e => (Throws e, sendingState E c email st1)
      | None =>
          match logEmailOutcome E (logEmailCalls (world st)) with
          | Some e =>
              (Throws e,
               loggingState (sentLog c campaign email) (sendingState E c email st1))
          | None =>
              (Returns tt,
               delayedState RATE_LIMIT_DELAY
                 (loggedState (sentLog c campaign email)
                    (sendingState E c email st1)))
          end
      end
  | (Throws e, st1) => attempt E campaign email st = (Throws e, st1)
  | (OutOfFuel, st1) => attempt E campaign email st = (OutOfFuel, st1)
  end.
Proof.
  destruct (getNextAvailableSmtp st) as [[c | e |] st1] eqn:Hsel.
  - destruct (sendMailOutcome E (sendMailCalls (world st))) as [e |] eqn:Hsend.
    + apply attempt_send_throws; assumption.
    + destruct (logEmailOutcome E (logEmailCalls (world st))) as [e |] eqn:Hlog.
      * apply attempt_log_throws; assumption.
      * apply attempt_returns; assumption.
  - apply attempt_select_throws. exact Hsel.
  - unfold attempt, bind. rewrite Hsel. reflexivity.
Qed.

Lemma recordFailure_cases (e : Exn) (sc : State) :
  match getNextAvailableSmtp sc with
  | (Returns c, s4) =>
      recordFailure E campaign email e sc =
      match logEmailOutcome E (logEmailCalls (world sc)) with
      | Some e' => (Throws e', loggingState (failedLog c campaign email e) s4)
      | None =>
          (Returns tt,
           delayedState (RATE_LIMIT_DELAY * 2)
             (loggedState (failedLog c campaign email e) s4))
      end
  | (Throws e', s4) => recordFailure E campaign email e sc = (Throws e', s4)
  | (OutOfFuel, s4) => recordFailure E campaign email e sc = (OutOfFuel, s4)
  end.
Proof.
  destruct (getNextAvailableSmtp sc) as [[c | e' |] s4] eqn:Hsel.
  - destruct (logEmailOutcome E (logEmailCalls (world sc))) as [e' |] eqn:Hlog.
    + apply recordFailure_log_throws; assumption.
    + apply recordFailure_returns; assumption.
  - apply recordFailure_select_throws. exact Hsel.
  - unfold recordFailure, bind. rewrite Hsel. reflexivity.
Qed.

Lemma timeKept_trans (a b c : State) : timeKept a b -> timeKept b c -> timeKept a c.
Proof. intros [H1 H2] [H3 H4]. split; congruence. Qed.

Lemma timeKept_getNextAvailableSmtp (st : State) :
  timeKept st (snd (getNextAvailableSmtp st)).
Proof.
  destruct (getNextAvailableSmtp_frame st) as (Hw & _ & _ & Hd).
  split; [rewrite Hw; reflexivity | exact Hd].
Qed.

Lemma timeKept_sendingState (c : ISmtpConfig) (st1 : State) :
  timeKept st1 (sendingState E c email st1).
Proof.
  split.
  - rewrite sendingState_world. reflexivity.
  - unfold sendingState. cbn [trace emit setWorld]. rewrite delaysOf_app.
    destruct (getTransport_spec c st1) as (_ & _ & _ & _ & Hd & _).
    rewrite Hd. simpl. apply app_nil_r.
Qed.

Lemma timeKept_loggingState (l : InsertLog) (st : State) :
  timeKept st (loggingState l st).
Proof.
  split; [reflexivity |].
  unfold loggingState. cbn [trace emit setWorld]. rewrite delaysOf_app.
  simpl. apply app_nil_r.
Qed.

Lemma timeKept_loggedState (l : InsertLog) (st : State) :
  timeKept st (loggedState l st).
Proof.
  split; [reflexivity |].
  unfold loggedState, loggingState. cbn [trace emit setWorld].
  rewrite delaysOf_app. simpl. apply app_nil_r.
Qed.

Lemma delayedState_time (ms : Z) (st : State) :
  clock (world (delayedState ms st)) = (clock (world st) + ms)%Z /\
  delaysOf (trace (delayedState ms st)) = delaysOf (trace st) ++ [ms].
Proof.
  split; [reflexivity |].
  unfold delayedState. cbn [trace emit setWorld]. rewrite delaysOf_app.
  reflexivity.
Qed.

(** A [try] block that throws has not waited. *)
Lemma attempt_throws_timeKept (st sc : State) (e : Exn) :
  attempt E campaign email st = (Throws e, sc) -> timeKept st sc.
Proof.
  intros Hthrow. pose proof (attempt_cases st) as Hcases.
  pose proof (timeKept_getNextAvailableSmtp st) as Hsel.
  destruct (getNextAvailableSmtp st) as [[c | e' |] st1]; cbn [snd] in Hsel;
    rewrite Hcases in Hthrow.
  - destruct (sendMailOutcome E (sendMailCalls (world st))).
    + injection Hthrow as _ <-.
      exact (timeKept_trans _ _ _ Hsel (timeKept_sendingState c st1)).
    + destruct (logEmailOutcome E (logEmailCalls (world st))); [| discriminate].
      injection Hthrow as _ <-.
      exact (timeKept_trans _ _ _ Hsel
               (timeKept_trans _ _ _ (timeKept_sendingState c st1)
                  (timeKept_loggingState _ _))).
  - injection Hthrow as _ <-. exact Hsel.
  - discriminate.
Qed.

End Blocks.

(** ** The server named in a [Failed] entry *)

(** C7. When the send of a task throws, after server [c] was selected and
    [sendMail] was called on its transporter with its sender header, the
    loop body runs its [catch] block, whose [Failed] entry names the
    server [c'] that a fresh [getNextAvailableSmtp] returns in the state
    in which the send ended, not [c].  There are executions in which the
    two differ: another sender has used up the quota of [c] while the send
    was in flight. *)
Theorem failed_entry_names_reselected_server :
  (forall (E : Env) (campaign : ObjectId) (email : Email) (st st1 : State)
          (c : ISmtpConfig) (e : Exn),
     getNextAvailableSmtp st = (Returns c, st1) ->
     sendMailOutcome E (sendMailCalls (world st)) = Some e ->
     attempt E campaign email st = (Throws e, sendingState E c email st1) /\
     trace (sendingState E c email st1) =
       trace (snd (getTransport c st1)) ++
       [EvSendMail (transportFor c st1) (mailFor c email)] /\
     sendOne E campaign email st =
       recordFailure E campaign email e (sendingState E c email st1) /\
     forall c' s4,
       getNextAvailableSmtp (sendingState E c email st1) = (Returns c', s4) ->
       logEmailOutcome E (logEmailCalls (world st)) = None ->
       exists st',
         sendOne E campaign email st = (Returns tt, st') /\
         emailLogs (world st') =
           emailLogs (world (sendingState E c email st1)) ++
           [{| entry := failedLog c' campaign email e; sentAt := clock (world st) |}] /\
         smtpConfigId (failedLog c' campaign email e) = _id c') /\
  (exists (E : Env) (campaign : ObjectId) (email : Email) (st st1 s4 : State)
          (c c' : ISmtpConfig) (e : Exn),
     getNextAvailableSmtp st = (Returns c, st1) /\
     sendMailOutcome E (sendMailCalls (world st)) = Some e /\
     getNextAvailableSmtp (sendingState E c email st1) = (Returns c', s4) /\
     logEmailOutcome E (logEmailCalls (world st)) = None /\
     _id c' <> _id c).
Proof.
  split.
  - intros E campaign email st st1 c e Hsel Hsend.
    assert (Hw1 : world st1 = world st).
    { rewrite <- (getNextAvailableSmtp_world st), Hsel. reflexivity. }
    pose proof (attempt_send_throws E campaign email st st1 c e Hsel Hsend) as Hthrow.
    split; [exact Hthrow |]. split; [reflexivity |].
    split; [apply sendOne_catches; exact Hthrow |].
    intros c' s4 Hsel' Hlog.
    assert (Hw4 : world s4 = world (sendingState E c email st1)).
    { rewrite <- (getNextAvailableSmtp_world (sendingState E c email st1)), Hsel'.
      reflexivity. }
    eexists. split.
    + rewrite (sendOne_catches E campaign email st _ e Hthrow).
      apply recordFailure_returns; [exact Hsel' |].
      rewrite sendingState_world, Hw1. exact Hlog.
    + cbn [delayedState loggedState loggingState emit setWorld world advance
           storeLog countLogCall emailLogs clock].
      rewrite Hw4, sendingState_world, Hw1. split; reflexivity.
  - exists quotaRaceEnv, "c1", (emailTo "s1"), (refreshed twoServers),
      (snd (getNextAvailableSmtp (refreshed twoServers))),
      (snd (getNextAvailableSmtp
              (sendingState quotaRaceEnv (server "A" true 1) (emailTo "s1")
                 (snd (getNextAvailableSmtp (refreshed twoServers)))))),
      (server "A" true 1), (server "B" false 5), mailboxUnavailable.
    split; [vm_compute; reflexivity |]. split; [reflexivity |].
    split; [vm_compute; reflexivity |]. split; [reflexivity |].
    discriminate.
Qed.

Lemma failed_entry_names_reselected_server_witness :
  exists st',
    sendOne quotaRaceEnv "c1" (emailTo "s1") (refreshed twoServers) = (Returns tt, st') /\
    map (fun l => (smtpConfigId (entry l), status (entry l))) (emailLogs (world st'))
      = [("A", "sent"); ("B", "failed")].
Proof.
  destruct failed_entry_names_reselected_server as [Hall _].
  destruct (Hall quotaRaceEnv "c1" (emailTo "s1") (refreshed twoServers)
              (snd (getNextAvailableSmtp (refreshed twoServers)))
              (server "A" true 1) mailboxUnavailable)
    as (_ & _ & _ & Hnames); [vm_compute; reflexivity | reflexivity |].
  destruct (Hnames (server "B" false 5)
              (snd (getNextAvailableSmtp
                      (sendingState quotaRaceEnv (server "A" true 1) (emailTo "s1")
                         (snd (getNextAvailableSmtp (refreshed twoServers)))))))
    as (st' & Hone & Hlogs & _); [vm_compute; reflexivity | reflexivity |].
  exists st'. split; [exact Hone |]. rewrite Hlogs. vm_compute. reflexivity.
Defined.

(** ** Pacing *)

(** C8, counterexample. One server, the message of the first task is
    delivered ([sendMail] returns) but the write of its [Sent] entry
    throws: the loop body returns after a single wait of 4000 ms, twice
    the pacing delay, not 2000 ms. *)
Lemma sendOne_delivered_yet_waits_twice :
  sendMailOutcome sentWriteFailsEnv
    (sendMailCalls (world (refreshed (oneServer 5 morning)))) = None /\
  fst (sendOne sentWriteFailsEnv "c1" (emailTo "s1") (refreshed (oneServer 5 morning)))
    = Returns tt /\
  sendMailCalls
    (world (snd (sendOne sentWriteFailsEnv "c1" (emailTo "s1")
                   (refreshed (oneServer 5 morning))))) = 1 /\
  delaysOf
    (trace (snd (sendOne sentWriteFailsEnv "c1" (emailTo "s1")
                   (refreshed (oneServer 5 morning))))) = [4000%Z] /\
  clock
    (world (snd (sendOne sentWriteFailsEnv "c1" (emailTo "s1")
                   (refreshed (oneServer 5 morning))))) = (morning + 4000)%Z.
Proof. repeat split; vm_compute; reflexivity. Qed.

(** C8, amended. Whenever the loop body returns, so that the loop goes on
    to the next task, it has made exactly one [delay] call, the last thing
    it did, and the clock has advanced by its amount [ms], which is at
    least the pacing delay of 2000 ms: exactly the pacing delay when the
    [try] block returned, which after a successful selection means that
    the send and the write of the [Sent] entry both succeeded, and exactly
    twice the pacing delay when the [try] block threw and the [catch]
    block ran. *)
Theorem sendOne_pacing (E : Env) (campaign : ObjectId) (email : Email)
    (rest : list Email) (st st' : State) :
  sendOne E campaign email st = (Returns tt, st') ->
  forEachEmail E campaign (email :: rest) st = forEachEmail E campaign rest st' /\
  RATE_LIMIT_DELAY = 2000%Z /\
  exists ms,
    delaysOf (trace st') = delaysOf (trace st) ++ [ms] /\
    (exists tr, trace st' = tr ++ [EvDelay ms]) /\
    clock (world st') = (clock (world st) + ms)%Z /\
    (RATE_LIMIT_DELAY <= ms)%Z /\
    ((fst (attempt E campaign email st) = Returns tt /\ ms = RATE_LIMIT_DELAY) \/
     ((exists e, fst (attempt E campaign email st) = Throws e) /\
      ms = (RATE_LIMIT_DELAY * 2)%Z)) /\
    (forall c st1,
       getNextAvailableSmtp st = (Returns c, st1) ->
       (fst (attempt E campaign email st) = Returns tt <->
        sendMailOutcome E (sendMailCalls (world st)) = None /\
        logEmailOutcome E (logEmailCalls (world st)) = None)).
Proof.
  intros Hone.
  split; [apply forEachEmail_continues; exact Hone |]. split; [reflexivity |].
  assert (Hiff : forall c st1,
    getNextAvailableSmtp st = (Returns c, st1) ->
    (fst (attempt E campaign email st) = Returns tt <->
     sendMailOutcome E (sendMailCalls (world st)) = None /\
     logEmailOutcome E (logEmailCalls (world st)) = None)).
  { intros c st1 Hsel. pose proof (attempt_cases E campaign email st) as Hcases.
    rewrite Hsel in Hcases. rewrite Hcases.
    destruct (sendMailOutcome E (sendMailCalls (world st)));
      [split; [discriminate | intros [? _]; discriminate] |].
    destruct (logEmailOutcome E (logEmailCalls (world st)));
      [split; [discriminate | intros [_ ?]; discriminate] |].
    split; [intros _; split; reflexivity | reflexivity]. }
  destruct (attempt E campaign email st) as [[[] | e |] sc] eqn:Hattempt.
  - (* the try block returned *)
    rewrite (sendOne_passes E campaign email st sc Hattempt) in Hone.
    injection Hone as <-.
    exists RATE_LIMIT_DELAY.
    pose proof (attempt_cases E campaign email st) as Hcases.
    pose proof (timeKept_getNextAvailableSmtp st) as Hsel.
    destruct (getNextAvailableSmtp st) as [[c | e |] st1]; cbn [snd] in Hsel;
      rewrite Hattempt in Hcases; try discriminate.
    destruct (sendMailOutcome E (sendMailCalls (world st))); [discriminate |].
    destruct (logEmailOutcome E (logEmailCalls (world st))); [discriminate |].
    injection Hcases as ->.
    destruct (timeKept_trans _ _ _ Hsel
                (timeKept_trans _ _ _ (timeKept_sendingState E email c st1)
                   (timeKept_loggedState (sentLog c campaign email) _)))
      as (Hclock & Hdelays).
    destruct (delayedState_time RATE_LIMIT_DELAY
                (loggedState (sentLog c campaign email) (sendingState E c email st1)))
      as (Hc & Hd).
    rewrite Hc, Hd, Hclock, Hdelays.
    split; [reflexivity |]. split; [eexists; reflexivity |].
    split; [reflexivity |]. split; [unfold RATE_LIMIT_DELAY; lia |].
    split; [left; split; reflexivity | exact Hiff].
  - (* the try block threw, the catch block ran and returned *)
    rewrite (sendOne_catches E campaign email st sc e Hattempt) in Hone.
    exists (RATE_LIMIT_DELAY * 2)%Z.
    pose proof (recordFailure_cases E campaign email e sc) as Hcases.
    pose proof (timeKept_getNextAvailableSmtp sc) as Hsel.
    destruct (getNextAvailableSmtp sc) as [[c | e' |] s4]; cbn [snd] in Hsel;
      rewrite Hone in Hcases; try discriminate.
    destruct (logEmailOutcome E (logEmailCalls (world sc))); [discriminate |].
    injection Hcases as ->.
    destruct (timeKept_trans _ _ _ (attempt_throws_timeKept E campaign email st sc e Hattempt)
                (timeKept_trans _ _ _ Hsel
                   (timeKept_loggedState (failedLog c campaign email e) s4)))
      as (Hclock & Hdelays).
    destruct (delayedState_time (RATE_LIMIT_DELAY * 2)
                (loggedState (failedLog c campaign email e) s4))
      as (Hc & Hd).
    rewrite Hc, Hd, Hclock, Hdelays.
    split; [reflexivity |]. split; [eexists; reflexivity |].
    split; [reflexivity |]. split; [unfold RATE_LIMIT_DELAY; lia |].
    split; [right; split; [eexists |]; reflexivity | exact Hiff].
  - (* the loop of the selection ran out of fuel: the body did not return *)
    unfold sendOne, tryCatch in Hone. rewrite Hattempt in Hone. discriminate.
Qed.

Lemma sendOne_pacing_witness :
  exists ms,
    delaysOf (trace (snd (sendOne quietEnv "c1" (emailTo "s1")
                            (refreshed (oneServer 5 morning)))))
      = [] ++ [ms] /\
    ms = 2000%Z.
Proof.
  destruct (sendOne_pacing quietEnv "c1" (emailTo "s1") []
              (refreshed (oneServer 5 morning))
              (snd (sendOne quietEnv "c1" (emailTo "s1")
                      (refreshed (oneServer 5 morning)))))
    as (_ & _ & ms & Hd & _ & _ & _ & [[_ Hms] | [[e He] _]] & _);
    [vm_compute; reflexivity | | vm_compute in He; discriminate].
  exists ms. split; [exact Hd | exact Hms].
Defined.

(** ** A delivered message whose [Sent] entry cannot be written *)

(** C10, counterexample. One server, every message is delivered, every
    [logEmail] call rejects: the message of the first task is handed to
    the transport, the write of its [Sent] entry throws, and so does the
    write of the [Failed] entry in the [catch] block; [sendBulkEmails]
    rejects and the log holds no entry at all for that task. *)
Lemma sendBulkEmails_delivered_and_unlogged :
  sendMailOutcome storageDownEnv
    (sendMailCalls (world (refreshed (oneServer 5 morning)))) = None /\
  logEmailOutcome storageDownEnv
    (logEmailCalls (world (refreshed (oneServer 5 morning)))) = Some connectionClosed /\
  fst (sendBulkEmails storageDownEnv "c1" [emailTo "s1"; emailTo "s2"]
         (oneServer 5 morning)) = Throws connectionClosed /\
  sendMailCalls
    (world (snd (sendBulkEmails storageDownEnv "c1" [emailTo "s1"; emailTo "s2"]
                   (oneServer 5 morning)))) = 1 /\
  emailLogs
    (world (snd (sendBulkEmails storageDownEnv "c1" [emailTo "s1"; emailTo "s2"]
                   (oneServer 5 morning)))) = [].
Proof. repeat split; vm_compute; reflexivity. Qed.

(** C10, amended. When the message of a task is handed to the transport
    and the write of its [Sent] entry throws [e], the [try] block throws
    [e] with no entry written, and the loop body runs its [catch] block
    with [e].  Whatever happens there, the entries that the body adds to
    the log for the task are none or a single [Failed] one, never a [Sent]
    one.  When the selection of the [catch] block returns [c'] and its own
    [logEmail] call, the next one, does not throw, the body returns having
    written exactly one entry, [Failed], with the text of [e]. *)
Theorem sendOne_sent_write_failure (E : Env) (campaign : ObjectId) (email : Email)
    (st st1 : State) (c : ISmtpConfig) (e : Exn) :
  getNextAvailableSmtp st = (Returns c, st1) ->
  sendMailOutcome E (sendMailCalls (world st)) = None ->
  logEmailOutcome E (logEmailCalls (world st)) = Some e ->
  let sc := loggingState (sentLog c campaign email) (sendingState E c email st1) in
  attempt E campaign email st = (Throws e, sc) /\
  emailLogs (world sc) =
    emailLogs (world st) ++ sendMailMeanwhile E (sendMailCalls (world st)) /\
  sendMailCalls (world sc) = S (sendMailCalls (world st)) /\
  sendOne E campaign email st = recordFailure E campaign email e sc /\
  (exists added,
     emailLogs (world (snd (sendOne E campaign email st))) =
       emailLogs (world sc) ++ added /\
     (added = [] \/
      exists c', added = [{| entry := failedLog c' campaign email e;
                            sentAt := clock (world st) |}])) /\
  (forall c' s4,
     getNextAvailableSmtp sc = (Returns c', s4) ->
     logEmailOutcome E (S (logEmailCalls (world st))) = None ->
     exists st',
       sendOne E campaign email st = (Returns tt, st') /\
       emailLogs (world st') =
         emailLogs (world sc) ++
         [{| entry := failedLog c' campaign email e; sentAt := clock (world st) |}] /\
       status (failedLog c' campaign email e) = "failed" /\
       error (failedLog c' campaign email e) = Some (errorText e)).
Proof.
  intros Hsel Hsend Hlog sc.
  assert (Hw1 : world st1 = world st).
  { rewrite <- (getNextAvailableSmtp_world st), Hsel. reflexivity. }
  pose proof (attempt_log_throws E campaign email st st1 c e Hsel Hsend Hlog) as Hthrow.
  fold sc in Hthrow.
  assert (Hwc : world sc = countLogCall (inFlight E (world st))).
  { unfold sc, loggingState. cbn [world emit setWorld].
    rewrite sendingState_world, Hw1. reflexivity. }
  assert (Hone : sendOne E campaign email st = recordFailure E campaign email e sc)
    by (apply sendOne_catches; exact Hthrow).
  split; [exact Hthrow |]. split; [rewrite Hwc; reflexivity |].
  split; [rewrite Hwc; reflexivity |]. split; [exact Hone |].
  pose proof (recordFailure_cases E campaign email e sc) as Hcases.
  pose proof (getNextAvailableSmtp_world sc) as Hw4.
  split.
  - rewrite Hone.
    destruct (getNextAvailableSmtp sc) as [[c' | e' |] s4]; cbn [snd] in Hw4;
      rewrite Hcases.
    + destruct (logEmailOutcome E (logEmailCalls (world sc))).
      * exists []. cbn [snd loggingState world emit setWorld countLogCall emailLogs].
        rewrite Hw4, app_nil_r. split; [reflexivity | left; reflexivity].
      * eexists. split; [| right; exists c'; reflexivity].
        cbn [snd delayedState loggedState loggingState world emit setWorld
             advance storeLog countLogCall emailLogs clock].
        rewrite Hw4, Hwc. reflexivity.
    + exists []. cbn [snd]. rewrite Hw4, app_nil_r.
      split; [reflexivity | left; reflexivity].
    + exists []. cbn [snd]. rewrite Hw4, app_nil_r.
      split; [reflexivity | left; reflexivity].
  - intros c' s4 Hsel' Hlog'.
    rewrite Hsel' in Hcases, Hw4. cbn [snd] in Hw4.
    rewrite Hwc in Hcases at 1. cbn [countLogCall logEmailCalls inFlight] in Hcases.
    rewrite Hlog' in Hcases.
    eexists. split; [rewrite Hone; exact Hcases |].
    cbn [delayedState loggedState loggingState world emit setWorld
         advance storeLog countLogCall emailLogs clock].
    rewrite Hw4, Hwc. repeat split.
Qed.

Lemma sendOne_sent_write_failure_witness :
  exists st',
    sendOne sentWriteFailsEnv "c1" (emailTo "s1") (refreshed (oneServer 5 morning))
      = (Returns tt, st') /\
    map (fun l => (status (entry l), error (entry l))) (emailLogs (world st'))
      = [("failed", Some "connection closed")].
Proof.
  destruct (sendOne_sent_write_failure sentWriteFailsEnv "c1" (emailTo "s1")
              (refreshed (oneServer 5 morning))
              (snd (getNextAvailableSmtp (refreshed (oneServer 5 morning))))
              (server "A" true 5) connectionClosed)
    as (_ & _ & _ & _ & _ & Hfailed);
    [vm_compute; reflexivity | reflexivity | reflexivity |].
  destruct (Hfailed (server "A" true 5)
              (snd (getNextAvailableSmtp
                      (loggingState (sentLog (server "A" true 5) "c1" (emailTo "s1"))
                         (sendingState sentWriteFailsEnv (server "A" true 5)
                            (emailTo "s1")
                            (snd (getNextAvailableSmtp
                                    (refreshed (oneServer 5 morning)))))))))
    as (st' & Hone & Hlogs & _); [vm_compute; reflexivity | reflexivity |].
  exists st'. split; [exact Hone |]. rewrite Hlogs. vm_compute. reflexivity.
Defined.

(** ** A single server and its daily quota *)

Lemma startOfDay_le (o t : Z) : (startOfDay o t <= t)%Z.
Proof.
  unfold startOfDay, msPerDay.
  pose proof (Z.mod_pos_bound (t + o) 86400000 ltac:(lia)). lia.
Qed.

Lemma startOfDay_div (o t : Z) :
  startOfDay o t = (msPerDay * ((t + o) / msPerDay) - o)%Z.
Proof.
  unfold startOfDay, msPerDay.
  pose proof (Z.div_mod (t + o) 86400000 ltac:(lia)). lia.
Qed.

(** Between two instants of one local day lies that day. *)
Lemma startOfDay_between (o a b c : Z) :
  (a <= b <= c)%Z ->
  startOfDay o c = startOfDay o a -> startOfDay o b = startOfDay o a.
Proof.
  rewrite !startOfDay_div. unfold msPerDay. intros [Hab Hbc] Hday.
  pose proof (Z.div_le_mono (a + o) (b + o) 86400000 ltac:(lia) ltac:(lia)).
  pose proof (Z.div_le_mono (b + o) (c + o) 86400000 ltac:(lia) ltac:(lia)).
  lia.
Qed.

(** The daily count of a server after one more message sent through it and
    logged, the pacing delay later on the same day. *)
Lemma dailyCount_after_sent (E : Env) (w : World) (s : ISmtpConfig)
    (campaign : ObjectId) (email : Email) (d : Z) :
  sendMailMeanwhile E (sendMailCalls w) = [] ->
  startOfDay (zoneOffset w) (clock w + d) = startOfDay (zoneOffset w) (clock w) ->
  dailyCount
    (advance d
       (storeLog {| entry := sentLog s campaign email; sentAt := clock w |}
          (countLogCall (inFlight E w))))
    (_id s)
  = (dailyCount w (_id s) + 1)%Z.
Proof.
  intros Hquiet Hday. unfold dailyCount.
  cbn [advance storeLog countLogCall inFlight emailLogs clock zoneOffset].
  rewrite Hquiet, app_nil_r, Hday, List.filter_app, length_app.
  cbn [List.filter]. unfold countsToday at 2.
  cbn [entry sentLog smtpConfigId status sentAt].
  rewrite String.eqb_refl.
  replace (startOfDay (zoneOffset w) (clock w) <=? clock w)%Z with true
    by (symmetry; apply Z.leb_le, startOfDay_le).
  cbn. lia.
Qed.

Lemma getNextAvailableSmtp_exhausted (st : State) :
  validCursor st ->
  (forall c, In c (smtpQueue st) -> underQuota (world st) c = false) ->
  getNextAvailableSmtp st = (Throws AllQuotasExhausted, allExamined st).
Proof.
  intros Hvalid Hall.
  assert (Hn : 0 < length (smtpQueue st)) by (unfold validCursor in Hvalid; lia).
  rewrite (getNextAvailableSmtp_nonempty st Hn).
  destruct (scanLoop_total st Hvalid)
    as [(k & c & Hk & Hc & Hq & _) | (_ & Hrun)].
  - exfalso.
    assert (Hin : In c (smtpQueue st)).
    { apply list_elem_of_In, list_elem_of_lookup. eexists. exact Hc. }
    rewrite (Hall c Hin) in Hq. discriminate.
  - apply Hrun. lia.
Qed.

(** A selection that fails in the [try] block stops the loop at once. *)
Lemma forEachEmail_selection_fails (E : Env) (campaign : ObjectId)
    (email : Email) (rest : list Email) (st st1 : State) (e : Exn) :
  getNextAvailableSmtp st = (Throws e, st1) ->
  batchFatal e ->
  exists st',
    forEachEmail E campaign (email :: rest) st = (Throws e, st') /\
    world st' = world st.
Proof.
  intros Hsel Hfatal.
  pose proof (getNextAvailableSmtp_throws_again st st1 e Hsel Hfatal) as Hagain.
  pose proof (getNextAvailableSmtp_world st1) as Hw2.
  destruct (getNextAvailableSmtp st1) as [r st2] eqn:Hsel2.
  cbn [fst snd] in Hagain, Hw2. subst r. exists st2. split.
  - apply forEachEmail_aborts.
    rewrite (sendOne_catches E campaign email st st1 e
               (attempt_select_throws E campaign email st st1 e Hsel)).
    apply recordFailure_select_throws. exact Hsel2.
  - rewrite Hw2, <- (getNextAvailableSmtp_world st), Hsel. reflexivity.
Qed.

Lemma inject_Z_succ_nat (r : nat) :
  (inject_Z (Z.of_nat (S r)) == inject_Z (Z.of_nat r) + 1)%Q.
Proof. rewrite Nat2Z.inj_succ, <- Z.add_1_r, inject_Z_plus. reflexivity. Qed.

Lemma inject_Z_nat_nonneg (r : nat) : (0 <= inject_Z (Z.of_nat r))%Q.
Proof. change 0%Q with (inject_Z 0). rewrite <- Zle_Qle. lia. Qed.

Section SingleServer.

Variable E : Env.
Variable campaign : ObjectId.
Variable s : ISmtpConfig.
Hypothesis E_quiet : quiet E.

(** The loop over a queue that holds server [s] alone, [r] messages short
    of its daily limit, with more than [r] tasks to go and [r] pacing
    delays left in the day. *)
Lemma forEachEmail_single_server :
  forall (r : nat) (emails : list Email) (st : State),
    smtpQueue st = [s] ->
    currentSmtpIndex st = 0 ->
    (inject_Z (dailyCount (world st) (_id s)) + inject_Z (Z.of_nat r)
     == dailyLimit s)%Q ->
    r < length emails ->
    startOfDay (zoneOffset (world st))
               (clock (world st) + RATE_LIMIT_DELAY * Z.of_nat r)
      = startOfDay (zoneOffset (world st)) (clock (world st)) ->
    exists st',
      forEachEmail E campaign emails st = (Throws AllQuotasExhausted, st') /\
      emailLogs (world st') =
        emailLogs (world st) ++
        sentEntries s campaign (firstn r emails) (clock (world st)) /\
      sendMailCalls (world st') = sendMailCalls (world st) + r /\
      logEmailCalls (world st') = logEmailCalls (world st) + r.
Proof.
  induction r as [| r IH]; intros emails st Hqueue Hcursor Hcount Hlen Hday;
    (destruct emails as [| email rest]; [simpl in Hlen; lia |]).
  - destruct (forEachEmail_selection_fails E campaign email rest st (allExamined st)
                AllQuotasExhausted) as (st' & Hrun & Hw).
    + apply getNextAvailableSmtp_exhausted.
      * unfold validCursor. rewrite Hqueue, Hcursor. simpl. lia.
      * rewrite Hqueue. intros c [<- | []]. apply underQuota_ge.
        change (inject_Z (Z.of_nat 0)) with 0%Q in Hcount. lra.
    + right. reflexivity.
    + exists st'. rewrite Hw. cbn [firstn sentEntries].
      rewrite app_nil_r, !Nat.add_0_r. repeat split. exact Hrun.
  - destruct (E_quiet (sendMailCalls (world st))) as (Hsend & Hmeanwhile & _).
    destruct (E_quiet (logEmailCalls (world st))) as (_ & _ & Hlog).
    assert (Hsel : getNextAvailableSmtp st =
              (Returns s, emit (EvGetSmtpDailyCount (_id s)) st)).
    { apply getNextAvailableSmtp_sticky.
      - rewrite Hqueue, Hcursor. reflexivity.
      - apply underQuota_lt.
        pose proof (inject_Z_succ_nat r). pose proof (inject_Z_nat_nonneg r). lra. }
    pose proof (attempt_returns E campaign email st _ s Hsel Hsend Hlog) as Hattempt.
    pose proof (sendOne_passes E campaign email st _ Hattempt) as Hone.
    rewrite (forEachEmail_continues E campaign email rest st _ Hone).
    set (st1 := emit (EvGetSmtpDailyCount (_id s)) st) in *.
    set (st' := delayedState RATE_LIMIT_DELAY
                  (loggedState (sentLog s campaign email)
                     (sendingState E s email st1))) in *.
    destruct (sendingState_queue E email s st1) as (Hq1 & Hi1).
    assert (Hw' : world st' =
              advance RATE_LIMIT_DELAY
                (storeLog {| entry := sentLog s campaign email;
                             sentAt := clock (world st) |}
                   (countLogCall (inFlight E (world st))))).
    { unfold st', delayedState, loggedState, loggingState.
      cbn [world emit setWorld]. rewrite sendingState_world. reflexivity. }
    assert (Hday1 : startOfDay (zoneOffset (world st))
                               (clock (world st) + RATE_LIMIT_DELAY)
                    = startOfDay (zoneOffset (world st)) (clock (world st))).
    { apply (startOfDay_between _ _ _
               (clock (world st) + RATE_LIMIT_DELAY * Z.of_nat (S r)));
        [unfold RATE_LIMIT_DELAY; lia | exact Hday]. }
    destruct (IH rest st') as (st'' & Hrun & Hlogs & Hsends & Hwrites).
    + unfold st', delayedState, loggedState, loggingState.
      cbn [smtpQueue emit setWorld]. rewrite Hq1. exact Hqueue.
    + unfold st', delayedState, loggedState, loggingState.
      cbn [currentSmtpIndex emit setWorld]. rewrite Hi1. exact Hcursor.
    + rewrite Hw', (dailyCount_after_sent E (world st) s campaign email _
                      Hmeanwhile Hday1), inject_Z_plus.
      change (inject_Z 1) with 1%Q. pose proof (inject_Z_succ_nat r). lra.
    + simpl in Hlen. lia.
    + rewrite Hw'. cbn [advance clock zoneOffset storeLog countLogCall inFlight].
      rewrite Hday1, <- Hday. f_equal. lia.
    + exists st''. split; [exact Hrun |].
      rewrite Hlogs, Hsends, Hwrites, Hw'.
      cbn [advance clock storeLog countLogCall inFlight emailLogs
           sendMailCalls logEmailCalls firstn sentEntries].
      rewrite Hmeanwhile, app_nil_r, <- app_assoc.
      split; [reflexivity |]. split; lia.
Qed.

End SingleServer.

Lemma refreshedQueue_single (s : ISmtpConfig) : refreshedQueue [s] = [s].
Proof.
  unfold refreshedQueue. cbn [List.find List.filter].
  destruct (isDefault s); reflexivity.
Qed.

Lemma sentEntries_length (s : ISmtpConfig) (campaign : ObjectId)
    (emails : list Email) (t0 : Z) :
  length (sentEntries s campaign emails t0) = length emails.
Proof.
  revert t0. induction emails as [| email rest IH]; intros t0; simpl;
    [reflexivity | rewrite IH; reflexivity].
Qed.

Lemma sentEntries_sent (s : ISmtpConfig) (campaign : ObjectId)
    (emails : list Email) (t0 : Z) :
  Forall (fun l => smtpConfigId (entry l) = _id s /\ status (entry l) = "sent")
    (sentEntries s campaign emails t0).
Proof.
  revert t0. induction emails as [| email rest IH]; intros t0; simpl;
    constructor; [split; reflexivity | apply IH].
Qed.



Lemma quietEnv_quiet : quiet quietEnv.
Proof. intros k. repeat split. Qed.


(** The day is the local one. For a process in the zone of Kolkata, a
    batch of three that starts one second before midnight there sends all
    three messages through a server limited to two a day, and a batch
    that starts one second before midnight UTC, half past five in the
    morning there, stops after two. *)
Example sendBulkEmails_over_local_midnight :
  fst (sendBulkEmails quietEnv "c1" [emailTo "s1"; emailTo "s2"; emailTo "s3"]
         (newEmailService
            (inZone kolkata (worldOf [server "A" true 2] [] (lateEvening - kolkata)))))
    = Returns tt /\
  fst (sendBulkEmails quietEnv "c1" [emailTo "s1"; emailTo "s2"; emailTo "s3"]
         (newEmailService
            (inZone kolkata (worldOf [server "A" true 2] [] lateEvening))))
    = Throws AllQuotasExhausted.
Proof. split; vm_compute; reflexivity. Qed.

(** ** The round trip of the specification *)

(** Pool [A] (default, two messages a day) and [B] (five), nothing sent
    yet today, three tasks, every send succeeding: the first two messages
    are logged against [A] and the third against [B]. *)
Example sendBulkEmails_round_trip :
  map (fun l => (smtpConfigId (entry l), status (entry l), logSubscriberId (entry l)))
    (emailLogs
       (world (snd (sendBulkEmails quietEnv "c1"
                      [emailTo "s1"; emailTo "s2"; emailTo "s3"]
                      (newEmailService
                         (worldOf [server "B" false 5; server "A" true 2] [] morning))))))
  = [("A", "sent", "s1"); ("A", "sent", "s2"); ("B", "sent", "s3")].
Proof. vm_compute. reflexivity. Qed.

(** With no task, no call is made beyond the refresh of the queue. *)
Example sendBulkEmails_no_task (E : Env) (campaign : ObjectId) (st : State) :
  exists st',
    sendBulkEmails E campaign [] st = (Returns tt, st') /\
    world st' = world st /\
    trace st' = trace st ++ [EvGetSmtpConfigs].
Proof.
  eexists. unfold sendBulkEmails, bind. rewrite refreshSmtpQueue_spec.
  split; [reflexivity |]. split; reflexivity.
Qed.

(** * Wider properties of the dispatcher *)

(** ** Every outcome of a selection *)

Lemma getNextAvailableSmtp_terminates (st : State) :
  fst (getNextAvailableSmtp st) <> OutOfFuel.
Proof.
  unfold getNextAvailableSmtp, bind.
  destruct (Nat.eqb_spec (length (smtpQueue st)) 0) as [Hempty | Hne].
  - rewrite refreshSmtpQueue_spec.
    match goal with
    | |- context [Nat.eqb (length (smtpQueue ?s)) 0] =>
        destruct (Nat.eqb_spec (length (smtpQueue s)) 0) as [_ | Hne'];
        [discriminate |];
        apply (scanLoop_fuel_irrelevant s (length (smtpQueue s))); lia
    end.
  - destruct (Nat.eqb_spec (length (smtpQueue st)) 0) as [Hempty | _]; [lia |].
    apply (scanLoop_fuel_irrelevant st (length (smtpQueue st))); lia.
Qed.

(** From a cursor inside the queue, a selection fails only in the two
    batch-fatal ways. *)
Lemma getNextAvailableSmtp_throws_fatal (st st' : State) (e : Exn) :
  cursorOk st ->
  getNextAvailableSmtp st = (Throws e, st') ->
  batchFatal e.
Proof.
  assert (Hscan : forall s, validCursor s ->
    scanLoop (length (smtpQueue s)) (currentSmtpIndex s) s = (Throws e, st') ->
    batchFatal e).
  { intros s Hvalid Hrun.
    destruct (scanLoop_total s Hvalid)
      as [(k & c & Hk & _ & _ & _ & Hfound) | (_ & Hall)].
    - rewrite (Hfound _ Hk) in Hrun. discriminate.
    - rewrite (Hall _ (Nat.le_refl _)) in Hrun. injection Hrun as <- _.
      right. reflexivity. }
  intros Hok. unfold getNextAvailableSmtp, bind.
  destruct (Nat.eqb_spec (length (smtpQueue st)) 0) as [Hempty | Hne].
  - rewrite refreshSmtpQueue_spec.
    match goal with
    | |- context [Nat.eqb (length (smtpQueue ?s)) 0] =>
        destruct (Nat.eqb_spec (length (smtpQueue s)) 0) as [_ | Hne'];
        [intros [= <- _]; left; reflexivity |];
        apply (Hscan s); unfold validCursor; cbn [currentSmtpIndex] in *; lia
    end.
  - destruct (Nat.eqb_spec (length (smtpQueue st)) 0) as [Hempty | _]; [lia |].
    apply (Hscan st). apply cursorOk_valid; [exact Hok |].
    intros Hnil. rewrite Hnil in Hne. simpl in Hne. lia.
Qed.

(** X1. In a state whose cursor is inside the queue (or whose queue is
    empty), [getNextAvailableSmtp] has exactly three outcomes.  It returns
    a server, which is then the one under the cursor, with a count of the
    day below its limit.  Or it throws [NoServersConfigured], and then the
    queue was empty and so is the stored pool.  Or it throws
    [AllQuotasExhausted], and then the queue is not empty and every server
    in it has reached its limit.  It never reads an undefined queue
    element and never loops forever. *)
Theorem getNextAvailableSmtp_outcomes (st : State) :
  cursorOk st ->
  (exists c st',
     getNextAvailableSmtp st = (Returns c, st') /\
     smtpQueue st' !! currentSmtpIndex st' = Some c /\
     (inject_Z (dailyCount (world st) (_id c)) < dailyLimit c)%Q)
  \/ (exists st',
        getNextAvailableSmtp st = (Throws NoServersConfigured, st') /\
        smtpQueue st = [] /\ smtpQueue st' = [] /\
        smtpConfigs (world st) = [])
  \/ (exists st',
        getNextAvailableSmtp st = (Throws AllQuotasExhausted, st') /\
        smtpQueue st' <> [] /\
        forall c, In c (smtpQueue st') ->
          (dailyLimit c <= inject_Z (dailyCount (world st) (_id c)))%Q).
Proof.
  intros Hok.
  pose proof (getNextAvailableSmtp_terminates st) as Hterm.
  pose proof (getNextAvailableSmtp_world st) as Hw.
  destruct (getNextAvailableSmtp st) as [[c | e |] st'] eqn:Hrun;
    cbn [fst snd] in *.
  - left. exists c, st'.
    destruct (getNextAvailableSmtp_returns st st' c Hrun) as (Hc & Hq).
    split; [reflexivity |]. split; [exact Hc |]. apply underQuota_lt. exact Hq.
  - right.
    pose proof (getNextAvailableSmtp_throws_fatal st st' e Hok Hrun) as Hfatal.
    destruct (getNextAvailableSmtp_throws st st' e Hrun)
      as [(-> & Hq' & Hcfg) | [(-> & Hvalid & Hnone) | ->]].
    + left. exists st'. split; [reflexivity |]. split; [| split; assumption].
      destruct (smtpQueue st) as [| c0 q] eqn:Hq; [reflexivity |]. exfalso.
      pose proof (scanLoop_frame (length (smtpQueue st)) (currentSmtpIndex st) st)
        as (_ & _ & _ & Hsame & _).
      rewrite <- (getNextAvailableSmtp_nonempty st) in Hsame
        by (rewrite Hq; simpl; lia).
      rewrite Hrun in Hsame. cbn [snd] in Hsame. congruence.
    + right. exists st'. split; [reflexivity |].
      unfold validCursor in Hvalid. split.
      * intros Hnil. rewrite Hnil in Hvalid. simpl in Hvalid. lia.
      * intros c Hin. apply list_elem_of_In, list_elem_of_lookup in Hin.
        destruct Hin as [p Hp].
        assert (Hpn : p < length (smtpQueue st')) by (eapply lookup_lt_Some; exact Hp).
        assert (Hkn : (p + length (smtpQueue st') - currentSmtpIndex st')
                        mod length (smtpQueue st') < length (smtpQueue st'))
          by (apply Nat.mod_upper_bound; lia).
        specialize (Hnone _ Hkn).
        rewrite (wrap_reach _ _ _ Hvalid Hpn) in Hnone.
        unfold underQuotaAt in Hnone. rewrite Hp, Hw in Hnone.
        apply underQuota_ge. exact Hnone.
    + destruct Hfatal as [H | H]; discriminate.
  - contradiction.
Qed.

Lemma getNextAvailableSmtp_outcomes_witness :
  cursorOk (oneServer 5 morning) /\
  exists st',
    getNextAvailableSmtp (oneServer 5 morning) = (Returns (server "A" true 5), st').
Proof.
  assert (Hok : cursorOk (oneServer 5 morning)) by (left; reflexivity).
  split; [exact Hok |].
  destruct (getNextAvailableSmtp_outcomes (oneServer 5 morning) Hok)
    as [(c & st' & Hrun & _) | [(st' & Hrun & _) | (st' & Hrun & _)]].
  - exists (snd (getNextAvailableSmtp (oneServer 5 morning))). reflexivity.
  - vm_compute in Hrun. discriminate.
  - vm_compute in Hrun. discriminate.
Defined.

(** ** What a selection adds to the trace, and where its queue comes from *)

Lemma sendsOf_app (a b : list Event) : sendsOf (a ++ b) = sendsOf a ++ sendsOf b.
Proof. unfold sendsOf. apply flat_map_app. Qed.

Lemma scanLoop_sends (fuel start : nat) (st : State) :
  sendsOf (trace (snd (scanLoop fuel start st))) = sendsOf (trace st).
Proof.
  revert st. induction fuel as [| fuel IH]; intros st; simpl; [reflexivity |].
  destruct (smtpQueue st !! currentSmtpIndex st) as [c |]; [| reflexivity].
  unfold bind, getSmtpDailyCount, ret.
  destruct (Qltb (inject_Z (dailyCount (world st) (_id c))) (dailyLimit c)).
  - cbn [snd trace emit]. rewrite sendsOf_app. simpl. apply app_nil_r.
  - match goal with
    | |- context [Nat.eqb ?a ?b] => destruct (Nat.eqb a b)
    end.
    + cbn [snd trace emit setIndex]. rewrite sendsOf_app. simpl. apply app_nil_r.
    + rewrite IH. cbn [trace emit setIndex]. rewrite sendsOf_app. simpl.
      apply app_nil_r.
Qed.

Lemma getNextAvailableSmtp_sends (st : State) :
  sendsOf (trace (snd (getNextAvailableSmtp st))) = sendsOf (trace st).
Proof.
  unfold getNextAvailableSmtp, bind.
  destruct (Nat.eqb (length (smtpQueue st)) 0).
  - rewrite refreshSmtpQueue_spec.
    match goal with
    | |- context [Nat.eqb (length (smtpQueue ?s)) 0] =>
        destruct (Nat.eqb (length (smtpQueue s)) 0); [| rewrite scanLoop_sends]
    end; cbn [snd trace]; rewrite sendsOf_app; simpl; apply app_nil_r.
  - destruct (Nat.eqb (length (smtpQueue st)) 0); [reflexivity |].
    apply scanLoop_sends.
Qed.

Lemma getTransport_sends (c : ISmtpConfig) (st : State) :
  sendsOf (trace (snd (getTransport c st))) = sendsOf (trace st).
Proof.
  destruct (transports st !! _id c) as [t |] eqn:Hc.
  - rewrite (getTransport_hit c st t Hc). reflexivity.
  - rewrite (getTransport_miss c st Hc). cbn [snd trace].
    rewrite sendsOf_app. simpl. apply app_nil_r.
Qed.

Lemma refreshedQueue_from_pool (configs : list ISmtpConfig) (c : ISmtpConfig) :
  In c (refreshedQueue configs) -> In c configs.
Proof.
  unfold refreshedQueue.
  destruct (List.find isDefault configs) as [d |] eqn:Hd; [| intros H; exact H].
  intros [<- | Hin].
  - apply (find_some _ _ Hd).
  - apply filter_In in Hin. apply Hin.
Qed.

(** The queue after a selection is the queue before it, or the one a
    refresh builds when that was empty. *)
Lemma getNextAvailableSmtp_queue (st : State) :
  smtpQueue (snd (getNextAvailableSmtp st)) = smtpQueue st \/
  smtpQueue (snd (getNextAvailableSmtp st)) = refreshedQueue (smtpConfigs (world st)).
Proof.
  unfold getNextAvailableSmtp, bind.
  destruct (Nat.eqb (length (smtpQueue st)) 0).
  - right. rewrite refreshSmtpQueue_spec.
    match goal with
    | |- context [Nat.eqb (length (smtpQueue ?s)) 0] =>
        destruct (Nat.eqb (length (smtpQueue s)) 0); [reflexivity |];
        destruct (scanLoop_frame (length (smtpQueue s)) (currentSmtpIndex s) s)
          as (_ & _ & _ & Hq & _); rewrite Hq; reflexivity
    end.
  - left. destruct (Nat.eqb (length (smtpQueue st)) 0); [reflexivity |].
    apply scanLoop_frame.
Qed.

Lemma poolKept_refl (st : State) : poolKept st st.
Proof. split; [reflexivity | intros H; exact H]. Qed.

Lemma poolKept_trans (a b c : State) : poolKept a b -> poolKept b c -> poolKept a c.
Proof.
  intros [H1 H2] [H3 H4]. split; [congruence | intros H; apply H4, H2, H].
Qed.

Lemma poolKept_same (st st' : State) :
  smtpConfigs (world st') = smtpConfigs (world st) ->
  smtpQueue st' = smtpQueue st ->
  poolKept st st'.
Proof.
  intros Hc Hq. split; [exact Hc |]. unfold queueFromPool. rewrite Hc, Hq.
  intros H; exact H.
Qed.

Lemma getNextAvailableSmtp_poolKept : keeps poolKept getNextAvailableSmtp.
Proof.
  intros st. split.
  - rewrite getNextAvailableSmtp_world. reflexivity.
  - intros Hpool c. rewrite getNextAvailableSmtp_world.
    destruct (getNextAvailableSmtp_queue st) as [-> | ->].
    + apply Hpool.
    + apply refreshedQueue_from_pool.
Qed.

Lemma refreshSmtpQueue_from_pool (st : State) :
  queueFromPool (snd (refreshSmtpQueue st)) /\
  smtpConfigs (world (snd (refreshSmtpQueue st))) = smtpConfigs (world st).
Proof.
  rewrite refreshSmtpQueue_spec. split; [| reflexivity].
  intros c. cbn [snd smtpQueue world]. apply refreshedQueue_from_pool.
Qed.

Section PoolKept.

Variable E : Env.

Lemma getTransport_poolKept (c : ISmtpConfig) : keeps poolKept (getTransport c).
Proof.
  intros st. destruct (getTransport_spec c st) as (_ & Hw & _ & Hq & _).
  apply poolKept_same; [rewrite Hw; reflexivity | exact Hq].
Qed.

Lemma sendMail_poolKept (t : option Transporter) (m : MailOptions) :
  keeps poolKept (sendMail E t m).
Proof.
  intros st. unfold sendMail, throw. destruct t as [t |]; [| apply poolKept_refl].
  destruct (sendMailOutcome E (sendMailCalls (world st)));
    apply poolKept_same; reflexivity.
Qed.

Lemma logEmail_poolKept (l : InsertLog) : keeps poolKept (logEmail E l).
Proof.
  intros st. unfold logEmail.
  destruct (logEmailOutcome E (logEmailCalls (world st)));
    apply poolKept_same; reflexivity.
Qed.

Lemma delay_poolKept (ms : Z) : keeps poolKept (delay ms).
Proof. intros st. apply poolKept_same; reflexivity. Qed.

Lemma sendOne_poolKept (campaign : ObjectId) (email : Email) :
  keeps poolKept (sendOne E campaign email).
Proof.
  unfold sendOne, attempt, recordFailure.
  repeat (first
    [ exact getNextAvailableSmtp_poolKept
    | apply getTransport_poolKept
    | apply sendMail_poolKept
    | apply logEmail_poolKept
    | apply delay_poolKept
    | apply keeps_bind; [exact poolKept_trans | | intros ?; cbv beta]
    | apply keeps_tryCatch; [exact poolKept_trans | | intros ?; cbv beta] ]).
Qed.

End PoolKept.

(** ** The effect of one iteration of the dispatch loop *)

Lemma world_eq (w w' : World) :
  smtpConfigs w = smtpConfigs w' ->
  emailLogs w = emailLogs w' ->
  clock w = clock w' ->
  zoneOffset w = zoneOffset w' ->
  sendMailCalls w = sendMailCalls w' ->
  logEmailCalls w = logEmailCalls w' ->
  w = w'.
Proof. destruct w, w'; simpl; intros; subst; reflexivity. Qed.

Ltac world_fields :=
  apply world_eq;
  cbn [applyEffect inFlight countLogCall storeLog advance smtpConfigs emailLogs
       clock zoneOffset sendMailCalls logEmailCalls mailed logCalls written waited optList
       map length];
  rewrite ?app_nil_r, <- ?app_assoc; try reflexivity; try lia.

Lemma applyEffect_inFlight (E : Env) (m : MailOptions) (lc : nat)
    (wr : option InsertLog) (wt : option Z) (w : World) :
  applyEffect E {| mailed := None; logCalls := lc; written := wr; waited := wt |}
    (inFlight E w)
  = applyEffect E {| mailed := Some m; logCalls := lc; written := wr; waited := wt |} w.
Proof. world_fields. Qed.

Lemma applyEffect_logged_inFlight (E : Env) (m : MailOptions) (lc : nat)
    (wr : option InsertLog) (wt : option Z) (w : World) :
  applyEffect E {| mailed := None; logCalls := lc; written := wr; waited := wt |}
    (countLogCall (inFlight E w))
  = applyEffect E {| mailed := Some m; logCalls := S lc; written := wr; waited := wt |} w.
Proof. world_fields. Qed.

Section Effects.

Variable E : Env.
Variable campaign : ObjectId.
Variable email : Email.

Lemma sendingState_sends (c : ISmtpConfig) (st1 : State) :
  sendsOf (trace (sendingState E c email st1)) =
  sendsOf (trace st1) ++ [mailFor c email].
Proof.
  unfold sendingState. cbn [trace emit setWorld].
  rewrite sendsOf_app, getTransport_sends. reflexivity.
Qed.

Lemma sendingState_cursorOk (c : ISmtpConfig) (st1 : State) :
  cursorOk st1 -> cursorOk (sendingState E c email st1).
Proof.
  destruct (sendingState_queue E email c st1) as (Hq & Hi).
  apply cursorKept_same; assumption.
Qed.

(** The [catch] block: at most one [logEmail] call, no [sendMail] call; it
    returns only after storing a [Failed] entry and waiting twice the
    pacing delay, and throws only a batch-fatal error or the error of a
    rejected log write, having stored nothing and not waited. *)
Lemma recordFailure_effect (e : Exn) (sc : State) :
  cursorOk sc ->
  exists lc wr wt,
    world (snd (recordFailure E campaign email e sc)) =
      applyEffect E
        {| mailed := None; logCalls := lc; written := wr; waited := wt |}
        (world sc) /\
    sendsOf (trace (snd (recordFailure E campaign email e sc))) = sendsOf (trace sc) /\
    delaysOf (trace (snd (recordFailure E campaign email e sc))) =
      delaysOf (trace sc) ++ optList wt /\
    lc <= 1 /\
    match fst (recordFailure E campaign email e sc) with
    | Returns _ =>
        (exists c', wr = Some (failedLog c' campaign email e)) /\
        wt = Some (RATE_LIMIT_DELAY * 2)%Z
    | Throws e' =>
        wr = None /\ wt = None /\
        (batchFatal e' \/ exists k, logEmailOutcome E k = Some e')
    | OutOfFuel => False
    end.
Proof.
  intros Hok.
  pose proof (recordFailure_cases E campaign email e sc) as Hcases.
  pose proof (getNextAvailableSmtp_terminates sc) as Hterm.
  pose proof (getNextAvailableSmtp_world sc) as Hw.
  pose proof (getNextAvailableSmtp_sends sc) as Hs.
  destruct (timeKept_getNextAvailableSmtp sc) as (_ & Hd).
  destruct (getNextAvailableSmtp sc) as [[c' | e' |] s4] eqn:Hsel;
    cbn [fst snd] in *; [| | contradiction].
  - destruct (logEmailOutcome E (logEmailCalls (world sc))) as [e' |] eqn:Hlog;
      rewrite Hcases; cbn [fst snd].
    + exists 1, None, None.
      split; [unfold loggingState; cbn [world emit setWorld]; rewrite Hw; world_fields |].
      split; [unfold loggingState; cbn [trace emit setWorld];
              rewrite sendsOf_app, Hs; simpl; apply app_nil_r |].
      split; [destruct (timeKept_loggingState (failedLog c' campaign email e) s4)
                as (_ & Hd'); rewrite Hd', Hd; simpl; rewrite app_nil_r; reflexivity |].
      split; [lia |]. split; [reflexivity |]. split; [reflexivity |].
      right. eexists. exact Hlog.
    + exists 1, (Some (failedLog c' campaign email e)),
        (Some (RATE_LIMIT_DELAY * 2)%Z).
      split; [unfold delayedState, loggedState, loggingState;
              cbn [world emit setWorld]; rewrite Hw; world_fields |].
      split; [unfold delayedState, loggedState, loggingState;
              cbn [trace emit setWorld]; rewrite !sendsOf_app, Hs; simpl;
              rewrite !app_nil_r; reflexivity |].
      split; [destruct (delayedState_time (RATE_LIMIT_DELAY * 2)
                          (loggedState (failedLog c' campaign email e) s4))
                as (_ & Hd1);
              destruct (timeKept_loggedState (failedLog c' campaign email e) s4)
                as (_ & Hd2);
              rewrite Hd1, Hd2, Hd; reflexivity |].
      split; [lia |]. split; [eexists |]; reflexivity.
  - rewrite Hcases. cbn [fst snd].
    exists 0, None, None.
    split; [rewrite Hw; world_fields |]. split; [exact Hs |].
    split; [rewrite Hd; simpl; rewrite app_nil_r; reflexivity |].
    split; [lia |]. split; [reflexivity |]. split; [reflexivity |].
    left. exact (getNextAvailableSmtp_throws_fatal sc s4 e' Hok Hsel).
Qed.

(** One iteration of the loop, in a state whose cursor is inside the
    queue. *)
Lemma sendOne_effect (st : State) :
  cursorOk st ->
  exists eff,
    world (snd (sendOne E campaign email st)) = applyEffect E eff (world st) /\
    sendsOf (trace (snd (sendOne E campaign email st))) =
      sendsOf (trace st) ++ optList (mailed eff) /\
    delaysOf (trace (snd (sendOne E campaign email st))) =
      delaysOf (trace st) ++ optList (waited eff) /\
    logCalls eff <= 2 /\
    (forall m, mailed eff = Some m ->
       exists c, m = mailFor c email /\
                 underQuota (world st) c = true /\
                 (queueFromPool st -> In c (smtpConfigs (world st)))) /\
    match fst (sendOne E campaign email st) with
    | Returns _ =>
        (exists c,
           mailed eff = Some (mailFor c email) /\
           underQuota (world st) c = true /\
           (queueFromPool st -> In c (smtpConfigs (world st))) /\
           ((written eff = Some (sentLog c campaign email) /\
             waited eff = Some RATE_LIMIT_DELAY) \/
            (exists c' e,
               written eff = Some (failedLog c' campaign email e) /\
               waited eff = Some (RATE_LIMIT_DELAY * 2)%Z)))
    | Throws e =>
        written eff = None /\ waited eff = None /\
        (batchFatal e \/ exists k, logEmailOutcome E k = Some e)
    | OutOfFuel => False
    end.
Proof.
  intros Hok.
  pose proof (attempt_cases E campaign email st) as Hcases.
  pose proof (getNextAvailableSmtp_terminates st) as Hterm.
  pose proof (getNextAvailableSmtp_world st) as Hw1.
  pose proof (getNextAvailableSmtp_sends st) as Hs1.
  pose proof (getNextAvailableSmtp_cursorOk st Hok) as Hok1.
  pose proof (getNextAvailableSmtp_poolKept st) as (Hcfg1 & Hpool1).
  destruct (timeKept_getNextAvailableSmtp st) as (_ & Hd1).
  destruct (getNextAvailableSmtp st) as [[c | e1 |] st1] eqn:Hsel;
    cbn [fst snd] in *; [| | contradiction].
  - (* a server was selected and [sendMail] called *)
    destruct (getNextAvailableSmtp_returns st st1 c Hsel) as (Hc & Hq).
    assert (Hfrom : queueFromPool st -> In c (smtpConfigs (world st))).
    { intros Hpool. rewrite <- Hcfg1. apply (Hpool1 Hpool).
      apply list_elem_of_In, list_elem_of_lookup. eexists. exact Hc. }
    assert (Hmail : forall m, Some (mailFor c email) = Some m ->
              exists c0, m = mailFor c0 email /\
                         underQuota (world st) c0 = true /\
                         (queueFromPool st -> In c0 (smtpConfigs (world st)))).
    { intros m [= <-]. exists c. split; [reflexivity |]. split; assumption. }
    pose proof (sendingState_world E email c st1) as Hw2. rewrite Hw1 in Hw2.
    pose proof (sendingState_sends c st1) as Hs2. rewrite Hs1 in Hs2.
    destruct (timeKept_sendingState E email c st1) as (_ & Hd2). rewrite Hd1 in Hd2.
    pose proof (sendingState_cursorOk c st1 Hok1) as Hok2.
    destruct (sendMailOutcome E (sendMailCalls (world st))) as [e |] eqn:Hsend.
    + (* the send threw *)
      rewrite (sendOne_catches E campaign email st _ e Hcases).
      destruct (recordFailure_effect e _ Hok2)
        as (lc & wr & wt & Hw & Hs & Hd & Hlc & Hout).
      exists {| mailed := Some (mailFor c email); logCalls := lc;
                written := wr; waited := wt |}.
      cbn [mailed logCalls written waited optList].
      rewrite Hw, Hs, Hd, Hw2, Hs2, Hd2, (applyEffect_inFlight E (mailFor c email)).
      split; [reflexivity |]. split; [reflexivity |]. split; [reflexivity |].
      split; [lia |]. split; [exact Hmail |].
      destruct (fst (recordFailure E campaign email e (sendingState E c email st1)))
        as [[] | e' |]; [| exact Hout | exact Hout].
      destruct Hout as ((c' & Hwr) & Hwt). exists c.
      split; [reflexivity |]. split; [exact Hq |]. split; [exact Hfrom |].
      right. exists c', e. split; assumption.
    + destruct (logEmailOutcome E (logEmailCalls (world st))) as [e |] eqn:Hlog.
      * (* the message was delivered, the write of its Sent entry threw *)
        rewrite (sendOne_catches E campaign email st _ e Hcases).
        set (sc := loggingState (sentLog c campaign email) (sendingState E c email st1)).
        assert (Hokc : cursorOk sc).
        { unfold sc, loggingState. revert Hok2. apply cursorKept_same; reflexivity. }
        assert (Hwc : world sc = countLogCall (inFlight E (world st))).
        { unfold sc, loggingState. cbn [world emit setWorld]. rewrite Hw2. reflexivity. }
        assert (Hsc : sendsOf (trace sc) = sendsOf (trace st) ++ [mailFor c email]).
        { unfold sc, loggingState. cbn [trace emit setWorld].
          rewrite sendsOf_app, Hs2. simpl. apply app_nil_r. }
        assert (Hdc : delaysOf (trace sc) = delaysOf (trace st)).
        { destruct (timeKept_loggingState (sentLog c campaign email)
                      (sendingState E c email st1)) as (_ & H). fold sc in H.
          rewrite H. exact Hd2. }
        destruct (recordFailure_effect e sc Hokc)
          as (lc & wr & wt & Hw & Hs & Hd & Hlc & Hout).
        exists {| mailed := Some (mailFor c email); logCalls := S lc;
                  written := wr; waited := wt |}.
        cbn [mailed logCalls written waited optList].
        rewrite Hw, Hs, Hd, Hwc, Hsc, Hdc,
          (applyEffect_logged_inFlight E (mailFor c email)).
        split; [reflexivity |]. split; [reflexivity |]. split; [reflexivity |].
        split; [lia |]. split; [exact Hmail |].
        destruct (fst (recordFailure E campaign email e sc))
          as [[] | e' |]; [| exact Hout | exact Hout].
        destruct Hout as ((c' & Hwr) & Hwt). exists c.
        split; [reflexivity |]. split; [exact Hq |]. split; [exact Hfrom |].
        right. exists c', e. split; assumption.
      * (* the try block completed *)
        rewrite (sendOne_passes E campaign email st _ Hcases).
        exists {| mailed := Some (mailFor c email); logCalls := 1;
                  written := Some (sentLog c campaign email);
                  waited := Some RATE_LIMIT_DELAY |}.
        cbn [fst snd mailed logCalls written waited optList].
        split; [unfold delayedState, loggedState, loggingState;
                cbn [world emit setWorld]; rewrite Hw2; world_fields |].
        split; [unfold delayedState, loggedState, loggingState;
                cbn [trace emit setWorld]; rewrite !sendsOf_app, Hs2; simpl;
                rewrite !app_nil_r; reflexivity |].
        split; [destruct (delayedState_time RATE_LIMIT_DELAY
                            (loggedState (sentLog c campaign email)
                               (sendingState E c email st1))) as (_ & Ha);
                destruct (timeKept_loggedState (sentLog c campaign email)
                            (sendingState E c email st1)) as (_ & Hb);
                rewrite Ha, Hb, Hd2; reflexivity |].
        split; [lia |]. split; [exact Hmail |].
        exists c. split; [reflexivity |]. split; [exact Hq |].
        split; [exact Hfrom |]. left. split; reflexivity.
  - (* the selection of the try block threw: the one of the catch block
       throws the same error *)
    pose proof (getNextAvailableSmtp_throws_fatal st st1 e1 Hok Hsel) as Hfatal.
    rewrite (sendOne_catches E campaign email st _ e1 Hcases).
    pose proof (getNextAvailableSmtp_throws_again st st1 e1 Hsel Hfatal) as Hagain.
    pose proof (getNextAvailableSmtp_world st1) as Hw4.
    pose proof (getNextAvailableSmtp_sends st1) as Hs4.
    destruct (timeKept_getNextAvailableSmtp st1) as (_ & Hd4).
    destruct (getNextAvailableSmtp st1) as [r s4] eqn:Hsel4.
    cbn [fst snd] in *. subst r.
    rewrite (recordFailure_select_throws E campaign email e1 e1 st1 s4 Hsel4).
    exists {| mailed := None; logCalls := 0; written := None; waited := None |}.
    cbn [fst snd mailed logCalls written waited optList].
    split; [rewrite Hw4, Hw1; world_fields |].
    split; [rewrite Hs4, Hs1, app_nil_r; reflexivity |].
    split; [rewrite Hd4, Hd1, app_nil_r; reflexivity |].
    split; [lia |]. split; [discriminate |].
    split; [reflexivity |]. split; [reflexivity |]. left. exact Hfatal.
Qed.

End Effects.

(** ** The last call before a rejection *)

Lemma scanLoop_last_call (fuel start : nat) :
  forall st,
    validCursor st ->
    0 < fuel ->
    exists id,
      last (trace (snd (scanLoop fuel start st))) = Some (EvGetSmtpDailyCount id).
Proof.
  induction fuel as [| fuel IH]; intros st Hvalid Hfuel; [lia |].
  cbn [scanLoop].
  destruct (smtpQueue st !! currentSmtpIndex st) as [c |] eqn:Hc.
  - unfold bind, getSmtpDailyCount, ret.
    destruct (Qltb (inject_Z (dailyCount (world st) (_id c))) (dailyLimit c)).
    { exists (_id c). cbn [snd trace emit]. apply last_snoc. }
    cbn [emit smtpQueue currentSmtpIndex].
    match goal with
    | |- context [Nat.eqb ?a ?b] => destruct (Nat.eqb a b)
    end.
    { exists (_id c). cbn [snd trace emit setIndex]. apply last_snoc. }
    destruct fuel as [| fuel'].
    { exists (_id c). cbn [scanLoop snd trace emit setIndex]. apply last_snoc. }
    apply IH; [| lia].
    unfold validCursor. cbn [setIndex emit smtpQueue currentSmtpIndex].
    apply Nat.mod_upper_bound. unfold validCursor in Hvalid. lia.
  - exfalso. apply lookup_ge_None in Hc. unfold validCursor in Hvalid. lia.
Qed.

(** Whether it returns or throws, a selection ends on a read of the
    storage. *)
Lemma getNextAvailableSmtp_last_call (st : State) :
  cursorOk st ->
  exists ev,
    last (trace (snd (getNextAvailableSmtp st))) = Some ev /\
    (ev = EvGetSmtpConfigs \/ exists id, ev = EvGetSmtpDailyCount id).
Proof.
  intros Hok.
  assert (Hscan : forall s, validCursor s ->
    exists ev,
      last (trace (snd (scanLoop (length (smtpQueue s)) (currentSmtpIndex s) s)))
        = Some ev /\
      (ev = EvGetSmtpConfigs \/ exists id, ev = EvGetSmtpDailyCount id)).
  { intros s Hvalid.
    destruct (scanLoop_last_call (length (smtpQueue s)) (currentSmtpIndex s) s Hvalid)
      as (id & Hlast); [unfold validCursor in Hvalid; lia |].
    eexists. split; [exact Hlast |]. right. exists id. reflexivity. }
  unfold getNextAvailableSmtp, bind.
  destruct (Nat.eqb_spec (length (smtpQueue st)) 0) as [Hempty | Hne].
  - pose proof (refreshSmtpQueue_cursorOk st) as Hr.
    rewrite refreshSmtpQueue_spec in *. cbn [snd] in Hr.
    match goal with
    | |- context [Nat.eqb (length (smtpQueue ?s)) 0] =>
        destruct (Nat.eqb_spec (length (smtpQueue s)) 0) as [_ | Hne']
    end.
    + exists EvGetSmtpConfigs. cbn [snd trace].
      split; [apply last_snoc | left; reflexivity].
    + apply Hscan. apply cursorOk_valid; [exact Hr |].
      intros Hnil. rewrite Hnil in Hne'. simpl in Hne'. lia.
  - destruct (Nat.eqb_spec (length (smtpQueue st)) 0) as [Hempty | _]; [lia |].
    apply Hscan. apply cursorOk_valid; [exact Hok |].
    intros Hnil. rewrite Hnil in Hne. simpl in Hne. lia.
Qed.

Section Rejections.

Variable E : Env.
Variable campaign : ObjectId.
Variable email : Email.

Lemma recordFailure_rejection (e : Exn) (sc : State) :
  cursorOk sc ->
  match fst (recordFailure E campaign email e sc) with
  | Returns _ => True
  | Throws e' =>
      exists ev,
        last (trace (snd (recordFailure E campaign email e sc))) = Some ev /\
        rejectingCall E e' ev
  | OutOfFuel => False
  end.
Proof.
  intros Hok.
  pose proof (recordFailure_cases E campaign email e sc) as Hcases.
  pose proof (getNextAvailableSmtp_terminates sc) as Hterm.
  destruct (getNextAvailableSmtp_last_call sc Hok) as (ev & Hlast & Hread).
  destruct (getNextAvailableSmtp sc) as [[c | e' |] s4]; cbn [fst snd] in *;
    [| | contradiction]; rewrite Hcases.
  - destruct (logEmailOutcome E (logEmailCalls (world sc))) as [e' |] eqn:Hlog;
      cbn [fst snd]; [| exact I].
    eexists. split.
    + unfold loggingState. cbn [trace emit setWorld]. apply last_snoc.
    + cbn [rejectingCall failedLog status]. split; [reflexivity |].
      eexists. exact Hlog.
  - cbn [fst snd]. exists ev. split; [exact Hlast |].
    destruct Hread as [-> | (id & ->)]; exact I.
Qed.

Lemma attempt_cursorOk : keeps cursorKept (attempt E campaign email).
Proof.
  unfold attempt.
  repeat (first
    [ exact getNextAvailableSmtp_cursorOk
    | apply getTransport_cursorOk
    | apply sendMail_cursorOk
    | apply logEmail_cursorOk
    | apply delay_cursorOk
    | apply keeps_bind; [exact cursorKept_trans | | intros ?; cbv beta] ]).
Qed.

Lemma sendOne_rejection (st : State) :
  cursorOk st ->
  match fst (sendOne E campaign email st) with
  | Returns _ => True
  | Throws e =>
      exists ev,
        last (trace (snd (sendOne E campaign email st))) = Some ev /\
        rejectingCall E e ev
  | OutOfFuel => False
  end.
Proof.
  intros Hok.
  destruct (sendOne_effect E campaign email st Hok)
    as (eff & _ & _ & _ & _ & _ & Hout).
  pose proof (attempt_cursorOk st Hok) as Hok1.
  unfold sendOne, tryCatch in *.
  destruct (attempt E campaign email st) as [[[] | e |] s1]; cbn [fst snd] in *.
  - exact I.
  - apply recordFailure_rejection. exact Hok1.
  - exact Hout.
Qed.

End Rejections.

(** ** Whole batches *)

Section Batches.

Variable E : Env.
Variable campaign : ObjectId.


(** X3. With an empty pool and at least one task, [sendBulkEmails] rejects
    with [NoServersConfigured] after reading the stored configs three
    times (its own refresh, and the refresh of the selection in the [try]
    block and in the [catch] block of the first task), and does nothing
    else: no send, no log write, no wait. *)
Theorem sendBulkEmails_empty_pool (email : Email) (rest : list Email) (st : State) :
  smtpConfigs (world st) = [] ->
  exists st',
    sendBulkEmails E campaign (email :: rest) st = (Throws NoServersConfigured, st') /\
    world st' = world st /\
    smtpQueue st' = [] /\
    trace st' = trace st ++ [EvGetSmtpConfigs; EvGetSmtpConfigs; EvGetSmtpConfigs].
Proof.
  intros Hpool. eexists.
  unfold sendBulkEmails, bind. rewrite refreshSmtpQueue_spec, Hpool.
  cbn [forEachEmail]. unfold bind, sendOne, tryCatch, attempt, recordFailure, bind.
  unfold getNextAvailableSmtp at 1. unfold bind.
  cbn [refreshedQueue List.find smtpQueue length Nat.eqb].
  rewrite refreshSmtpQueue_spec. cbn [world]. rewrite Hpool.
  cbn [refreshedQueue List.find smtpQueue length Nat.eqb].
  unfold getNextAvailableSmtp at 1. unfold bind.
  cbn [smtpQueue length Nat.eqb].
  rewrite refreshSmtpQueue_spec. cbn [world]. rewrite Hpool.
  cbn [refreshedQueue List.find smtpQueue length Nat.eqb].
  split; [reflexivity |]. cbn [world smtpQueue trace].
  rewrite <- !app_assoc. repeat split.
Qed.

End Batches.


Lemma sendBulkEmails_empty_pool_witness :
  exists st',
    sendBulkEmails quietEnv "c1" [emailTo "s1"]
      (newEmailService (worldOf [] [] morning)) = (Throws NoServersConfigured, st') /\
    sendMailCalls (world st') = 0.
Proof.
  destruct (sendBulkEmails_empty_pool quietEnv "c1" (emailTo "s1") []
              (newEmailService (worldOf [] [] morning)) eq_refl)
    as (st' & Hrun & Hw & _).
  exists st'. split; [exact Hrun |]. rewrite Hw. reflexivity.
Defined.

Section BatchRuns.

Variable E : Env.
Variable campaign : ObjectId.

(** The [sendMail] calls and the waits of the loop. *)
Lemma forEachEmail_run (emails : list Email) :
  forall st,
    cursorOk st ->
    exists ms ds,
      sendsOf (trace (snd (forEachEmail E campaign emails st))) =
        sendsOf (trace st) ++ ms /\
      delaysOf (trace (snd (forEachEmail E campaign emails st))) =
        delaysOf (trace st) ++ ds /\
      clock (world (snd (forEachEmail E campaign emails st))) =
        (clock (world st) + sumZ ds)%Z /\
      sendMailCalls (world (snd (forEachEmail E campaign emails st))) =
        sendMailCalls (world st) + length ms /\
      Forall pacingDelay ds /\
      map content ms `prefix_of` map envelope emails /\
      match fst (forEachEmail E campaign emails st) with
      | Returns _ =>
          map content ms = map envelope emails /\ length ds = length emails
      | Throws _ => length ds < length emails
      | OutOfFuel => False
      end.
Proof.
  induction emails as [| email rest IH]; intros st Hok.
  - exists [], []. cbn. rewrite !app_nil_r, Z.add_0_r, Nat.add_0_r.
    repeat split; try reflexivity. constructor.
  - cbn [forEachEmail]. unfold bind.
    destruct (sendOne_effect E campaign email st Hok)
      as (eff & Hw & Hs & Hd & _ & Hmail & Hout).
    pose proof (sendOne_cursorOk E campaign email st Hok) as Hok1.
    destruct (sendOne E campaign email st) as [[[] | e |] s1]; cbn [fst snd] in *.
    + destruct Hout as (c & Hm & _ & _ & Hwait).
      assert (Hd1 : exists d, waited eff = Some d /\ pacingDelay d).
      { destruct Hwait as [(_ & H) | (c' & e & _ & H)]; eexists;
          (split; [exact H |]); [left | right]; reflexivity. }
      destruct Hd1 as (d & Hwt & Hpd).
      destruct (IH s1 Hok1) as (ms & ds & Hs' & Hd' & Hc' & Hn' & Hds & Hpre & Hres).
      exists (mailFor c email :: ms), (d :: ds).
      rewrite Hs', Hd', Hc', Hn', Hs, Hd, Hw.
      cbn [applyEffect clock sendMailCalls]. rewrite Hm, Hwt.
      cbn [optList length map sumZ fold_right].
      rewrite <- !app_assoc. cbn [app].
      split; [reflexivity |]. split; [reflexivity |].
      split; [unfold sumZ; lia |]. split; [lia |].
      split; [constructor; assumption |].
      split; [apply prefix_cons; exact Hpre |].
      destruct (fst (forEachEmail E campaign rest s1)) as [[] | e |].
      * destruct Hres as (Hall & Hlen). split; [f_equal; exact Hall | lia].
      * lia.
      * exact Hres.
    + destruct Hout as (_ & Hwt & _).
      exists (optList (mailed eff)), [].
      rewrite Hs, Hd, Hw.
      cbn [applyEffect clock sendMailCalls]. rewrite Hwt.
      cbn [optList length sumZ fold_right].
      rewrite app_nil_r, Z.add_0_r.
      split; [reflexivity |]. split; [reflexivity |]. split; [reflexivity |].
      split; [reflexivity |]. split; [constructor |].
      split; [| simpl; lia].
      destruct (mailed eff) as [m |] eqn:Hm; [| apply prefix_nil].
      destruct (Hmail m eq_refl) as (c & -> & _). cbn [optList map].
      apply prefix_cons, prefix_nil.
    + contradiction.
Qed.

Lemma refreshed_run (emails : list Email) (st : State) :
  exists s0,
    sendBulkEmails E campaign emails st = forEachEmail E campaign emails s0 /\
    cursorOk s0 /\ queueFromPool s0 /\
    world s0 = world st /\
    sendsOf (trace s0) = sendsOf (trace st) /\
    delaysOf (trace s0) = delaysOf (trace st).
Proof.
  exists (snd (refreshSmtpQueue st)).
  split; [unfold sendBulkEmails, bind; rewrite refreshSmtpQueue_spec; reflexivity |].
  split; [apply refreshSmtpQueue_cursorOk |].
  split; [apply refreshSmtpQueue_from_pool |].
  rewrite refreshSmtpQueue_spec. cbn [snd world trace].
  rewrite sendsOf_app, delaysOf_app. simpl. rewrite !app_nil_r. repeat split.
Qed.


(** X5. The waits of a batch. Every wait of [sendBulkEmails] is the pacing
    delay or twice it, and the clock advances by their sum.  A batch that
    returns has waited once per task, so it lasted at least 2000 ms and at
    most 4000 ms per task; a batch that rejects has waited fewer times
    than it has tasks. *)
Theorem sendBulkEmails_waits (emails : list Email) (st : State) :
  exists ds,
    delaysOf (trace (snd (sendBulkEmails E campaign emails st))) =
      delaysOf (trace st) ++ ds /\
    clock (world (snd (sendBulkEmails E campaign emails st))) =
      (clock (world st) + sumZ ds)%Z /\
    Forall pacingDelay ds /\
    (2000 * Z.of_nat (length ds) <= sumZ ds <= 4000 * Z.of_nat (length ds))%Z /\
    (fst (sendBulkEmails E campaign emails st) = Returns tt ->
     length ds = length emails) /\
    (forall e, fst (sendBulkEmails E campaign emails st) = Throws e ->
     length ds < length emails).
Proof.
  destruct (refreshed_run emails st) as (s0 & -> & Hok & _ & Hw & _ & Hd).
  destruct (forEachEmail_run emails s0 Hok)
    as (ms & ds & _ & Hd' & Hc & _ & Hds & _ & Hres).
  exists ds. rewrite Hd', Hc, Hd, Hw.
  split; [reflexivity |]. split; [reflexivity |]. split; [exact Hds |].
  split.
  - clear - Hds. induction Hds as [| d ds Hd _ IH]; [simpl; lia |].
    cbn [sumZ fold_right length] in *. unfold sumZ in IH.
    destruct Hd as [-> | ->]; unfold RATE_LIMIT_DELAY; lia.
  - split.
    + intros Hret. rewrite Hret in Hres. apply Hres.
    + intros e He. rewrite He in Hres. exact Hres.
Qed.

End BatchRuns.


Lemma sendBulkEmails_waits_witness :
  exists ds,
    delaysOf (trace (snd (sendBulkEmails quotaRaceEnv "c1"
                            [emailTo "s1"; emailTo "s2"] twoServers))) = ds /\
    length ds = 2.
Proof.
  destruct (sendBulkEmails_waits quotaRaceEnv "c1"
              [emailTo "s1"; emailTo "s2"] twoServers)
    as (ds & Hd & _ & _ & _ & Hret & _).
  exists ds. split; [exact Hd | apply Hret; reflexivity].
Defined.

(** ** Daily quotas and the log of a campaign *)

Lemma startOfDay_mono (o a b : Z) :
  (a <= b)%Z -> (startOfDay o a <= startOfDay o b)%Z.
Proof.
  intros Hab. rewrite !startOfDay_div. unfold msPerDay.
  pose proof (Z.div_le_mono (a + o) (b + o) 86400000 ltac:(lia) ltac:(lia)). lia.
Qed.

Lemma filter_length_le {A} (p q : A -> bool) (l : list A) :
  (forall x, p x = true -> q x = true) ->
  length (List.filter p l) <= length (List.filter q l).
Proof.
  intros Hpq. induction l as [| x l IH]; simpl; [lia |].
  destruct (p x) eqn:Hp.
  - rewrite (Hpq x Hp). simpl. lia.
  - destruct (q x); simpl; lia.
Qed.

Lemma countsToday_later (id : ObjectId) (t t' : Z) (l : IEmailLog) :
  (t <= t')%Z -> countsToday id t' l = true -> countsToday id t l = true.
Proof.
  unfold countsToday. intros Ht H.
  apply andb_true_iff in H. destruct H as (H & Hs).
  apply andb_true_iff in H. destruct H as (Hi & Hd).
  rewrite Hi, Hs. apply Z.leb_le in Hd.
  replace (t <=? sentAt l)%Z with true by (symmetry; apply Z.leb_le; lia).
  reflexivity.
Qed.

Lemma dailyCount_applyEffect (E : Env) (eff : Effect) (w : World) (id : ObjectId) :
  sendMailMeanwhile E (sendMailCalls w) = [] ->
  (0 <= match waited eff with Some ms => ms | None => 0 end)%Z ->
  (dailyCount (applyEffect E eff w) id <= dailyCount w id + bump id (written eff))%Z.
Proof.
  intros Hquiet Hwait. unfold dailyCount.
  cbn [applyEffect emailLogs clock zoneOffset].
  replace (match mailed eff with
           | Some _ => sendMailMeanwhile E (sendMailCalls w)
           | None => []
           end) with (@nil IEmailLog) by (destruct (mailed eff); congruence).
  cbn [app]. rewrite List.filter_app, length_app.
  assert (Hday : (startOfDay (zoneOffset w) (clock w) <=
                  startOfDay (zoneOffset w)
                             (clock w + match waited eff with
                                        | Some ms => ms | None => 0 end))%Z)
    by (apply startOfDay_mono; lia).
  pose proof (filter_length_le _ _ (emailLogs w)
                (fun l => countsToday_later id _ _ l Hday)) as Hold.
  unfold bump. destruct (written eff) as [l |]; cbn [optList map List.filter].
  - unfold countsToday at 2. cbn [entry sentAt].
    destruct (String.eqb (smtpConfigId l) id); cbn [andb length]; [| lia].
    destruct (_ <=? clock w)%Z; cbn [andb length]; [| destruct (String.eqb _ _); lia].
    destruct (String.eqb (status l) "sent"); cbn [length]; lia.
  - cbn [length]. lia.
Qed.

Lemma NoDup_map_inj_in {A B} (f : A -> B) (l : list A) (a b : A) :
  NoDup (map f l) -> In a l -> In b l -> f a = f b -> a = b.
Proof.
  induction l as [| x l IH]; intros Hnd Ha Hb Hf; [contradiction |].
  cbn [map] in Hnd. apply NoDup_cons in Hnd. destruct Hnd as (Hx & Hnd).
  destruct Ha as [<- | Ha], Hb as [<- | Hb].
  - reflexivity.
  - exfalso. apply Hx. rewrite Hf. apply list_elem_of_In, in_map, Hb.
  - exfalso. apply Hx. rewrite <- Hf. apply list_elem_of_In, in_map, Ha.
  - apply IH; assumption.
Qed.

Section Quotas.

Variable E : Env.
Variable campaign : ObjectId.
Hypothesis alone : forall k, sendMailMeanwhile E k = [].

Lemma forEachEmail_within_quota (c : ISmtpConfig) (emails : list Email) :
  forall st,
    cursorOk st ->
    queueFromPool st ->
    NoDup (map _id (smtpConfigs (world st))) ->
    In c (smtpConfigs (world st)) ->
    (inject_Z (dailyCount (world st) (_id c)) < dailyLimit c + 1)%Q ->
    (inject_Z (dailyCount (world (snd (forEachEmail E campaign emails st))) (_id c))
     < dailyLimit c + 1)%Q.
Proof.
  induction emails as [| email rest IH]; intros st Hok Hpool Hnd Hin Hcount;
    [exact Hcount |].
  cbn [forEachEmail]. unfold bind.
  destruct (sendOne_effect E campaign email st Hok)
    as (eff & Hw & _ & _ & _ & _ & Hout).
  pose proof (sendOne_cursorOk E campaign email st Hok) as Hok1.
  destruct (sendOne_poolKept E campaign email st) as (Hcfg1 & Hpool1).
  pose proof (dailyCount_applyEffect E eff (world st) (_id c) (alone _)) as Hstep.
  destruct (sendOne E campaign email st) as [[[] | e |] s1]; cbn [fst snd] in *.
  - assert (Hnew : (inject_Z (dailyCount (world s1) (_id c)) < dailyLimit c + 1)%Q).
    { rewrite Hw. destruct Hout as (c0 & _ & Hq & Hfrom & Hwritten).
      specialize (Hfrom Hpool). apply underQuota_lt in Hq.
      destruct Hwritten as [(Hwr & Hwt) | (c' & e & Hwr & Hwt)];
        rewrite Hwr, Hwt in Hstep; cbn [bump sentLog failedLog smtpConfigId status]
          in Hstep.
      - destruct (String.eqb_spec (_id c0) (_id c)) as [Hid | _];
          cbn [andb] in Hstep.
        + assert (c0 = c) by (apply (NoDup_map_inj_in _id _ _ _ Hnd); assumption).
          subst c0.
          assert (Hs : String.eqb "sent" "sent" = true) by reflexivity.
          rewrite Hs in Hstep.
          specialize (Hstep ltac:(unfold RATE_LIMIT_DELAY; lia)).
          rewrite Zle_Qle, inject_Z_plus in Hstep.
          change (inject_Z 1) with 1%Q in Hstep. lra.
        + specialize (Hstep ltac:(unfold RATE_LIMIT_DELAY; lia)).
          rewrite Zle_Qle, inject_Z_plus in Hstep.
          change (inject_Z 0) with 0%Q in Hstep. lra.
      - assert (Hs : String.eqb "failed" "sent" = false) by reflexivity.
        rewrite Hs, andb_false_r in Hstep.
        specialize (Hstep ltac:(unfold RATE_LIMIT_DELAY; lia)).
        rewrite Zle_Qle, inject_Z_plus in Hstep.
        change (inject_Z 0) with 0%Q in Hstep. lra. }
    apply IH; try assumption.
    + apply Hpool1, Hpool.
    + rewrite Hcfg1. exact Hnd.
    + rewrite Hcfg1. exact Hin.
  - destruct Hout as (Hwr & Hwt & _). rewrite Hwr, Hwt in Hstep.
    cbn [bump] in Hstep. rewrite Hw.
    specialize (Hstep ltac:(lia)).
    rewrite Zle_Qle, inject_Z_plus in Hstep.
    change (inject_Z 0) with 0%Q in Hstep. lra.
  - contradiction.
Qed.

(** X6. The daily quota. When no other sender writes to the log during
    the batch and the stored configs have distinct identifiers, a server
    whose count of the day is below its [dailyLimit] plus one before
    [sendBulkEmails] is still below it afterwards, however the batch ends
    and whatever fails in it.  So for a limit that is a whole number the
    count never comes to exceed the limit; past a limit with a fraction it
    goes by less than one message. *)
Theorem sendBulkEmails_within_quota (emails : list Email) (st : State)
    (c : ISmtpConfig) :
  NoDup (map _id (smtpConfigs (world st))) ->
  In c (smtpConfigs (world st)) ->
  (inject_Z (dailyCount (world st) (_id c)) < dailyLimit c + 1)%Q ->
  (inject_Z (dailyCount (world (snd (sendBulkEmails E campaign emails st))) (_id c))
   < dailyLimit c + 1)%Q /\
  (forall n : Z,
     (dailyLimit c == inject_Z n)%Q ->
     (dailyCount (world (snd (sendBulkEmails E campaign emails st))) (_id c) <= n)%Z).
Proof.
  intros Hnd Hin Hcount.
  assert (Hafter : (inject_Z (dailyCount
                                (world (snd (sendBulkEmails E campaign emails st)))
                                (_id c))
                    < dailyLimit c + 1)%Q).
  { destruct (refreshed_run E campaign emails st)
      as (s0 & -> & Hok & Hpool & Hw & _).
    apply forEachEmail_within_quota; try assumption; rewrite Hw; assumption. }
  split; [exact Hafter |].
  intros n Hn. rewrite Hn in Hafter.
  assert (Hlt : (inject_Z (dailyCount
                             (world (snd (sendBulkEmails E campaign emails st)))
                             (_id c))
                 < inject_Z (n + 1))%Q)
    by (rewrite inject_Z_plus; exact Hafter).
  rewrite <- Zlt_Qlt in Hlt. lia.
Qed.

End Quotas.

Lemma sendBulkEmails_within_quota_witness :
  (dailyCount
     (world (snd (sendBulkEmails quietEnv "c1"
                    [emailTo "s1"; emailTo "s2"; emailTo "s3"] twoServers)))
     "A" <= 1)%Z.
Proof.
  apply (sendBulkEmails_within_quota quietEnv "c1" (fun _ => eq_refl)
           [emailTo "s1"; emailTo "s2"; emailTo "s3"] twoServers (server "A" true 1)).
  - cbn. apply NoDup_cons_2;
      [rewrite list_elem_of_In; intros [H | []]; discriminate |].
    apply NoDup_cons_2; [rewrite list_elem_of_In; intros [] | apply NoDup_nil_2].
  - left. reflexivity.
  - reflexivity.
  - reflexivity.
Defined.

(** With a daily limit of one and a half messages, a second message is
    sent when one has been, and the count of the day ends on 2. *)
Example sendBulkEmails_fractional_limit :
  fst (sendBulkEmails quietEnv "c1" [emailTo "s1"; emailTo "s2"; emailTo "s3"]
         (newEmailService (worldOf [limitedTo (3 # 2)] [] morning)))
    = Throws AllQuotasExhausted /\
  dailyCount
    (world (snd (sendBulkEmails quietEnv "c1"
                   [emailTo "s1"; emailTo "s2"; emailTo "s3"]
                   (newEmailService (worldOf [limitedTo (3 # 2)] [] morning)))))
    "A" = 2%Z.
Proof. split; vm_compute; reflexivity. Qed.

Lemma filter_none {A} (p : A -> bool) (l : list A) :
  (forall x, In x l -> p x = false) -> List.filter p l = [].
Proof.
  induction l as [| x l IH]; intros H; [reflexivity |].
  cbn [List.filter]. rewrite (H x (or_introl eq_refl)).
  apply IH. intros y Hy. apply H. right. exact Hy.
Qed.

Section CampaignLog.

Variable E : Env.
Variable campaign : ObjectId.
Hypothesis others : forall k l,
  In l (sendMailMeanwhile E k) -> campaignId (entry l) <> campaign.

Lemma getEmailLogsByCampaign_applyEffect (eff : Effect) (w : World) :
  (forall l, written eff = Some l -> campaignId l = campaign) ->
  getEmailLogsByCampaign campaign (applyEffect E eff w) =
    getEmailLogsByCampaign campaign w
    ++ map (fun l => {| entry := l; sentAt := clock w |}) (optList (written eff)).
Proof.
  intros Hown. unfold getEmailLogsByCampaign. cbn [applyEffect emailLogs].
  rewrite !List.filter_app. f_equal.
  replace (List.filter _ (match mailed eff with
                          | Some _ => sendMailMeanwhile E (sendMailCalls w)
                          | None => []
                          end)) with (@nil IEmailLog).
  - cbn [app]. destruct (written eff) as [l |]; [| reflexivity].
    cbn [optList map List.filter entry]. rewrite (Hown l eq_refl), String.eqb_refl.
    reflexivity.
  - symmetry. apply filter_none. intros l Hl.
    destruct (mailed eff); [| contradiction].
    apply String.eqb_neq. exact (others _ l Hl).
Qed.

Lemma forEachEmail_campaign_log (emails : list Email) :
  forall st,
    cursorOk st ->
    exists own,
      getEmailLogsByCampaign campaign
        (world (snd (forEachEmail E campaign emails st))) =
        getEmailLogsByCampaign campaign (world st) ++ own /\
      Forall (taskEntry campaign) own /\
      map (fun l => logSubscriberId (entry l)) own
        `prefix_of` map subscriberId emails /\
      match fst (forEachEmail E campaign emails st) with
      | Returns _ =>
          map (fun l => logSubscriberId (entry l)) own = map subscriberId emails
      | Throws _ => length own < length emails
      | OutOfFuel => False
      end.
Proof.
  induction emails as [| email rest IH]; intros st Hok.
  - exists []. cbn. rewrite app_nil_r.
    split; [reflexivity |]. split; [constructor |].
    split; [apply prefix_nil | reflexivity].
  - cbn [forEachEmail]. unfold bind.
    destruct (sendOne_effect E campaign email st Hok)
      as (eff & Hw & _ & _ & _ & _ & Hout).
    pose proof (sendOne_cursorOk E campaign email st Hok) as Hok1.
    destruct (sendOne E campaign email st) as [[[] | e |] s1]; cbn [fst snd] in *.
    + destruct Hout as (c & _ & _ & _ & Hwritten).
      assert (Hone : exists l,
                 written eff = Some l /\ campaignId l = campaign /\
                 logSubscriberId l = subscriberId email /\
                 ((status l = "sent" /\ error l = None) \/
                  (status l = "failed" /\ error l <> None))).
      { destruct Hwritten as [(Hwr & _) | (c' & e & Hwr & _)];
          eexists; (split; [exact Hwr |]); cbn;
          (split; [reflexivity |]); (split; [reflexivity |]);
          [left | right]; (split; [reflexivity |]); [reflexivity | discriminate]. }
      destruct Hone as (l & Hwr & Hcamp & Hsub & Hstatus).
      destruct (IH s1 Hok1) as (own & Hlog & Hall & Hpre & Hres).
      exists ({| entry := l; sentAt := clock (world st) |} :: own).
      split.
      { rewrite Hlog, Hw, getEmailLogsByCampaign_applyEffect
          by (intros l' Hl'; congruence).
        rewrite Hwr. cbn [optList map]. rewrite <- app_assoc. reflexivity. }
      split.
      { constructor; [| exact Hall]. split; [exact Hcamp | exact Hstatus]. }
      cbn [map entry]. rewrite Hsub. split.
      { apply prefix_cons. exact Hpre. }
      destruct (fst (forEachEmail E campaign rest s1)).
      * f_equal. exact Hres.
      * cbn [length]. lia.
      * contradiction.
    + destruct Hout as (Hwr & _ & _).
      exists []. rewrite Hw, getEmailLogsByCampaign_applyEffect
        by (intros l' Hl'; congruence).
      rewrite Hwr. cbn [optList map length].
      split; [reflexivity |]. split; [constructor |].
      split; [apply prefix_nil | lia].
    + contradiction.
Qed.

(** X7. The log of a campaign. When the entries that other senders store
    during the batch belong to other campaigns, [sendBulkEmails] adds to
    what [getEmailLogsByCampaign] returns for its campaign one entry per
    task, in task order and for a prefix of the tasks: each entry carries
    the campaign and the subscriber of its task and is "sent" without an
    error text or "failed" with one.  A batch that returns has an entry
    for every task; a batch that rejects has fewer entries than tasks. *)
Theorem sendBulkEmails_campaign_log (emails : list Email) (st : State) :
  exists own,
    getEmailLogsByCampaign campaign
      (world (snd (sendBulkEmails E campaign emails st))) =
      getEmailLogsByCampaign campaign (world st) ++ own /\
    Forall (taskEntry campaign) own /\
    map (fun l => logSubscriberId (entry l)) own
      `prefix_of` map subscriberId emails /\
    match fst (sendBulkEmails E campaign emails st) with
    | Returns _ =>
        map (fun l => logSubscriberId (entry l)) own = map subscriberId emails
    | Throws _ => length own < length emails
    | OutOfFuel => False
    end.
Proof.
  destruct (refreshed_run E campaign emails st) as (s0 & -> & Hok & _ & Hw & _).
  rewrite <- Hw. apply forEachEmail_campaign_log. exact Hok.
Qed.

End CampaignLog.

Lemma sendBulkEmails_campaign_log_witness :
  exists own,
    getEmailLogsByCampaign "c1"
      (world (snd (sendBulkEmails quotaRaceEnv "c1"
                     [emailTo "s1"; emailTo "s2"] twoServers))) =
      getEmailLogsByCampaign "c1" (world twoServers) ++ own /\
    Forall (taskEntry "c1") own /\
    map (fun l => logSubscriberId (entry l)) own
      `prefix_of` map subscriberId [emailTo "s1"; emailTo "s2"] /\
    match fst (sendBulkEmails quotaRaceEnv "c1"
                 [emailTo "s1"; emailTo "s2"] twoServers) with
    | Returns _ =>
        map (fun l => logSubscriberId (entry l)) own =
          map subscriberId [emailTo "s1"; emailTo "s2"]
    | Throws _ => length own < length [emailTo "s1"; emailTo "s2"]
    | OutOfFuel => False
    end.
Proof.
  apply (sendBulkEmails_campaign_log quotaRaceEnv "c1").
  intros [| k] l; [intros [<- | []]; discriminate | intros []].
Defined.

(** * The stored configs: server/storage.ts *)

Lemma updateMany_ids (sel : ISmtpConfig -> bool) (configs : list ISmtpConfig) :
  map _id (updateMany sel configs) = map _id configs.
Proof.
  unfold updateMany. rewrite map_map. apply map_ext.
  intros c. destruct (sel c); reflexivity.
Qed.

Lemma updateMany_no_default (configs : list ISmtpConfig) :
  List.filter isDefault (updateMany isDefault configs) = [].
Proof.
  induction configs as [| c rest IH]; [reflexivity |].
  cbn [updateMany map List.filter]. fold (updateMany isDefault rest).
  destruct (isDefault c) eqn:Hc; cbn [unsetDefault isDefault]; [| rewrite Hc];
    exact IH.
Qed.

Lemma filter_nil_find {A} (p : A -> bool) (l : list A) :
  List.filter p l = [] -> List.find p l = None.
Proof.
  induction l as [| x l IH]; [reflexivity |]. cbn [List.filter List.find].
  destruct (p x); [discriminate | exact IH].
Qed.

Lemma find_app_one {A} (p : A -> bool) (l : list A) (d : A) :
  List.find p (l ++ [d]) =
  match List.find p l with
  | Some c => Some c
  | None => if p d then Some d else None
  end.
Proof.
  induction l as [| x l IH]; [reflexivity |]. cbn [app List.find].
  destruct (p x); [reflexivity | exact IH].
Qed.

Lemma findById_map (f : ISmtpConfig -> ISmtpConfig) (id : ObjectId)
    (configs : list ISmtpConfig) :
  (forall c, _id (f c) = _id c) ->
  findById id (map f configs) = option_map f (findById id configs).
Proof.
  intros Hf. unfold findById.
  induction configs as [| c rest IH]; [reflexivity |]. cbn [map List.find].
  rewrite Hf. destruct (String.eqb (_id c) id); [reflexivity | exact IH].
Qed.

Lemma findById_id (id : ObjectId) (configs : list ISmtpConfig) (c : ISmtpConfig) :
  findById id configs = Some c -> _id c = id /\ In c configs.
Proof.
  intros H. apply find_some in H. destruct H as (Hin & Hid).
  apply String.eqb_eq in Hid. split; assumption.
Qed.

Lemma findById_absent (id : ObjectId) (configs : list ISmtpConfig) :
  findById id configs = None <-> ~ In id (map _id configs).
Proof.
  unfold findById. induction configs as [| c rest IH]; cbn [map List.find In].
  - split; [intros _ [] | reflexivity].
  - destruct (String.eqb_spec (_id c) id) as [Hid | Hid].
    + split; [discriminate | intros H; exfalso; apply H; left; exact Hid].
    + rewrite IH. split; [intros H [H' | H']; [exact (Hid H') | exact (H H')] |].
      intros H H'. apply H. right. exact H'.
Qed.

Lemma findByIdAndUpdate_fst (id : ObjectId) (update : Partial.t)
    (configs : list ISmtpConfig) :
  fst (findByIdAndUpdate id update configs) =
  option_map (applyUpdate update) (findById id configs).
Proof.
  unfold findById. induction configs as [| c rest IH]; [reflexivity |].
  cbn [findByIdAndUpdate List.find].
  destruct (String.eqb (_id c) id); [reflexivity |].
  destruct (findByIdAndUpdate id update rest). exact IH.
Qed.

Lemma findByIdAndUpdate_ids (id : ObjectId) (update : Partial.t)
    (configs : list ISmtpConfig) :
  map _id (snd (findByIdAndUpdate id update configs)) = map _id configs.
Proof.
  induction configs as [| c rest IH]; [reflexivity |].
  cbn [findByIdAndUpdate].
  destruct (String.eqb (_id c) id); [reflexivity |].
  destruct (findByIdAndUpdate id update rest). cbn [snd map] in *.
  rewrite IH. reflexivity.
Qed.

Lemma findByIdAndUpdate_absent (id : ObjectId) (update : Partial.t)
    (configs : list ISmtpConfig) :
  findById id configs = None ->
  snd (findByIdAndUpdate id update configs) = configs.
Proof.
  unfold findById. induction configs as [| c rest IH]; [reflexivity |].
  cbn [findByIdAndUpdate List.find].
  destruct (String.eqb (_id c) id); [discriminate |]. intros H.
  destruct (findByIdAndUpdate id update rest). cbn [snd] in *.
  rewrite (IH H). reflexivity.
Qed.

Lemma findById_updated (id id' : ObjectId) (update : Partial.t)
    (configs : list ISmtpConfig) :
  findById id' (snd (findByIdAndUpdate id update configs)) =
  if String.eqb id' id
  then option_map (applyUpdate update) (findById id configs)
  else findById id' configs.
Proof.
  unfold findById. induction configs as [| c rest IH].
  - cbn. destruct (String.eqb id' id); reflexivity.
  - cbn [findByIdAndUpdate List.find].
    destruct (String.eqb_spec (_id c) id) as [Hc | Hc].
    + cbn [snd List.find applyUpdate _id].
      destruct (String.eqb_spec id' id) as [-> | Hne].
      * rewrite Hc, String.eqb_refl. reflexivity.
      * replace (String.eqb (_id c) id') with false; [reflexivity |].
        symmetry. apply String.eqb_neq. congruence.
    + destruct (findByIdAndUpdate id update rest) as [r rest'].
      cbn [snd List.find] in *.
      destruct (String.eqb_spec id' id) as [-> | Hne].
      * replace (String.eqb (_id c) id) with false
          by (symmetry; apply String.eqb_neq; exact Hc).
        exact IH.
      * destruct (String.eqb (_id c) id'); [reflexivity | exact IH].
Qed.

Lemma findByIdAndUpdate_defaults (id : ObjectId) (update : Partial.t)
    (configs : list ISmtpConfig) :
  truthy (Partial.isDefault update) = false ->
  length (List.filter isDefault (snd (findByIdAndUpdate id update configs)))
  <= length (List.filter isDefault configs).
Proof.
  intros Hu. induction configs as [| c rest IH]; [reflexivity |].
  cbn [findByIdAndUpdate].
  destruct (String.eqb (_id c) id).
  - cbn [snd List.filter applyUpdate isDefault].
    unfold truthy in Hu.
    destruct (Partial.isDefault update) as [[] |]; cbn in *;
      [discriminate | |]; destruct (isDefault c); cbn; lia.
  - destruct (findByIdAndUpdate id update rest). cbn [snd List.filter] in *.
    destruct (isDefault c); cbn [length]; lia.
Qed.

Lemma findByIdAndDelete_sub (id : ObjectId) (configs : list ISmtpConfig)
    (c : ISmtpConfig) :
  In c (findByIdAndDelete id configs) -> In c configs.
Proof.
  induction configs as [| x rest IH]; [intros [] |]. cbn [findByIdAndDelete].
  destruct (String.eqb (_id x) id).
  - intros H. right. exact H.
  - intros [<- | H]; [left; reflexivity | right; apply IH, H].
Qed.

Lemma findByIdAndDelete_ids (id : ObjectId) (configs : list ISmtpConfig) :
  NoDup (map _id configs) -> NoDup (map _id (findByIdAndDelete id configs)).
Proof.
  induction configs as [| x rest IH]; [intros H; exact H |].
  cbn [map findByIdAndDelete]. intros H. apply NoDup_cons in H.
  destruct H as (Hx & Hnd).
  destruct (String.eqb (_id x) id); [exact Hnd |].
  cbn [map]. apply NoDup_cons_2; [| apply IH, Hnd].
  intros Hin. apply Hx. apply list_elem_of_In in Hin. apply in_map_iff in Hin.
  destruct Hin as (c & Hc & Hin). apply list_elem_of_In. rewrite <- Hc.
  apply in_map. apply (findByIdAndDelete_sub id). exact Hin.
Qed.

Lemma findByIdAndDelete_defaults (id : ObjectId) (configs : list ISmtpConfig) :
  length (List.filter isDefault (findByIdAndDelete id configs))
  <= length (List.filter isDefault configs).
Proof.
  induction configs as [| x rest IH]; [reflexivity |].
  cbn [findByIdAndDelete List.filter].
  destruct (String.eqb (_id x) id).
  - destruct (isDefault x); cbn [length]; lia.
  - cbn [List.filter]. destruct (isDefault x); cbn [length]; lia.
Qed.

Lemma findByIdAndDelete_absent (id : ObjectId) (configs : list ISmtpConfig) :
  findById id configs = None -> findByIdAndDelete id configs = configs.
Proof.
  unfold findById. induction configs as [| x rest IH]; [reflexivity |].
  cbn [findByIdAndDelete List.find].
  destruct (String.eqb (_id x) id); [discriminate |].
  intros H. rewrite (IH H). reflexivity.
Qed.

Lemma findById_deleted (id id' : ObjectId) (configs : list ISmtpConfig) :
  NoDup (map _id configs) ->
  findById id' (findByIdAndDelete id configs) =
  if String.eqb id' id then None else findById id' configs.
Proof.
  unfold findById. induction configs as [| x rest IH]; intros Hnd.
  - cbn. destruct (String.eqb id' id); reflexivity.
  - cbn [map] in Hnd. apply NoDup_cons in Hnd. destruct Hnd as (Hx & Hnd).
    cbn [findByIdAndDelete List.find].
    destruct (String.eqb_spec (_id x) id) as [Hxid | Hxid].
    + destruct (String.eqb_spec id' id) as [-> | Hne].
      * apply findById_absent. rewrite <- Hxid. intros Hin. apply Hx.
        apply list_elem_of_In. exact Hin.
      * replace (String.eqb (_id x) id') with false; [reflexivity |].
        symmetry. apply String.eqb_neq. congruence.
    + cbn [List.find]. specialize (IH Hnd).
      destruct (String.eqb_spec id' id) as [-> | Hne].
      * replace (String.eqb (_id x) id) with false
          by (symmetry; apply String.eqb_neq; exact Hxid).
        exact IH.
      * destruct (String.eqb (_id x) id'); [reflexivity | exact IH].
Qed.

(** Configs with distinct identifiers of which only those called [id] may
    be the default have at most one default. *)
Lemma one_default_by_id (id : ObjectId) (configs : list ISmtpConfig) :
  NoDup (map _id configs) ->
  (forall c, In c configs -> isDefault c = true -> _id c = id) ->
  atMostOneDefault configs.
Proof.
  unfold atMostOneDefault. induction configs as [| x rest IH]; intros Hnd Hid;
    [cbn; lia |].
  cbn [map] in Hnd. apply NoDup_cons in Hnd. destruct Hnd as (Hx & Hnd).
  cbn [List.filter]. destruct (isDefault x) eqn:Hdx.
  - replace (List.filter isDefault rest) with (@nil ISmtpConfig); [cbn; lia |].
    symmetry. apply filter_none. intros c Hc.
    destruct (isDefault c) eqn:Hdc; [| reflexivity].
    exfalso. apply Hx. apply list_elem_of_In.
    rewrite (Hid x (or_introl eq_refl) Hdx), <- (Hid c (or_intror Hc) Hdc).
    apply in_map, Hc.
  - apply IH; [exact Hnd |]. intros c Hc. apply Hid. right. exact Hc.
Qed.

Lemma setConfigs_same (w : World) : setConfigs (smtpConfigs w) w = w.
Proof. destruct w. reflexivity. Qed.

(** X8. Creating a default server. [createSmtpConfig] with [isDefault] set
    stores a config that is the only default afterwards, whatever was
    stored before: [getDefaultSmtpConfig] returns it, and the next
    [refreshSmtpQueue] puts it at the head of the queue, followed by every
    older config in stored order. *)
Theorem createSmtpConfig_default_first (fresh : ObjectId) (insertConfig : Insert.t)
    (st : State) :
  Insert.isDefault insertConfig = true ->
  fst (createSmtpConfig fresh insertConfig (world st)) = document fresh insertConfig /\
  List.filter isDefault
    (smtpConfigs (snd (createSmtpConfig fresh insertConfig (world st)))) =
    [document fresh insertConfig] /\
  getDefaultSmtpConfig (snd (createSmtpConfig fresh insertConfig (world st))) =
    Some (document fresh insertConfig) /\
  smtpQueue
    (snd (refreshSmtpQueue
            (setWorld (snd (createSmtpConfig fresh insertConfig (world st))) st))) =
    document fresh insertConfig :: updateMany isDefault (smtpConfigs (world st)) /\
  map _id
    (smtpQueue
       (snd (refreshSmtpQueue
               (setWorld (snd (createSmtpConfig fresh insertConfig (world st))) st)))) =
    fresh :: map _id (smtpConfigs (world st)).
Proof.
  intros Hdef.
  assert (Hpool : smtpConfigs (snd (createSmtpConfig fresh insertConfig (world st))) =
                  updateMany isDefault (smtpConfigs (world st))
                  ++ [document fresh insertConfig]).
  { unfold createSmtpConfig. rewrite Hdef. reflexivity. }
  assert (Hd : isDefault (document fresh insertConfig) = true) by exact Hdef.
  assert (Hfilter : List.filter isDefault
                      (updateMany isDefault (smtpConfigs (world st))
                       ++ [document fresh insertConfig]) =
                    [document fresh insertConfig]).
  { rewrite List.filter_app, updateMany_no_default. cbn [List.filter app].
    rewrite Hd. reflexivity. }
  assert (Hfind : List.find isDefault
                    (updateMany isDefault (smtpConfigs (world st))
                     ++ [document fresh insertConfig]) =
                  Some (document fresh insertConfig)).
  { rewrite find_app_one, (filter_nil_find _ _ (updateMany_no_default _)), Hd.
    reflexivity. }
  assert (Hqueue : smtpQueue
            (snd (refreshSmtpQueue
               (setWorld (snd (createSmtpConfig fresh insertConfig (world st))) st))) =
            document fresh insertConfig
            :: updateMany isDefault (smtpConfigs (world st))).
  { rewrite refreshSmtpQueue_spec. cbn [snd smtpQueue setWorld world].
    rewrite Hpool. unfold refreshedQueue. rewrite Hfind. f_equal.
    rewrite List.filter_app. cbn [List.filter]. rewrite Hd. cbn [negb app].
    rewrite app_nil_r.
    generalize (updateMany_no_default (smtpConfigs (world st))).
    generalize (updateMany isDefault (smtpConfigs (world st))).
    intros l. induction l as [| c l IH]; [reflexivity |]. cbn [List.filter].
    destruct (isDefault c); [discriminate |]. cbn [negb]. intros H.
    rewrite (IH H). reflexivity. }
  split; [reflexivity |].
  split; [rewrite Hpool; exact Hfilter |].
  split; [unfold getDefaultSmtpConfig; rewrite Hpool; exact Hfind |].
  split; [exact Hqueue |].
  rewrite Hqueue. cbn [map]. rewrite updateMany_ids. reflexivity.
Qed.

Lemma createSmtpConfig_default_first_witness :
  getDefaultSmtpConfig (snd (createSmtpConfig "C" thirdServer (world twoServers))) =
    Some (document "C" thirdServer) /\
  map _id
    (smtpQueue
       (snd (refreshSmtpQueue
               (setWorld (snd (createSmtpConfig "C" thirdServer (world twoServers)))
                         twoServers)))) =
    ["C"; "A"; "B"].
Proof.
  destruct (createSmtpConfig_default_first "C" thirdServer twoServers eq_refl)
    as (_ & _ & Hget & _ & Hids).
  split; [exact Hget | exact Hids].
Defined.

(** X9. The stored configs stay well formed. When identifiers are unique and
    at most one config is the default, the same holds after
    [createSmtpConfig] (under an identifier not yet in use),
    [updateSmtpConfig] and [deleteSmtpConfig], whatever their arguments
    and whether or not the update rejects. *)
Theorem storage_keeps_pool_well_formed (w : World) (fresh id : ObjectId)
    (insertConfig : Insert.t) (update : Partial.t) :
  wellFormedPool w ->
  ~ In fresh (map _id (smtpConfigs w)) ->
  wellFormedPool (snd (createSmtpConfig fresh insertConfig w)) /\
  wellFormedPool (snd (updateSmtpConfig id update w)) /\
  wellFormedPool (deleteSmtpConfig id w).
Proof.
  intros (Hnd & Hone) Hfresh. unfold atMostOneDefault in Hone.
  split; [| split].
  - unfold createSmtpConfig, wellFormedPool, atMostOneDefault.
    destruct (Insert.isDefault insertConfig) eqn:Hdef;
      cbn [snd smtpConfigs setConfigs]; rewrite map_app, List.filter_app, length_app;
      cbn [map _id document List.filter isDefault]; rewrite Hdef.
    + rewrite updateMany_ids, updateMany_no_default. split; [| cbn; lia].
      apply NoDup_app. split; [exact Hnd |]. split.
      * intros x Hx Hin. apply list_elem_of_In in Hin. destruct Hin as [<- | []].
        apply Hfresh. apply list_elem_of_In. exact Hx.
      * apply NoDup_singleton.
    + split; [| cbn; lia].
      apply NoDup_app. split; [exact Hnd |]. split.
      * intros x Hx Hin. apply list_elem_of_In in Hin. destruct Hin as [<- | []].
        apply Hfresh. apply list_elem_of_In. exact Hx.
      * apply NoDup_singleton.
  - unfold updateSmtpConfig.
    destruct (truthy (Partial.isDefault update)) eqn:Hu.
    + cbn [smtpConfigs setConfigs].
      pose proof (findByIdAndUpdate_ids id update
                    (updateMany (fun c => negb (String.eqb (_id c) id) && isDefault c)
                                (smtpConfigs w))) as Hids.
      assert (Hothers : forall c,
                 In c (snd (findByIdAndUpdate id update
                         (updateMany (fun c => negb (String.eqb (_id c) id)
                                               && isDefault c)
                                     (smtpConfigs w)))) ->
                 isDefault c = true -> _id c = id).
      { generalize (smtpConfigs w). intros l.
        induction l as [| x l IH]; [intros c [] |].
        cbn [updateMany map findByIdAndUpdate]. fold (updateMany
          (fun c => negb (String.eqb (_id c) id) && isDefault c) l).
        destruct (String.eqb_spec (_id x) id) as [Hx | Hx]; cbn [negb andb].
        - rewrite Hx, String.eqb_refl. cbn [snd].
          intros c [<- | Hc] Hd; [exact Hx |].
          apply in_map_iff in Hc. destruct Hc as (y & <- & _).
          destruct (String.eqb_spec (_id y) id) as [Hy | Hy]; cbn [negb andb] in Hd;
            [exact Hy |].
          destruct (isDefault y) eqn:Hdy; [discriminate | congruence].
        - assert (Hkeep : String.eqb
                    (_id (if isDefault x then unsetDefault x else x)) id = false).
          { apply String.eqb_neq. destruct (isDefault x); exact Hx. }
          rewrite Hkeep.
          destruct (findByIdAndUpdate id update
                      (updateMany (fun c => negb (String.eqb (_id c) id)
                                            && isDefault c) l)) as [r l'].
          cbn [snd] in *. intros c [<- | Hc] Hd; [| apply IH; assumption].
          destruct (isDefault x) eqn:Hdx; [discriminate | congruence]. }
      unfold wellFormedPool.
      destruct (findByIdAndUpdate id update _) as [[c |] l'];
        cbn [snd smtpConfigs setConfigs] in *;
        (split; [rewrite Hids, updateMany_ids; exact Hnd |]);
        apply (one_default_by_id id); try assumption;
        rewrite Hids, updateMany_ids; exact Hnd.
    + pose proof (findByIdAndUpdate_ids id update (smtpConfigs w)) as Hids.
      pose proof (findByIdAndUpdate_defaults id update (smtpConfigs w) Hu) as Hlen.
      unfold wellFormedPool.
      destruct (findByIdAndUpdate id update (smtpConfigs w)) as [[c |] l'];
        cbn [snd smtpConfigs setConfigs] in *;
        (split; [rewrite Hids; exact Hnd | unfold atMostOneDefault; lia]).
  - unfold deleteSmtpConfig, wellFormedPool, atMostOneDefault.
    cbn [smtpConfigs setConfigs].
    split; [apply findByIdAndDelete_ids, Hnd |].
    pose proof (findByIdAndDelete_defaults id (smtpConfigs w)). lia.
Qed.

Lemma storage_keeps_pool_well_formed_witness :
  wellFormedPool (snd (createSmtpConfig "C" thirdServer (world twoServers))) /\
  wellFormedPool (snd (updateSmtpConfig "B" makeDefault (world twoServers))) /\
  wellFormedPool (deleteSmtpConfig "B" (world twoServers)).
Proof.
  apply (storage_keeps_pool_well_formed (world twoServers) "C" "B"
           thirdServer makeDefault).
  - split; [| unfold atMostOneDefault; cbn; lia]. cbn.
    apply NoDup_cons_2;
      [rewrite list_elem_of_In; intros [H | []]; discriminate |].
    apply NoDup_cons_2; [rewrite list_elem_of_In; intros [] | apply NoDup_nil_2].
  - cbn. intros [H | [H | []]]; discriminate.
Defined.

(** X10. Updating a config that is not stored. [updateSmtpConfig] under an
    identifier that no stored config has rejects with "SMTP config not
    found".  The default flags are cleared before the lookup: when the
    update sets [isDefault], the rejected call has left the pool without
    any default server; otherwise it has changed nothing. *)
Theorem updateSmtpConfig_missing (id : ObjectId) (update : Partial.t) (w : World) :
  getSmtpConfig id w = None ->
  fst (updateSmtpConfig id update w) = Throws ConfigNotFound /\
  map _id (smtpConfigs (snd (updateSmtpConfig id update w))) =
    map _id (smtpConfigs w) /\
  (Partial.isDefault update = Some true ->
   getDefaultSmtpConfig (snd (updateSmtpConfig id update w)) = None /\
   smtpConfigs (snd (updateSmtpConfig id update w)) =
     updateMany isDefault (smtpConfigs w)) /\
  (Partial.isDefault update <> Some true ->
   snd (updateSmtpConfig id update w) = w).
Proof.
  unfold getSmtpConfig. intros Hmiss.
  assert (Hsel : updateMany (fun c => negb (String.eqb (_id c) id) && isDefault c)
                            (smtpConfigs w) =
                 updateMany isDefault (smtpConfigs w)).
  { apply findById_absent in Hmiss. unfold updateMany. apply map_ext_in.
    intros c Hc. replace (String.eqb (_id c) id) with false; [reflexivity |].
    symmetry. apply String.eqb_neq. intros Hid. apply Hmiss. rewrite <- Hid.
    apply in_map, Hc. }
  assert (Hmiss' : findById id (updateMany isDefault (smtpConfigs w)) = None).
  { apply findById_absent. rewrite updateMany_ids. apply findById_absent, Hmiss. }
  unfold updateSmtpConfig.
  destruct (truthy (Partial.isDefault update)) eqn:Hu.
  - cbn [smtpConfigs setConfigs]. rewrite Hsel.
    pose proof (findByIdAndUpdate_fst id update
                  (updateMany isDefault (smtpConfigs w))) as Hfst.
    pose proof (findByIdAndUpdate_absent id update _ Hmiss') as Hsnd.
    rewrite Hmiss' in Hfst.
    destruct (findByIdAndUpdate id update (updateMany isDefault (smtpConfigs w)))
      as [r l']. cbn [fst snd option_map] in *. subst r l'.
    cbn [fst snd smtpConfigs setConfigs].
    split; [reflexivity |]. split; [apply updateMany_ids |]. split.
    + intros _. split; [| reflexivity].
      apply filter_nil_find, updateMany_no_default.
    + intros Hne. exfalso. apply Hne. unfold truthy in Hu.
      destruct (Partial.isDefault update) as [[] |]; [reflexivity | |]; discriminate.
  - pose proof (findByIdAndUpdate_fst id update (smtpConfigs w)) as Hfst.
    pose proof (findByIdAndUpdate_absent id update _ Hmiss) as Hsnd.
    rewrite Hmiss in Hfst.
    destruct (findByIdAndUpdate id update (smtpConfigs w)) as [r l'].
    cbn [fst snd option_map] in *. subst r l'.
    cbn [fst snd]. rewrite setConfigs_same.
    split; [reflexivity |]. split; [reflexivity |]. split.
    + intros Hd. rewrite Hd in Hu. discriminate.
    + intros _. reflexivity.
Qed.

Lemma updateSmtpConfig_missing_witness :
  fst (updateSmtpConfig "Z" makeDefault (world twoServers)) = Throws ConfigNotFound /\
  getDefaultSmtpConfig (snd (updateSmtpConfig "Z" makeDefault (world twoServers))) =
    None.
Proof.
  destruct (updateSmtpConfig_missing "Z" makeDefault (world twoServers) eq_refl)
    as (Hthrows & _ & Hdef & _).
  split; [exact Hthrows | apply (Hdef eq_refl)].
Defined.

(** X11. Updating a stored config. [updateSmtpConfig] under the identifier of
    the stored config [c] returns [c] with the fields of the update put in
    place, and [getSmtpConfig] returns the same afterwards.  No identifier
    changes; another config is returned as before, except that it has lost
    its default flag when the update sets [isDefault]. *)
Theorem updateSmtpConfig_found (id : ObjectId) (update : Partial.t) (w : World)
    (c : ISmtpConfig) :
  getSmtpConfig id w = Some c ->
  fst (updateSmtpConfig id update w) = Returns (applyUpdate update c) /\
  getSmtpConfig id (snd (updateSmtpConfig id update w)) =
    Some (applyUpdate update c) /\
  map _id (smtpConfigs (snd (updateSmtpConfig id update w))) =
    map _id (smtpConfigs w) /\
  (forall id',
     id' <> id ->
     getSmtpConfig id' (snd (updateSmtpConfig id update w)) =
     option_map
       (fun c' => if truthy (Partial.isDefault update) && isDefault c'
                  then unsetDefault c' else c')
       (getSmtpConfig id' w)).
Proof.
  unfold getSmtpConfig. intros Hc.
  destruct (findById_id _ _ _ Hc) as (Hid & _).
  set (others := fun c' => negb (String.eqb (_id c') id) && isDefault c').
  assert (Hfind : forall id',
             findById id' (updateMany others (smtpConfigs w)) =
             option_map (fun c' => if others c' then unsetDefault c' else c')
                        (findById id' (smtpConfigs w))).
  { intros id'. apply findById_map. intros c'. destruct (others c'); reflexivity. }
  assert (Hsame : others c = false)
    by (unfold others; rewrite Hid, String.eqb_refl; reflexivity).
  unfold updateSmtpConfig. fold others.
  destruct (truthy (Partial.isDefault update)) eqn:Hu.
  - cbn [smtpConfigs setConfigs].
    pose proof (findByIdAndUpdate_fst id update (updateMany others (smtpConfigs w)))
      as Hfst.
    pose proof (findByIdAndUpdate_ids id update (updateMany others (smtpConfigs w)))
      as Hids.
    pose proof (fun id' => findById_updated id id' update
                             (updateMany others (smtpConfigs w))) as Hget.
    rewrite (Hfind id), Hc in Hfst. cbn [option_map] in Hfst. rewrite Hsame in Hfst.
    destruct (findByIdAndUpdate id update (updateMany others (smtpConfigs w)))
      as [r l']. cbn [fst snd] in *. subst r.
    cbn [fst snd smtpConfigs setConfigs].
    split; [reflexivity |]. split.
    { rewrite Hget, String.eqb_refl, Hfind, Hc. cbn [option_map].
      rewrite Hsame. reflexivity. }
    split; [rewrite Hids; apply updateMany_ids |].
    intros id' Hne. rewrite Hget.
    replace (String.eqb id' id) with false
      by (symmetry; apply String.eqb_neq; exact Hne).
    rewrite Hfind. destruct (findById id' (smtpConfigs w)) as [c' |] eqn:Hc';
      [| reflexivity].
    cbn [option_map andb]. destruct (findById_id _ _ _ Hc') as (Hid' & _).
    unfold others. replace (String.eqb (_id c') id) with false
      by (symmetry; apply String.eqb_neq; congruence).
    reflexivity.
  - pose proof (findByIdAndUpdate_fst id update (smtpConfigs w)) as Hfst.
    pose proof (findByIdAndUpdate_ids id update (smtpConfigs w)) as Hids.
    pose proof (fun id' => findById_updated id id' update (smtpConfigs w)) as Hget.
    rewrite Hc in Hfst. cbn [option_map] in Hfst.
    destruct (findByIdAndUpdate id update (smtpConfigs w)) as [r l'].
    cbn [fst snd] in *. subst r. cbn [fst snd smtpConfigs setConfigs].
    split; [reflexivity |]. split.
    { rewrite Hget, String.eqb_refl, Hc. reflexivity. }
    split; [exact Hids |].
    intros id' Hne. rewrite Hget.
    replace (String.eqb id' id) with false
      by (symmetry; apply String.eqb_neq; exact Hne).
    destruct (findById id' (smtpConfigs w)); reflexivity.
Qed.

Lemma updateSmtpConfig_found_witness :
  fst (updateSmtpConfig "B" makeDefault (world twoServers)) =
    Returns (applyUpdate makeDefault (server "B" false 5)) /\
  getSmtpConfig "A" (snd (updateSmtpConfig "B" makeDefault (world twoServers))) =
    Some (server "A" false 1).
Proof.
  destruct (updateSmtpConfig_found "B" makeDefault (world twoServers)
              (server "B" false 5) eq_refl) as (Hret & _ & _ & Hother).
  split; [exact Hret |].
  rewrite (Hother "A") by discriminate. reflexivity.
Defined.

(** X12. Creating and reading back. [createSmtpConfig] under an identifier not
    yet in use stores the new document after the others, and
    [getSmtpConfig] finds it under that identifier.  An older config is
    returned as before, except that it has lost its default flag when the
    new config is the default. *)
Theorem createSmtpConfig_then_get (fresh : ObjectId) (insertConfig : Insert.t)
    (w : World) :
  ~ In fresh (map _id (smtpConfigs w)) ->
  getSmtpConfig fresh (snd (createSmtpConfig fresh insertConfig w)) =
    Some (document fresh insertConfig) /\
  map _id (smtpConfigs (snd (createSmtpConfig fresh insertConfig w))) =
    map _id (smtpConfigs w) ++ [fresh] /\
  (forall id',
     id' <> fresh ->
     getSmtpConfig id' (snd (createSmtpConfig fresh insertConfig w)) =
     option_map
       (fun c' => if Insert.isDefault insertConfig && isDefault c'
                  then unsetDefault c' else c')
       (getSmtpConfig id' w)).
Proof.
  intros Hfresh. unfold getSmtpConfig, createSmtpConfig.
  assert (Hnew : String.eqb (_id (document fresh insertConfig)) fresh = true)
    by apply String.eqb_refl.
  destruct (Insert.isDefault insertConfig) eqn:Hdef;
    cbn [snd smtpConfigs setConfigs andb].
  - assert (Hfind : forall id',
               findById id' (updateMany isDefault (smtpConfigs w)) =
               option_map (fun c' => if isDefault c' then unsetDefault c' else c')
                          (findById id' (smtpConfigs w))).
    { intros id'. apply findById_map. intros c'. destruct (isDefault c'); reflexivity. }
    split; [| split].
    + unfold findById at 1. rewrite find_app_one. fold (findById fresh
        (updateMany isDefault (smtpConfigs w))).
      rewrite Hfind. apply findById_absent in Hfresh. rewrite Hfresh.
      cbn [option_map]. rewrite Hnew. reflexivity.
    + rewrite map_app, updateMany_ids. reflexivity.
    + intros id' Hne. unfold findById at 1. rewrite find_app_one.
      fold (findById id' (updateMany isDefault (smtpConfigs w))).
      rewrite Hfind. destruct (findById id' (smtpConfigs w)); [reflexivity |].
      cbn [option_map document _id].
      replace (String.eqb fresh id') with false; [reflexivity |].
      symmetry. apply String.eqb_neq. congruence.
  - split; [| split].
    + unfold findById at 1. rewrite find_app_one.
      fold (findById fresh (smtpConfigs w)).
      apply findById_absent in Hfresh. rewrite Hfresh, Hnew. reflexivity.
    + rewrite map_app. reflexivity.
    + intros id' Hne. unfold findById at 1. rewrite find_app_one.
      fold (findById id' (smtpConfigs w)).
      destruct (findById id' (smtpConfigs w)); [reflexivity |].
      cbn [option_map document _id].
      replace (String.eqb fresh id') with false; [reflexivity |].
      symmetry. apply String.eqb_neq. congruence.
Qed.

Lemma createSmtpConfig_then_get_witness :
  getSmtpConfig "C" (snd (createSmtpConfig "C" thirdServer (world twoServers))) =
    Some (document "C" thirdServer) /\
  getSmtpConfig "A" (snd (createSmtpConfig "C" thirdServer (world twoServers))) =
    Some (server "A" false 1).
Proof.
  assert (Hfresh : ~ In "C" (map _id (smtpConfigs (world twoServers))))
    by (cbn; intros [H | [H | []]]; discriminate).
  destruct (createSmtpConfig_then_get "C" thirdServer (world twoServers) Hfresh)
    as (Hget & _ & Hother).
  split; [exact Hget |].
  rewrite (Hother "A") by discriminate. reflexivity.
Defined.

(** X13. Deleting. With unique identifiers, [getSmtpConfig] finds nothing under
    the identifier that [deleteSmtpConfig] was given and finds every other
    config as before; deleting under an identifier that is not stored
    changes nothing.  No other server is made the default: when at most
    one config is the default and that one is deleted,
    [getDefaultSmtpConfig] returns nothing afterwards. *)
Theorem deleteSmtpConfig_then_get (id : ObjectId) (w : World) :
  wellFormedPool w ->
  getSmtpConfig id (deleteSmtpConfig id w) = None /\
  (forall id', id' <> id ->
     getSmtpConfig id' (deleteSmtpConfig id w) = getSmtpConfig id' w) /\
  (getSmtpConfig id w = None -> deleteSmtpConfig id w = w) /\
  (forall d, getDefaultSmtpConfig w = Some d -> _id d = id ->
     getDefaultSmtpConfig (deleteSmtpConfig id w) = None).
Proof.
  intros (Hnd & Hone). unfold getSmtpConfig, deleteSmtpConfig.
  cbn [smtpConfigs setConfigs].
  split; [| split; [| split]].
  - rewrite (findById_deleted id id _ Hnd), String.eqb_refl. reflexivity.
  - intros id' Hne. rewrite (findById_deleted id id' _ Hnd).
    replace (String.eqb id' id) with false; [reflexivity |].
    symmetry. apply String.eqb_neq. exact Hne.
  - intros Hmiss. rewrite (findByIdAndDelete_absent _ _ Hmiss).
    apply setConfigs_same.
  - unfold getDefaultSmtpConfig. cbn [smtpConfigs setConfigs].
    intros d Hd Hid. unfold atMostOneDefault in Hone.
    induction (smtpConfigs w) as [| x rest IH]; [discriminate |].
    cbn [map] in Hnd. apply NoDup_cons in Hnd. destruct Hnd as (Hx & Hnd).
    cbn [List.find List.filter findByIdAndDelete] in *.
    destruct (isDefault x) eqn:Hdx.
    + injection Hd as ->. rewrite Hid, String.eqb_refl.
      apply filter_nil_find. cbn [length] in Hone.
      destruct (List.filter isDefault rest); [reflexivity | cbn in Hone; lia].
    + destruct (String.eqb_spec (_id x) id) as [Hxid | Hxid].
      * exfalso. apply Hx. apply find_some in Hd. destruct Hd as (Hin & _).
        apply list_elem_of_In. rewrite Hxid, <- Hid. apply in_map, Hin.
      * cbn [List.find]. rewrite Hdx. apply IH; assumption.
Qed.

Lemma deleteSmtpConfig_then_get_witness :
  getSmtpConfig "A" (deleteSmtpConfig "A" (world twoServers)) = None /\
  getDefaultSmtpConfig (deleteSmtpConfig "A" (world twoServers)) = None.
Proof.
  assert (Hwf : wellFormedPool (world twoServers)).
  { split; [| unfold atMostOneDefault; cbn; lia]. cbn.
    apply NoDup_cons_2;
      [rewrite list_elem_of_In; intros [H | []]; discriminate |].
    apply NoDup_cons_2; [rewrite list_elem_of_In; intros [] | apply NoDup_nil_2]. }
  destruct (deleteSmtpConfig_then_get "A" (world twoServers) Hwf)
    as (Hget & _ & _ & Hdef).
  split; [exact Hget |].
  apply (Hdef (server "A" true 1)); reflexivity.
Defined.

(** * The send route *)

Lemma prefix_map {A B} (f : A -> B) (l k : list A) :
  l `prefix_of` k -> map f l `prefix_of` map f k.
Proof. intros (r & ->). exists (map f r). apply map_app. Qed.

Section Route.

Variable E : Env.

(** The [sendMail] calls of a batch built from the active subscribers. *)
Lemma batch_mails_active_subscribers (campaign : ObjectId)
    (newsletter : Newsletter.t) (subscribers : list Subscriber.t) (st : State) :
  exists ms,
    sendsOf (trace (snd (sendBulkEmails E campaign
                           (emailBatch newsletter (activeSubscribers subscribers))
                           st))) =
      sendsOf (trace st) ++ ms /\
    map mailTo ms
      `prefix_of` map Subscriber.email (activeSubscribers subscribers) /\
    (fst (sendBulkEmails E campaign
            (emailBatch newsletter (activeSubscribers subscribers)) st)
       = Returns tt ->
     map mailTo ms = map Subscriber.email (activeSubscribers subscribers)) /\
    (forall m,
       In m ms ->
       mailSubject m = Newsletter.subject newsletter /\
       mailHtml m = Newsletter.content newsletter /\
       exists s, In s subscribers /\ Subscriber.subscribed s = true /\
                 mailTo m = Subscriber.email s).
Proof.
  set (batch := emailBatch newsletter (activeSubscribers subscribers)).
  destruct (refreshed_run E campaign batch st) as (s0 & -> & Hok & _ & _ & Hs & _).
  destruct (forEachEmail_run E campaign batch s0 Hok)
    as (ms & ds & Hs' & _ & _ & _ & _ & Hpre & Hres).
  assert (Hto : map (fun x : string * string * string => fst (fst x))
                    (map envelope batch) =
                map Subscriber.email (activeSubscribers subscribers)).
  { unfold batch, emailBatch. rewrite !map_map. reflexivity. }
  assert (Hms : map (fun x : string * string * string => fst (fst x))
                    (map content ms) = map mailTo ms).
  { rewrite map_map. reflexivity. }
  exists ms. rewrite Hs', Hs. split; [reflexivity |]. split.
  { rewrite <- Hto, <- Hms. apply prefix_map. exact Hpre. }
  split.
  { intros Hret. rewrite Hret in Hres. destruct Hres as (Hall & _).
    rewrite <- Hto, <- Hms, Hall. reflexivity. }
  intros m Hm.
  assert (Hin : In (content m) (map envelope batch)).
  { destruct Hpre as (r & ->). apply in_or_app. left. apply in_map. exact Hm. }
  apply in_map_iff in Hin. destruct Hin as (email & Henv & Hin).
  unfold batch, emailBatch in Hin. apply in_map_iff in Hin.
  destruct Hin as (s & <- & Hs0). unfold activeSubscribers in Hs0.
  apply filter_In in Hs0. destruct Hs0 as (Hin & Hsub).
  unfold envelope, content in Henv. cbn [to subject html] in Henv.
  injection Henv as Hm1 Hm2 Hm3.
  split; [symmetry; exact Hm2 |]. split; [symmetry; exact Hm3 |].
  exists s. split; [exact Hin |]. split; [exact Hsub | symmetry; exact Hm1].
Qed.


(** X16. The handler of src/server/routes.ts starts no batch. It creates
    the campaign under the status "sending", which the schema of the
    campaigns does not allow, so [Campaign.create] rejects: whatever the
    request, nothing is stored, [sendBulkEmails] is not called, and the
    answer is 401, 404, or 500 with the validation error. *)
Theorem postSendTracked_starts_nothing (authenticated : bool)
    (newsletterId : ObjectId) (newsletters : list Newsletter.t)
    (subscribers : list Subscriber.t) (fresh : ObjectId) (st : State) :
  exists response,
    postSendTracked E authenticated newsletterId newsletters subscribers fresh st =
      (Returns (response, None), st) /\
    (response = Unauthorized /\ authenticated = false \/
     response = NotFound "Newsletter not found" /\
       authenticated = true /\
       List.find (fun n => String.eqb (Newsletter._id n) newsletterId) newsletters
         = None \/
     response = ServerError (InvalidStatus "sending") /\
       authenticated = true /\
       List.find (fun n => String.eqb (Newsletter._id n) newsletterId) newsletters
         <> None).
Proof.
  unfold postSendTracked, startCampaign.
  destruct authenticated; cbn [negb].
  - destruct (List.find _ newsletters) as [newsletter |] eqn:Hfound.
    + cbn [createCampaign Campaign.status campaignStatuses existsb].
      replace (String.eqb "sending" "processing") with false by reflexivity.
      replace (String.eqb "sending" "completed") with false by reflexivity.
      replace (String.eqb "sending" "failed") with false by reflexivity.
      cbn [orb]. eexists. split; [reflexivity |].
      right. right. split; [reflexivity |]. split; [reflexivity | discriminate].
    + eexists. split; [reflexivity |]. right. left.
      split; [reflexivity |]. split; reflexivity.
  - eexists. split; [reflexivity |]. left. split; reflexivity.
Qed.

End Route.


(** * The transports of a batch *)

Lemma createsOf_app (a b : list Event) :
  createsOf (a ++ b) = createsOf a ++ createsOf b.
Proof. unfold createsOf. apply flat_map_app. Qed.

Lemma scanLoop_creates (fuel start : nat) (st : State) :
  createsOf (trace (snd (scanLoop fuel start st))) = createsOf (trace st).
Proof.
  revert st. induction fuel as [| fuel IH]; intros st; simpl; [reflexivity |].
  destruct (smtpQueue st !! currentSmtpIndex st) as [c |]; [| reflexivity].
  unfold bind, getSmtpDailyCount, ret.
  destruct (Qltb (inject_Z (dailyCount (world st) (_id c))) (dailyLimit c)).
  - cbn [snd trace emit]. rewrite createsOf_app. simpl. apply app_nil_r.
  - match goal with
    | |- context [Nat.eqb ?a ?b] => destruct (Nat.eqb a b)
    end.
    + cbn [snd trace emit setIndex]. rewrite createsOf_app. simpl. apply app_nil_r.
    + rewrite IH. cbn [trace emit setIndex]. rewrite createsOf_app. simpl.
      apply app_nil_r.
Qed.

Lemma getNextAvailableSmtp_creates (st : State) :
  createsOf (trace (snd (getNextAvailableSmtp st))) = createsOf (trace st).
Proof.
  unfold getNextAvailableSmtp, bind.
  destruct (Nat.eqb (length (smtpQueue st)) 0).
  - rewrite refreshSmtpQueue_spec.
    match goal with
    | |- context [Nat.eqb (length (smtpQueue ?s)) 0] =>
        destruct (Nat.eqb (length (smtpQueue s)) 0); [| rewrite scanLoop_creates]
    end; cbn [snd trace]; rewrite createsOf_app; simpl; apply app_nil_r.
  - destruct (Nat.eqb (length (smtpQueue st)) 0); [reflexivity |].
    apply scanLoop_creates.
Qed.

Lemma cacheGrowth_same (st st' : State) :
  transports st' = transports st ->
  createsOf (trace st') = createsOf (trace st) ->
  cacheGrowth st st'.
Proof.
  intros Ht Hc. exists []. unfold cacheGrownBy. cbn [map]. rewrite app_nil_r.
  split; [exact Hc |]. split; [apply NoDup_nil_2 |].
  split; [intros c [] |].
  split; [intros id t; rewrite Ht; intros H; exact H |].
  intros id. rewrite Ht. intros H. left. exact H.
Qed.

Lemma cacheGrowth_refl (st : State) : cacheGrowth st st.
Proof. apply cacheGrowth_same; reflexivity. Qed.

Lemma cacheGrowth_trans (a b c : State) :
  cacheGrowth a b -> cacheGrowth b c -> cacheGrowth a c.
Proof.
  intros (n1 & Hc1 & Hd1 & Hn1 & Hk1 & Ho1) (n2 & Hc2 & Hd2 & Hn2 & Hk2 & Ho2).
  exists (n1 ++ n2). unfold cacheGrownBy.
  split; [rewrite Hc2, Hc1, map_app, app_assoc; reflexivity |].
  split.
  { rewrite map_app. apply NoDup_app. split; [exact Hd1 |]. split; [| exact Hd2].
    intros id H1 H2. apply list_elem_of_In, in_map_iff in H1, H2.
    destruct H1 as (c1 & <- & H1). destruct H2 as (c2 & Hid & H2).
    destruct (Hn1 c1 H1) as (_ & t & Ht & _).
    destruct (Hn2 c2 H2) as (Hnone & _). rewrite Hid in Hnone. congruence. }
  split.
  { intros c0 Hin. apply in_app_or in Hin. destruct Hin as [Hin | Hin].
    - destruct (Hn1 c0 Hin) as (Hnone & t & Ht & Hopt).
      split; [exact Hnone |]. exists t. split; [apply Hk2, Ht | exact Hopt].
    - destruct (Hn2 c0 Hin) as (Hnone & t & Ht & Hopt). split.
      + destruct (transports a !! _id c0) as [t0 |] eqn:Ha; [| reflexivity].
        rewrite (Hk1 _ _ Ha) in Hnone. discriminate.
      + exists t. split; assumption. }
  split; [intros id t H; apply Hk2, Hk1, H |].
  intros id H. rewrite map_app.
  destruct (Ho2 id H) as [Hb | Hin]; [| right; apply in_or_app; right; exact Hin].
  destruct (Ho1 id Hb) as [Ha | Hin]; [left; exact Ha |].
  right. apply in_or_app. left. exact Hin.
Qed.

Section CacheGrowth.

Variable E : Env.

Lemma refreshSmtpQueue_cacheGrowth : keeps cacheGrowth refreshSmtpQueue.
Proof.
  intros st. rewrite refreshSmtpQueue_spec. apply cacheGrowth_same; [reflexivity |].
  cbn [snd trace]. rewrite createsOf_app. simpl. apply app_nil_r.
Qed.

Lemma getNextAvailableSmtp_cacheGrowth : keeps cacheGrowth getNextAvailableSmtp.
Proof.
  intros st. apply cacheGrowth_same; [| apply getNextAvailableSmtp_creates].
  apply getNextAvailableSmtp_frame.
Qed.

Lemma getTransport_cacheGrowth (c : ISmtpConfig) : keeps cacheGrowth (getTransport c).
Proof.
  intros st. destruct (transports st !! _id c) as [t |] eqn:Hc.
  - rewrite (getTransport_hit c st t Hc). apply cacheGrowth_refl.
  - rewrite (getTransport_miss c st Hc). exists [c]. unfold cacheGrownBy, cacheKept.
    cbn [snd trace transports map].
    split; [rewrite createsOf_app; reflexivity |].
    split; [apply NoDup_singleton |].
    split.
    { intros c0 [<- | []]. split; [exact Hc |]. eexists.
      split; [apply lookup_insert_eq | reflexivity]. }
    split.
    { intros id t Hid. rewrite lookup_insert_ne; [exact Hid |].
      intros Heq. rewrite Heq in Hc. congruence. }
    intros id H. destruct (String.eqb_spec (_id c) id) as [Heq | Hne].
    + right. left. exact Heq.
    + left. rewrite lookup_insert_ne in H by exact Hne. exact H.
Qed.

Lemma sendMail_cacheGrowth (t : option Transporter) (m : MailOptions) :
  keeps cacheGrowth (sendMail E t m).
Proof.
  intros st. unfold sendMail, throw. destruct t as [t |]; [| apply cacheGrowth_refl].
  destruct (sendMailOutcome E (sendMailCalls (world st)));
    (apply cacheGrowth_same; [reflexivity |]);
    cbn [snd trace emit setWorld]; rewrite createsOf_app; simpl; apply app_nil_r.
Qed.

Lemma logEmail_cacheGrowth (l : InsertLog) : keeps cacheGrowth (logEmail E l).
Proof.
  intros st. unfold logEmail.
  destruct (logEmailOutcome E (logEmailCalls (world st)));
    (apply cacheGrowth_same; [reflexivity |]);
    cbn [snd trace emit setWorld]; rewrite createsOf_app; simpl; apply app_nil_r.
Qed.

Lemma delay_cacheGrowth (ms : Z) : keeps cacheGrowth (delay ms).
Proof.
  intros st. apply cacheGrowth_same; [reflexivity |].
  cbn [snd delay trace emit setWorld]. rewrite createsOf_app. simpl. apply app_nil_r.
Qed.

Lemma sendOne_cacheGrowth (campaign : ObjectId) (email : Email) :
  keeps cacheGrowth (sendOne E campaign email).
Proof.
  unfold sendOne, attempt, recordFailure.
  repeat (first
    [ exact getNextAvailableSmtp_cacheGrowth
    | apply getTransport_cacheGrowth
    | apply sendMail_cacheGrowth
    | apply logEmail_cacheGrowth
    | apply delay_cacheGrowth
    | apply keeps_bind; [exact cacheGrowth_trans | | intros ?; cbv beta]
    | apply keeps_tryCatch; [exact cacheGrowth_trans | | intros ?; cbv beta] ]).
Qed.

Lemma forEachEmail_cacheGrowth (campaign : ObjectId) (emails : list Email) :
  keeps cacheGrowth (forEachEmail E campaign emails).
Proof.
  induction emails as [| email rest IH]; simpl.
  - intros st. apply cacheGrowth_refl.
  - apply keeps_bind;
      [exact cacheGrowth_trans | apply sendOne_cacheGrowth | intros _; exact IH].
Qed.

(** X15. One transport per server. The [createTransport] calls of a
    [sendBulkEmails] are made for servers with pairwise distinct
    identifiers, none of which had a cached transport before the batch;
    each of them is cached afterwards with the options of its server,
    every transport cached before is still cached unchanged, and the cache
    holds nothing else.  So a batch creates at most one transport per
    server identifier, and none for a server that has one. *)
Theorem sendBulkEmails_one_transport_per_server (campaign : ObjectId)
    (emails : list Email) (st : State) :
  exists news,
    createsOf (trace (snd (sendBulkEmails E campaign emails st))) =
      createsOf (trace st) ++ map optionsOf news /\
    NoDup (map _id news) /\
    (forall c, In c news ->
       transports st !! _id c = None /\
       exists t,
         transports (snd (sendBulkEmails E campaign emails st)) !! _id c = Some t /\
         options t = optionsOf c) /\
    (forall id t,
       transports st !! id = Some t ->
       transports (snd (sendBulkEmails E campaign emails st)) !! id = Some t) /\
    (forall id,
       is_Some (transports (snd (sendBulkEmails E campaign emails st)) !! id) ->
       is_Some (transports st !! id) \/ In id (map _id news)).
Proof.
  assert (H : keeps cacheGrowth (sendBulkEmails E campaign emails)).
  { unfold sendBulkEmails.
    apply keeps_bind;
      [exact cacheGrowth_trans | exact refreshSmtpQueue_cacheGrowth
      | intros _; apply forEachEmail_cacheGrowth]. }
  destruct (H st) as (news & Hnews). exists news. exact Hnews.
Qed.

End CacheGrowth.
